(** * A shallow embedding of the AR engine's tracking-and-mapping core

    The C++ sources embedded here are [slam_system.cpp], [map_point.h],
    [plane_detector.cpp], [image_target.cpp], [hit_test.cpp] with
    [hit_test.h], and [bindings.cpp].

    Conventions of the embedding.
    - [float] and [double] values are real numbers ([R]) and the arithmetic
      on them is exact; a decimal literal such as [1e-6f] is the rational
      it denotes.  Rounding, infinities and NaN are outside of the model.
    - [int] and [size_t] values are integers ([Z]) or naturals where they
      count or index; no count of this development reaches the width of
      the machine type.
    - OpenCV is an external library.  Each OpenCV routine the sources call
      is a field of the record [OpenCV]; the code is embedded as functions
      of such a record.  A colour conversion to gray keeps the size of the
      image, as OpenCV documents; its bytes are OpenCV's.
    - [std::random_device] draws are an explicit argument.
    - An uninitialised local that the code may read is an explicit
      argument; a pointer that may be null is an [option].
    - [std::vector] is [list], [std::map<int,_>] is [gmap Z _] traversed in
      increasing key order. *)

From Stdlib Require Import ZArith Reals Lra Lia List Bool.
From stdpp Require Import base option strings gmap list sorting.

(** ** Numbers *)

(** The comparisons [<] and [<=] of two numbers are decided; [a > b] is
    [b < a]. *)
#[global] Instance Rlt_decision (a b : R) : Decision (a < b)%R := Rlt_dec a b.
#[global] Instance Rle_decision (a b : R) : Decision (a <= b)%R := Rle_dec a b.

(** [FLT_MAX] of <cfloat>: (2 - 2^-23) * 2^127. *)
Definition FLT_MAX : R := IZR 340282346638528859811704183484516925440.

(** ** OpenCV's core types *)

(** An 8-bit [cv::Mat]: an image of [channels] channels; a grayscale
    image has one. *)
Record Image := mkImage
  { rows : Z; cols : Z; channels : Z; pixels : list Z }.

(** [cv::Mat::empty] on an image: no element. *)
Definition Image_empty (im : Image) : bool := (rows im * cols im =? 0)%Z.

(** A [CV_64F] [cv::Mat], as its list of rows. *)
Definition Mat : Type := list (list R).

(** [cv::Mat::empty] on such a matrix: no element. *)
Definition Mat_empty (m : Mat) : bool :=
  forallb (fun row => match row with [] => true | _ => false end) m.

(** [cv::Point2f]. *)
Record Point2f := mkPoint2f { p2x : R; p2y : R }.

(** [cv::Point3f] with the operators the sources use. *)
Record Point3f := mkPoint3f { px : R; py : R; pz : R }.

Module P3.
Local Open Scope R_scope.
Definition add (a b : Point3f) : Point3f :=
  mkPoint3f (px a + px b) (py a + py b) (pz a + pz b).
Definition sub (a b : Point3f) : Point3f :=
  mkPoint3f (px a - px b) (py a - py b) (pz a - pz b).
Definition neg (a : Point3f) : Point3f :=
  mkPoint3f (- px a) (- py a) (- pz a).
Definition scale (a : Point3f) (k : R) : Point3f :=
  mkPoint3f (px a * k) (py a * k) (pz a * k).
Definition divide (a : Point3f) (k : R) : Point3f :=
  mkPoint3f (px a / k) (py a / k) (pz a / k).
Definition dot (a b : Point3f) : R :=
  px a * px b + py a * py b + pz a * pz b.
(** [Point3_::cross] *)
Definition cross (a b : Point3f) : Point3f :=
  mkPoint3f (py a * pz b - pz a * py b)
            (pz a * px b - px a * pz b)
            (px a * py b - py a * px b).
(** [cv::norm(const Point3_&)]: the Euclidean length. *)
Definition norm (a : Point3f) : R :=
  sqrt (px a * px a + py a * py a + pz a * pz a).
End P3.

(** [cv::KeyPoint]: the sources read its [pt] only. *)
Record KeyPoint := mkKeyPoint { pt : Point2f }.

(** One row of an ORB descriptor matrix: 32 bytes. *)
Definition Descriptor : Type := list Z.

(** An ORB descriptor matrix ([CV_8U], one row per keypoint). *)
Definition Descriptors : Type := list Descriptor.

Definition Descriptors_empty (ds : Descriptors) : bool :=
  match ds with [] => true | _ => false end.

(** [cv::DMatch]. *)
Record DMatch := mkDMatch { queryIdx : Z; trainIdx : Z; distance : R }.

(** [v[i]] for an [int] index [i] into a [std::vector]; the sources index
    vectors with the indices of a [DMatch], which are row numbers of the
    descriptor matrices that were matched.  An index outside of the vector
    is undefined behaviour in the sources; it reads [dflt] here, and an
    assignment [v[i] = x], written [<[i := x]> v], does nothing there. *)
Definition vat {A} (dflt : A) (v : list A) (i : Z) : A := nth (Z.to_nat i) v dflt.

Definition KeyPoint_dflt : KeyPoint := mkKeyPoint (mkPoint2f 0 0).

(** *** Matrix expressions on [cv::Mat] *)

Module M.
Local Open Scope R_scope.

(** [m.at<double>(i, j)]. *)
Definition at_ (m : Mat) (i j : nat) : R := nth j (nth i m []) 0.

Definition nrows (m : Mat) : nat := length m.
Definition ncols (m : Mat) : nat := length (nth 0%nat m []).

(** [cv::Mat::eye(n, n, CV_64F)]. *)
Definition eye (n : nat) : Mat :=
  map (fun i => map (fun j => if (i =? j)%nat then 1 else 0) (seq 0 n))
      (seq 0 n).

(** [m(cv::Rect(x, y, w, h))]: columns [x .. x+w-1] of rows
    [y .. y+h-1]. *)
Definition rect (x y w h : nat) (m : Mat) : Mat :=
  map (fun row => take w (drop x row)) (take h (drop y m)).

(** [src.copyTo(dst(cv::Rect(x, y, w, h)))]: the entries of the
    rectangle become those of [src] when [src] is [h] by [w]; a [src]
    of another size is copied to a fresh buffer and [dst] keeps its
    entries. *)
Definition copyToRect (src : Mat) (x y w h : nat) (dst : Mat) : Mat :=
  if (nrows src =? h)%nat && forallb (fun row => (length row =? w)%nat) src
  then
    imap (fun i row =>
            imap (fun j e =>
                    if (y <=? i)%nat && (i <? y + h)%nat
                       && (x <=? j)%nat && (j <? x + w)%nat
                    then at_ src (i - y) (j - x) else e) row) dst
  else dst.

Definition sum (l : list R) : R := fold_right Rplus 0 l.

(** The matrix product [a * b]. *)
Definition mul (a b : Mat) : Mat :=
  map (fun row =>
         map (fun j =>
                sum (map (fun k => nth k row 0 * at_ b k j)
                         (seq 0 (length row))))
             (seq 0 (ncols b)))
      a.

(** The difference [a - b], entry by entry. *)
Definition sub (a b : Mat) : Mat :=
  imap (fun i row => imap (fun j e => e - at_ b i j) row) a.

(** [cv::norm(m)]: the L2 norm of the entries. *)
Definition norm (m : Mat) : R :=
  sqrt (sum (map (fun e => e * e) (concat m))).

(** The pose [[R | t; 0 0 0 1]] the sources build by
    [eye(4,4)], [R.copyTo(pose(Rect(0,0,3,3)))] and
    [t.copyTo(pose(Rect(3,0,1,3)))]. *)
Definition poseOf (r t : Mat) : Mat :=
  copyToRect t 3 0 1 3 (copyToRect r 0 0 3 3 (eye 4)).
End M.

(** [cv::countNonZero] of a mask. *)
Definition countNonZero (mask : list Z) : nat :=
  length (filter (fun b => b <> 0%Z) mask).

(** ** The OpenCV routines the sources call

    Each field stands for the routine of that name with the arguments the
    sources pass; of the arguments that are constants at every call site,
    the thresholds and counts are kept. *)
(** The conversion codes of [cv::cvtColor] that the sources use. *)
Inductive ColorCode := COLOR_BGR2GRAY | COLOR_BGRA2GRAY.

Record OpenCV := mkOpenCV
  { (** [cv::ORB::create(nfeatures, ...)->detectAndCompute(image, noArray(),
        keypoints, descriptors)] *)
    orb_detectAndCompute : Z -> Image -> list KeyPoint * Descriptors;
    (** [cv::BFMatcher::create(NORM_HAMMING, crossCheck)->match(query,
        train, matches)] *)
    bf_match : bool -> Descriptors -> Descriptors -> list DMatch;
    (** [...->knnMatch(query, train, matches, k)] *)
    bf_knnMatch : bool -> Descriptors -> Descriptors -> Z -> list (list DMatch);
    (** [cv::findEssentialMat(pts1, pts2, K, RANSAC, prob, threshold, mask)]:
        the matrix [E] and the mask *)
    findEssentialMat :
      list Point2f -> list Point2f -> Mat -> R -> R -> Mat * list Z;
    (** [cv::recoverPose(E, pts1, pts2, K, R, t, mask)]: the inlier count,
        [R], [t] and the mask *)
    recoverPose :
      Mat -> list Point2f -> list Point2f -> Mat -> list Z
      -> Z * Mat * Mat * list Z;
    (** [cv::solvePnPRansac(object, image, K, dist, rvec, tvec, false,
        iterations, reprojectionError, confidence)]: [Some (rvec, tvec)]
        on success *)
    solvePnPRansac :
      list Point3f -> list Point2f -> Mat -> Mat -> Z -> R -> R
      -> option (Mat * Mat);
    (** [cv::Rodrigues(rvec, R)] *)
    Rodrigues : Mat -> Mat;
    (** [cv::triangulatePoints(P1, P2, pts1, pts2, pts4D)]: the 4 x N
        matrix [pts4D] *)
    triangulatePoints : Mat -> Mat -> list Point2f -> list Point2f -> Mat;
    (** [cv::findHomography(src, dst, RANSAC, threshold, mask)] *)
    findHomography : list Point2f -> list Point2f -> R -> Mat * list Z;
    (** [cv::perspectiveTransform(src, dst, H)] *)
    perspectiveTransform : list Point2f -> Mat -> list Point2f;
    (** [cv::isContourConvex] *)
    isContourConvex : list Point2f -> bool;
    (** [cv::Mat::inv()] *)
    inv : Mat -> Mat;
    (** [cv::cvtColor(src, dst, code)] to gray: the bytes of [dst] *)
    cvtColor_bytes : Image -> ColorCode -> list Z }.

(** [cv::cvtColor(src, dst, code)] to gray: [dst] has the size of [src]
    and one channel. *)
Definition cvtColor (cv : OpenCV) (src : Image) (code : ColorCode) : Image :=
  mkImage (rows src) (cols src) 1 (cvtColor_bytes cv src code).

(** ** hit_test.h / hit_test.cpp *)

Module HitTester.
Local Open Scope R_scope.

(** [struct Plane3D]: the plane [n . P + d = 0]. *)
Record Plane3D := mkPlane3D { nx : R; ny : R; nz : R; d : R }.

Definition signedDistance (p : Plane3D) (x y z : R) : R :=
  nx p * x + ny p * y + nz p * z + d p.

(** [struct Ray3D]. *)
Record Ray3D := mkRay3D
  { ox : R; oy : R; oz : R; dx : R; dy : R; dz : R }.

Definition pointAt (r : Ray3D) (t : R) : R * R * R :=
  (ox r + dx r * t, oy r + dy r * t, oz r + dz r * t).

(** [struct HitTestResult]; the coordinates [x], [y], [z] of the source
    are the fields [hx], [hy], [hz]. *)
Record HitTestResult := mkHitTestResult
  { hit : bool; hx : R; hy : R; hz : R;
    distance : R; planeId : Z; confidence : R }.

(** The default constructor [HitTestResult()]. *)
Definition HitTestResult_new : HitTestResult :=
  mkHitTestResult false 0 0 0 0 (-1)%Z 0.

(** The data members of [class HitTester]. *)
Record t := mkHitTester
  { groundPlane : Plane3D;
    hasValidPlane : bool;
    ransacIterations : Z;
    ransacThreshold : R;
    minInliers : Z;
    horizontalThreshold : R }.

Definition setDefaultGroundPlane (h : t) : t :=
  mkHitTester (mkPlane3D 0 1 0 0) true
    (ransacIterations h) (ransacThreshold h) (minInliers h)
    (horizontalThreshold h).

(** [HitTester::HitTester()]. *)
Definition new : t :=
  setDefaultGroundPlane
    (mkHitTester (mkPlane3D 0 0 0 0) false 100 (3 / 100) 20 (85 / 100)).

(** A [const float*] of sixteen entries is a list; [m.[i]] reads it. *)
Notation "m .[ i ]" := (nth i m 0) (at level 1, format "m .[ i ]").

(** [HitTester::invertMatrix4x4]: [None] is the [false] return, on which
    [out] is not written. *)
Definition invertMatrix4x4 (m : list R) : option (list R) :=
  let inv0 := m.[5] * m.[10] * m.[15] - m.[5] * m.[11] * m.[14] - m.[9] * m.[6] * m.[15] +
              m.[9] * m.[7] * m.[14] + m.[13] * m.[6] * m.[11] - m.[13] * m.[7] * m.[10] in
  let inv4 := - m.[4] * m.[10] * m.[15] + m.[4] * m.[11] * m.[14] + m.[8] * m.[6] * m.[15] -
              m.[8] * m.[7] * m.[14] - m.[12] * m.[6] * m.[11] + m.[12] * m.[7] * m.[10] in
  let inv8 := m.[4] * m.[9] * m.[15] - m.[4] * m.[11] * m.[13] - m.[8] * m.[5] * m.[15] +
              m.[8] * m.[7] * m.[13] + m.[12] * m.[5] * m.[11] - m.[12] * m.[7] * m.[9] in
  let inv12 := - m.[4] * m.[9] * m.[14] + m.[4] * m.[10] * m.[13] + m.[8] * m.[5] * m.[14] -
               m.[8] * m.[6] * m.[13] - m.[12] * m.[5] * m.[10] + m.[12] * m.[6] * m.[9] in
  let inv1 := - m.[1] * m.[10] * m.[15] + m.[1] * m.[11] * m.[14] + m.[9] * m.[2] * m.[15] -
              m.[9] * m.[3] * m.[14] - m.[13] * m.[2] * m.[11] + m.[13] * m.[3] * m.[10] in
  let inv5 := m.[0] * m.[10] * m.[15] - m.[0] * m.[11] * m.[14] - m.[8] * m.[2] * m.[15] +
              m.[8] * m.[3] * m.[14] + m.[12] * m.[2] * m.[11] - m.[12] * m.[3] * m.[10] in
  let inv9 := - m.[0] * m.[9] * m.[15] + m.[0] * m.[11] * m.[13] + m.[8] * m.[1] * m.[15] -
              m.[8] * m.[3] * m.[13] - m.[12] * m.[1] * m.[11] + m.[12] * m.[3] * m.[9] in
  let inv13 := m.[0] * m.[9] * m.[14] - m.[0] * m.[10] * m.[13] - m.[8] * m.[1] * m.[14] +
               m.[8] * m.[2] * m.[13] + m.[12] * m.[1] * m.[10] - m.[12] * m.[2] * m.[9] in
  let inv2 := m.[1] * m.[6] * m.[15] - m.[1] * m.[7] * m.[14] - m.[5] * m.[2] * m.[15] +
              m.[5] * m.[3] * m.[14] + m.[13] * m.[2] * m.[7] - m.[13] * m.[3] * m.[6] in
  let inv6 := - m.[0] * m.[6] * m.[15] + m.[0] * m.[7] * m.[14] + m.[4] * m.[2] * m.[15] -
              m.[4] * m.[3] * m.[14] - m.[12] * m.[2] * m.[7] + m.[12] * m.[3] * m.[6] in
  let inv10 := m.[0] * m.[5] * m.[15] - m.[0] * m.[7] * m.[13] - m.[4] * m.[1] * m.[15] +
               m.[4] * m.[3] * m.[13] + m.[12] * m.[1] * m.[7] - m.[12] * m.[3] * m.[5] in
  let inv14 := - m.[0] * m.[5] * m.[14] + m.[0] * m.[6] * m.[13] + m.[4] * m.[1] * m.[14] -
               m.[4] * m.[2] * m.[13] - m.[12] * m.[1] * m.[6] + m.[12] * m.[2] * m.[5] in
  let inv3 := - m.[1] * m.[6] * m.[11] + m.[1] * m.[7] * m.[10] + m.[5] * m.[2] * m.[11] -
              m.[5] * m.[3] * m.[10] - m.[9] * m.[2] * m.[7] + m.[9] * m.[3] * m.[6] in
  let inv7 := m.[0] * m.[6] * m.[11] - m.[0] * m.[7] * m.[10] - m.[4] * m.[2] * m.[11] +
              m.[4] * m.[3] * m.[10] + m.[8] * m.[2] * m.[7] - m.[8] * m.[3] * m.[6] in
  let inv11 := - m.[0] * m.[5] * m.[11] + m.[0] * m.[7] * m.[9] + m.[4] * m.[1] * m.[11] -
               m.[4] * m.[3] * m.[9] - m.[8] * m.[1] * m.[7] + m.[8] * m.[3] * m.[5] in
  let inv15 := m.[0] * m.[5] * m.[10] - m.[0] * m.[6] * m.[9] - m.[4] * m.[1] * m.[10] +
               m.[4] * m.[2] * m.[9] + m.[8] * m.[1] * m.[6] - m.[8] * m.[2] * m.[5] in
  let inv := [inv0; inv1; inv2; inv3; inv4; inv5; inv6; inv7;
              inv8; inv9; inv10; inv11; inv12; inv13; inv14; inv15] in
  let det := m.[0] * inv0 + m.[1] * inv4 + m.[2] * inv8 + m.[3] * inv12 in
  if decide (Rabs det < 1 / 10000000000) then None
  else
    let det' := 1 / det in
    Some (map (fun e => e * det') inv).

(** The lambda [multiplyMat4Vec4] of [screenToRay], for a column-major
    matrix. *)
Definition multiplyMat4Vec4 (m v : list R) : list R :=
  map (fun i => m.[i] * v.[0] + m.[i + 4] * v.[1]
                + m.[i + 8] * v.[2] + m.[i + 12] * v.[3])
      (seq 0 4).

(** The perspective divide of [screenToRay], applied to the first three
    entries when [|w| > 1e-6f]. *)
Definition perspectiveDivide (v : list R) : list R :=
  if decide (Rabs v.[3] > 1 / 1000000)
  then [v.[0] / v.[3]; v.[1] / v.[3]; v.[2] / v.[3]; v.[3]]
  else v.

Definition fallbackRay : Ray3D := mkRay3D 0 0 0 0 0 (-1).

(** [HitTester::screenToRay]. *)
Definition screenToRay (screenX screenY : R) (screenWidth screenHeight : Z)
    (viewMatrix projMatrix : list R) : Ray3D :=
  let ndcX := (2 * screenX / IZR screenWidth) - 1 in
  let ndcY := 1 - (2 * screenY / IZR screenHeight) in
  let nearPoint := [ndcX; ndcY; -1; 1] in
  let farPoint := [ndcX; ndcY; 1; 1] in
  match invertMatrix4x4 projMatrix with
  | None => fallbackRay
  | Some invProj =>
    match invertMatrix4x4 viewMatrix with
    | None => fallbackRay
    | Some invView =>
      let nearView := perspectiveDivide (multiplyMat4Vec4 invProj nearPoint) in
      let farView := perspectiveDivide (multiplyMat4Vec4 invProj farPoint) in
      let nearWorld := [nearView.[0]; nearView.[1]; nearView.[2]; 1] in
      let farWorld := [farView.[0]; farView.[1]; farView.[2]; 1] in
      let nearW := multiplyMat4Vec4 invView nearWorld in
      let farW := multiplyMat4Vec4 invView farWorld in
      let ddx := farW.[0] - nearW.[0] in
      let ddy := farW.[1] - nearW.[1] in
      let ddz := farW.[2] - nearW.[2] in
      let len := sqrt (ddx * ddx + ddy * ddy + ddz * ddz) in
      if decide (len > 1 / 1000000)
      then mkRay3D nearW.[0] nearW.[1] nearW.[2] (ddx / len) (ddy / len) (ddz / len)
      else mkRay3D nearW.[0] nearW.[1] nearW.[2] 0 0 (-1)
    end
  end.

(** [n . D] and the ray parameter [t = -(n . O + d) / (n . D)] as
    [rayPlaneIntersect] computes them. *)
Definition nDotD (ray : Ray3D) (plane : Plane3D) : R :=
  nx plane * dx ray + ny plane * dy ray + nz plane * dz ray.
Definition nDotO (ray : Ray3D) (plane : Plane3D) : R :=
  nx plane * ox ray + ny plane * oy ray + nz plane * oz ray.
Definition rayParam (ray : Ray3D) (plane : Plane3D) : R :=
  - (nDotO ray plane + d plane) / nDotD ray plane.

Definition set_hit (b : bool) (r : HitTestResult) : HitTestResult :=
  mkHitTestResult b (hx r) (hy r) (hz r) (distance r) (planeId r)
                  (confidence r).

(** [HitTester::rayPlaneIntersect]: the returned flag and the [result]
    the call leaves behind. *)
Definition rayPlaneIntersect (ray : Ray3D) (plane : Plane3D)
    (result : HitTestResult) : bool * HitTestResult :=
  if decide (Rabs (nDotD ray plane) < 1 / 1000000)
  then (false, set_hit false result)
  else
    let t := rayParam ray plane in
    if decide (t < 0) then (false, set_hit false result)
    else
      let '(x, y, z) := pointAt ray t in
      (true, mkHitTestResult true x y z t (-1)%Z 1).

(** [HitTester::hitTest]. *)
Definition hitTest (h : t) (screenX screenY : R)
    (screenWidth screenHeight : Z) (viewMatrix projMatrix : list R)
    : HitTestResult :=
  let result := HitTestResult_new in
  if negb (hasValidPlane h) then set_hit false result
  else
    let ray := screenToRay screenX screenY screenWidth screenHeight
                           viewMatrix projMatrix in
    snd (rayPlaneIntersect ray (groundPlane h) result).
(** [Plane3D::isOnPlane]; the default [threshold] is [0.02f]. *)
Definition isOnPlane (p : Plane3D) (x y z threshold : R) : bool :=
  bool_decide (Rabs (signedDistance p x y z) < threshold).

(** [points[i]] for a [std::vector<cv::Point3f>]. *)
Definition pt3 (points : list Point3f) (i : nat) : Point3f :=
  nth i points (mkPoint3f 0 0 0).

(** [HitTester::computePlaneFromPoints]: [Some outPlane] on [true]. *)
Definition computePlaneFromPoints (p1 p2 p3 : Point3f) : option Plane3D :=
  let v1 := P3.sub p2 p1 in
  let v2 := P3.sub p3 p1 in
  let normal := mkPoint3f (py v1 * pz v2 - pz v1 * py v2)
                          (pz v1 * px v2 - px v1 * pz v2)
                          (px v1 * py v2 - py v1 * px v2) in
  let len := sqrt (px normal * px normal + py normal * py normal
                   + pz normal * pz normal) in
  if decide (len < 1 / 1000000) then None
  else
    let onx := px normal / len in
    let ony := py normal / len in
    let onz := pz normal / len in
    Some (mkPlane3D onx ony onz
                    (- (onx * px p1 + ony * py p1 + onz * pz p1))).

(** The test [std::abs(plane.signedDistance(p.x, p.y, p.z)) <
    ransacThreshold] of the two counting loops of [fitPlaneRANSAC]. *)
Definition isInlier (h : t) (plane : Plane3D) (p : Point3f) : Prop :=
  Rabs (signedDistance plane (px p) (py p) (pz p)) < ransacThreshold h.

(** [inlierCount] after the inner loop of [fitPlaneRANSAC]. *)
Definition inlierCountOf (h : t) (points : list Point3f) (plane : Plane3D)
    : Z :=
  Z.of_nat (length (filter (isInlier h plane) points)).

(** [inliers] after the last loop of [fitPlaneRANSAC]. *)
Definition inliersOf (h : t) (points : list Point3f) (plane : Plane3D)
    : list nat :=
  filter (fun i => isInlier h plane (pt3 points i)) (seq 0 (length points)).

(** One turn of the RANSAC loop on the pair [(bestInlierCount,
    bestPlane)].  [dis] gives the draws of
    [uniform_int_distribution<>(0, points.size() - 1)] in the order they
    are made: three for every turn. *)
Definition ransacIteration (h : t) (points : list Point3f) (dis : nat -> nat)
    (best : Z * Plane3D) (iter : nat) : Z * Plane3D :=
  let i1 := dis (3 * iter)%nat in
  let i2 := dis (3 * iter + 1)%nat in
  let i3 := dis (3 * iter + 2)%nat in
  if (i1 =? i2)%nat || (i2 =? i3)%nat || (i1 =? i3)%nat then best
  else
    match computePlaneFromPoints (pt3 points i1) (pt3 points i2)
                                 (pt3 points i3) with
    | None => best
    | Some plane =>
      let inlierCount := inlierCountOf h points plane in
      if (best.1 <? inlierCount)%Z then (inlierCount, plane) else best
    end.

(** [HitTester::fitPlaneRANSAC]: [Some (outPlane, inliers)] on [true].
    The local [bestPlane] is declared without an initialiser; [uninit] is
    the value it holds before the first assignment. *)
Definition fitPlaneRANSAC (h : t) (points : list Point3f) (dis : nat -> nat)
    (uninit : Plane3D) : option (Plane3D * list nat) :=
  if (length points <? 3)%nat then None
  else
    let best := fold_left (ransacIteration h points dis)
                          (seq 0 (Z.to_nat (ransacIterations h)))
                          (0%Z, uninit) in
    if (best.1 <? minInliers h)%Z then None
    else Some (best.2, inliersOf h points best.2).

(** [HitTester::isHorizontalPlane]. *)
Definition isHorizontalPlane (h : t) (plane : Plane3D) : bool :=
  bool_decide (Rabs (ny plane) > horizontalThreshold h).

(** The vector [pts] that [estimateGroundPlane] builds from the float
    array. *)
Definition pointsOfArray (points : list R) (pointCount : Z) : list Point3f :=
  map (fun i => mkPoint3f points.[i * 3 + 0] points.[i * 3 + 1]
                          points.[i * 3 + 2])
      (seq 0 (Z.to_nat pointCount)).

(** The sign change of [estimateGroundPlane] for a normal that points
    down. *)
Definition upward (p : Plane3D) : Plane3D :=
  if decide (ny p < 0) then mkPlane3D (- nx p) (- ny p) (- nz p) (- d p)
  else p.

(** [HitTester::estimateGroundPlane]; [None] is the null pointer. *)
Definition estimateGroundPlane (h : t) (points : option (list R))
    (pointCount : Z) (dis : nat -> nat) (uninit : Plane3D) : bool * t :=
  match points with
  | None => (false, h)
  | Some points =>
    if (pointCount <? minInliers h)%Z then (false, h)
    else
      let pts := pointsOfArray points pointCount in
      match fitPlaneRANSAC h pts dis uninit with
      | None => (false, h)
      | Some (candidatePlane, inliers) =>
        if negb (isHorizontalPlane h candidatePlane) then (false, h)
        else
          (true,
           mkHitTester (upward candidatePlane) true
             (ransacIterations h) (ransacThreshold h) (minInliers h)
             (horizontalThreshold h))
      end
  end.

(** [getGroundPlane] and [hasGroundPlane]. *)
Definition getGroundPlane (h : t) : Plane3D := groundPlane h.
Definition hasGroundPlane (h : t) : bool := hasValidPlane h.

(** [HitTester::createProjectionMatrix]: the sixteen entries of [out]. *)
Definition createProjectionMatrix (fovY aspect near far : R) : list R :=
  let tanHalfFov := tan (fovY / 2) in
  [ 1 / (aspect * tanHalfFov); 0; 0; 0;
    0; 1 / tanHalfFov; 0; 0;
    0; 0; - (far + near) / (far - near); -1;
    0; 0; - (2 * far * near) / (far - near); 0 ].
End HitTester.

(** ** plane_detector.h / plane_detector.cpp *)

Module PlaneDetector.
Local Open Scope R_scope.

(** [struct DetectedPlane]. *)
Record DetectedPlane := mkDetectedPlane
  { id : Z;
    center : Point3f;
    normal : Point3f;
    width : R;
    height : R;
    corners : list Point3f;
    isHorizontal : bool;
    confidence : R }.

(** The data members of [class PlaneDetector]. *)
Record t := mkPlaneDetector { planes : list DetectedPlane; nextPlaneId : Z }.

Definition RANSAC_THRESHOLD : R := 2 / 100.
Definition RANSAC_ITERATIONS : nat := 100.
Definition MIN_PLANE_POINTS : nat := 50.
Definition HORIZONTAL_THRESHOLD : R := 9 / 10.
Definition MERGE_DISTANCE : R := 1 / 10.

(** [PlaneDetector::PlaneDetector()]. *)
Definition new : t := mkPlaneDetector [] 0.

Definition origin : Point3f := mkPoint3f 0 0 0.

(** [points[i]]. *)
Definition at3 (points : list Point3f) (i : nat) : Point3f :=
  nth i points origin.

(** The locals [bestInlierCount], [bestNormal], [bestD] of
    [fitPlaneRANSAC] and its output argument [inliers]. *)
Record Best := mkBest
  { bestInlierCount : nat; bestNormal : Point3f; bestD : R;
    bestInliers : list nat }.

(** The indices [i] with [|normal . points[i] + d| < RANSAC_THRESHOLD]. *)
Definition collectInliers (points : list Point3f) (n : Point3f) (d : R)
    : list nat :=
  filter (fun i => Rabs (P3.dot n (at3 points i) + d) < RANSAC_THRESHOLD)
         (seq 0 (length points)).

(** One turn of the RANSAC loop.  [dis] gives the draws of
    [uniform_int_distribution<>(0, points.size() - 1)] in the order they
    are made: three for every turn. *)
Definition ransacIteration (points : list Point3f) (dis : nat -> nat)
    (b : Best) (iter : nat) : Best :=
  let i1 := dis (3 * iter)%nat in
  let i2 := dis (3 * iter + 1)%nat in
  let i3 := dis (3 * iter + 2)%nat in
  if (i1 =? i2)%nat || (i2 =? i3)%nat || (i1 =? i3)%nat then b
  else
    let p1 := at3 points i1 in
    let p2 := at3 points i2 in
    let p3 := at3 points i3 in
    let v1 := P3.sub p2 p1 in
    let v2 := P3.sub p3 p1 in
    let n0 := P3.cross v1 v2 in
    let norm := P3.norm n0 in
    if decide (norm < 1 / 1000000) then b
    else
      let n := P3.divide n0 norm in
      let d := - P3.dot n p1 in
      let currentInliers := collectInliers points n d in
      if (bestInlierCount b <? length currentInliers)%nat
      then mkBest (length currentInliers) n d currentInliers
      else b.

(** [PlaneDetector::fitPlaneRANSAC]: [Some (planeNormal, planeD, inliers)]
    on [true], [None] on [false]. *)
Definition fitPlaneRANSAC (points : list Point3f) (dis : nat -> nat)
    : option (Point3f * R * list nat) :=
  if (length points <? 3)%nat then None
  else
    let b := fold_left (ransacIteration points dis)
                       (seq 0 RANSAC_ITERATIONS)
                       (mkBest 0 origin 0 []) in
    if (bestInlierCount b <? MIN_PLANE_POINTS)%nat then None
    else if decide (py (bestNormal b) < 0)
         then Some (P3.neg (bestNormal b), - bestD b, bestInliers b)
         else Some (bestNormal b, bestD b, bestInliers b).

(** [PlaneDetector::isPlaneHorizontal]. *)
Definition isPlaneHorizontal (n : Point3f) : bool :=
  let up := mkPoint3f 0 1 0 in
  bool_decide (Rabs (P3.dot n up) > HORIZONTAL_THRESHOLD).

Definition set_bounds (p : DetectedPlane) (c : Point3f) (w h : R)
    (cs : list Point3f) : DetectedPlane :=
  mkDetectedPlane (id p) c (normal p) w h cs (isHorizontal p) (confidence p).

(** [PlaneDetector::computePlaneBounds]. *)
Definition computePlaneBounds (inlierPoints : list Point3f) (n : Point3f)
    (plane : DetectedPlane) : DetectedPlane :=
  match inlierPoints with
  | [] => plane
  | _ =>
    let c := P3.divide (fold_left P3.add inlierPoints origin)
                       (INR (length inlierPoints)) in
    let up := mkPoint3f 0 1 0 in
    let right0 := P3.cross up n in
    let right1 := if decide (P3.norm right0 < 1 / 10)
                  then mkPoint3f 1 0 0 else right0 in
    let right := P3.divide right1 (P3.norm right1) in
    let forward0 := P3.cross n right in
    let forward := P3.divide forward0 (P3.norm forward0) in
    let '(minX, maxX, minZ, maxZ) :=
      fold_left
        (fun '(minX, maxX, minZ, maxZ) p =>
           let local := P3.sub p c in
           let x := P3.dot local right in
           let z := P3.dot local forward in
           (Rmin minX x, Rmax maxX x, Rmin minZ z, Rmax maxZ z))
        inlierPoints (FLT_MAX, - FLT_MAX, FLT_MAX, - FLT_MAX) in
    let corner (a b : R) :=
      P3.add (P3.add c (P3.scale right a)) (P3.scale forward b) in
    set_bounds plane c (maxX - minX) (maxZ - minZ)
      [corner minX minZ; corner maxX minZ; corner maxX maxZ; corner minX maxZ]
  end.

(** The test of one existing plane in [findMergeablePlane]: the loop
    body returns the index when this holds and moves on otherwise. *)
Definition mergeable (existing newPlane : DetectedPlane) : bool :=
  if negb (eqb (isHorizontal existing) (isHorizontal newPlane)) then false
  else
    let normalDot := P3.dot (normal existing) (normal newPlane) in
    if decide (Rabs normalDot < 95 / 100) then false
    else
      let dist := P3.norm (P3.sub (center existing) (center newPlane)) in
      bool_decide (dist < MERGE_DISTANCE).

(** The loop of [findMergeablePlane] from index [i] on. *)
Fixpoint findMergeablePlane_from (i : nat) (ps : list DetectedPlane)
    (newPlane : DetectedPlane) : Z :=
  match ps with
  | [] => (-1)%Z
  | p :: ps' =>
    if mergeable p newPlane then Z.of_nat i
    else findMergeablePlane_from (S i) ps' newPlane
  end.

(** [PlaneDetector::findMergeablePlane]: an index, or [-1]. *)
Definition findMergeablePlane (pd : t) (newPlane : DetectedPlane) : Z :=
  findMergeablePlane_from 0 (planes pd) newPlane.

(** What [mergePlanes] writes to [planes[existingIdx]]. *)
Definition merged (existing newPlane : DetectedPlane) : DetectedPlane :=
  mkDetectedPlane
    (id existing)
    (P3.scale (P3.add (center existing) (center newPlane)) (1 / 2))
    (normal existing)
    (Rmax (width existing) (width newPlane))
    (Rmax (height existing) (height newPlane))
    (corners existing)
    (isHorizontal existing)
    (Rmin 1 (confidence existing + confidence newPlane * (1 / 2))).

(** [PlaneDetector::mergePlanes]. *)
Definition mergePlanes (pd : t) (existingIdx : Z) (newPlane : DetectedPlane)
    : t :=
  mkPlaneDetector
    (alter (fun existing => merged existing newPlane)
           (Z.to_nat existingIdx) (planes pd))
    (nextPlaneId pd).

(** [remainingPoints.erase(begin + idx)] for every inlier index, largest
    index first. *)
Definition eraseInliers (inliers : list nat) (remainingPoints : list Point3f)
    : list Point3f :=
  fold_left (fun pts idx => delete idx pts)
            (merge_sort (flip Nat.le) inliers)
            remainingPoints.

(** The merge attempt of [detectPlanes] for the plane just made: merge it
    into [planes[mergeIdx]] and take the id back, or append it. *)
Definition placePlane (pd : t) (plane : DetectedPlane) : t :=
  let mergeIdx := findMergeablePlane pd plane in
  if (0 <=? mergeIdx)%Z
  then let pd' := mergePlanes pd mergeIdx plane in
       mkPlaneDetector (planes pd') (nextPlaneId pd' - 1)
  else mkPlaneDetector (planes pd ++ [plane]) (nextPlaneId pd).

(** The body of the [for] loop of [detectPlanes], [fuel] turns being
    left; [rd planeCount] is the draw sequence of the generator that the
    call of [fitPlaneRANSAC] in turn [planeCount] seeds.  The members
    [width] and [height] of the local [plane] are not initialised before
    [computePlaneBounds] writes them (there are inliers); they are 0 here. *)
Fixpoint detectPlanes_loop (fuel planeCount : nat) (total : nat)
    (rd : nat -> nat -> nat) (remainingPoints : list Point3f) (pd : t) : t :=
  match fuel with
  | O => pd
  | S fuel' =>
    if (length remainingPoints <? MIN_PLANE_POINTS)%nat then pd
    else
      match fitPlaneRANSAC remainingPoints (rd planeCount) with
      | None => pd
      | Some (n, d, inliers) =>
        if (length inliers <? MIN_PLANE_POINTS)%nat then pd
        else
          let inlierPoints := map (at3 remainingPoints) inliers in
          let plane0 :=
            mkDetectedPlane (nextPlaneId pd) origin n 0 0 []
              (isPlaneHorizontal n) (INR (length inliers) / INR total) in
          let pd1 := mkPlaneDetector (planes pd) (nextPlaneId pd + 1) in
          let plane := computePlaneBounds inlierPoints n plane0 in
          let pd2 := placePlane pd1 plane in
          detectPlanes_loop fuel' (S planeCount) total rd
            (eraseInliers inliers remainingPoints) pd2
      end
  end.

(** [PlaneDetector::detectPlanes]; [frame] and [cameraPose] are not
    read. *)
Definition detectPlanes (pd : t) (frame : Image) (mapPoints : list Point3f)
    (cameraPose : Mat) (rd : nat -> nat -> nat) : bool * t :=
  if (length mapPoints <? MIN_PLANE_POINTS)%nat then (false, pd)
  else
    let pd' := detectPlanes_loop 3 0 (length mapPoints) rd mapPoints pd in
    (negb (bool_decide (planes pd' = [])), pd').

(** [PlaneDetector::getDetectedPlanes]. *)
Definition getDetectedPlanes (pd : t) : list DetectedPlane := planes pd.
(** One turn of the loop of [hitTest] on [(minDist, found)]; [found]
    holds [hitPoint] and [planeId] once they are written. *)
Definition hitTestStep (cameraPos rayDir : Point3f)
    (st : R * option (Point3f * Z)) (plane : DetectedPlane)
    : R * option (Point3f * Z) :=
  let denom := P3.dot rayDir (normal plane) in
  if decide (Rabs denom < 1 / 1000000) then st
  else
    let t_param :=
      P3.dot (P3.sub (center plane) cameraPos) (normal plane) / denom in
    if decide (t_param < 0) then st
    else
      let intersection := P3.add cameraPos (P3.scale rayDir t_param) in
      let distToCenter := P3.norm (P3.sub intersection (center plane)) in
      let maxDist := Rmax (width plane) (height plane) * (6 / 10) in
      if bool_decide (distToCenter < maxDist) && bool_decide (t_param < st.1)
      then (t_param, Some (intersection, id plane))
      else st.

(** [cameraPos] and the normalised [rayDir] of [hitTest]. *)
Definition cameraPosOf (cameraPose : Mat) : Point3f :=
  let t := M.rect 3 0 1 3 cameraPose in
  mkPoint3f (M.at_ t 0 0) (M.at_ t 1 0) (M.at_ t 2 0).

Definition rayDirOf (screenX screenY : R) (cameraMatrix cameraPose : Mat)
    : Point3f :=
  let fx := M.at_ cameraMatrix 0 0 in
  let fy := M.at_ cameraMatrix 1 1 in
  let cx := M.at_ cameraMatrix 0 2 in
  let cy := M.at_ cameraMatrix 1 2 in
  let nx := (screenX - cx) / fx in
  let ny := (screenY - cy) / fy in
  let R := M.rect 0 0 3 3 cameraPose in
  let rayLocal : Mat := [[nx]; [ny]; [1]] in
  let rayWorld := M.mul R rayLocal in
  let rayDir := mkPoint3f (M.at_ rayWorld 0 0) (M.at_ rayWorld 1 0)
                          (M.at_ rayWorld 2 0) in
  P3.divide rayDir (P3.norm rayDir).

(** [PlaneDetector::hitTest]: [Some (hitPoint, planeId)] on [true];
    on [false] the two output arguments are not written. *)
Definition hitTest (pd : t) (screenX screenY : R)
    (cameraMatrix cameraPose : Mat) : option (Point3f * Z) :=
  match planes pd with
  | [] => None
  | _ =>
    snd (fold_left (hitTestStep (cameraPosOf cameraPose)
                                (rayDirOf screenX screenY cameraMatrix
                                          cameraPose))
                   (planes pd) (FLT_MAX, None))
  end.
End PlaneDetector.


(** ** image_target.h / image_target.cpp *)

Module ImageTargetTracker.
Local Open Scope R_scope.

(** [struct ImageTarget]. *)
Record ImageTarget := mkImageTarget
  { id : Z;
    name : string;
    image : Image;
    keypoints : list KeyPoint;
    descriptors : Descriptors;
    widthMeters : R;
    heightMeters : R }.

(** [struct DetectedTarget]. *)
Record DetectedTarget := mkDetectedTarget
  { targetId : Z;
    dname : string;
    pose : Mat;
    corners : list Point2f;
    confidence : R;
    isTracking : bool }.

(** The data members of [class ImageTargetTracker]; its ORB detector keeps
    1000 features and its matcher does not cross-check. *)
Record t := mkImageTargetTracker
  { targets : list ImageTarget;
    detectedTargets : list DetectedTarget;
    nextTargetId : Z }.

Definition MIN_MATCHES : nat := 15.
Definition GOOD_MATCH_RATIO : R := 75 / 100.

(** [ImageTargetTracker::ImageTargetTracker()]. *)
Definition new : t := mkImageTargetTracker [] [] 0.

Definition getTargetCount (tr : t) : nat := length (targets tr).
Definition getDetectedTargets (tr : t) : list DetectedTarget :=
  detectedTargets tr.

Section WithOpenCV.
Variable cv : OpenCV.

(** [ImageTargetTracker::extractFeatures]. *)
Definition extractFeatures (im : Image) : list KeyPoint * Descriptors :=
  orb_detectAndCompute cv 1000 im.

(** [ImageTargetTracker::addTarget]: the returned id (or [-1]) and the
    tracker. *)
Definition addTarget (tr : t) (im : Image) (nm : string)
    (widthM heightM : R) : Z * t :=
  if Image_empty im then ((-1)%Z, tr)
  else
    let tid := nextTargetId tr in
    let tr1 := mkImageTargetTracker (targets tr) (detectedTargets tr)
                                    (nextTargetId tr + 1) in
    let hM := if decide (heightM <= 0)
              then widthM * IZR (rows im) / IZR (cols im) else heightM in
    let gray :=
      if (channels im =? 3)%Z then cvtColor cv im COLOR_BGR2GRAY
      else if (channels im =? 4)%Z then cvtColor cv im COLOR_BGRA2GRAY
      else im in
    let '(kps, descs) := extractFeatures gray in
    if (length kps <? MIN_MATCHES)%nat then ((-1)%Z, tr1)
    else
      let target := mkImageTarget tid nm gray kps descs widthM hM in
      (tid, mkImageTargetTracker (targets tr1 ++ [target])
                                 (detectedTargets tr1) (nextTargetId tr1)).

(** Lowe's ratio test of [detectTargets] on the [knnMatch] result. *)
Definition ratioTest (knnMatches : list (list DMatch)) : list DMatch :=
  flat_map
    (fun knn =>
       match knn with
       | m0 :: m1 :: _ =>
         if decide (distance m0 < GOOD_MATCH_RATIO * distance m1)
         then [m0] else []
       | _ => []
       end)
    knnMatches.

(** [objectPoints] of [computePose]: the template pixels on the metric
    plane [z = 0], the origin at the centre. *)
Definition objectPointsOf (target : ImageTarget) (srcPoints : list Point2f)
    : list Point3f :=
  map (fun p =>
         mkPoint3f
           ((p2x p / IZR (cols (image target)) - 1 / 2) * widthMeters target)
           ((p2y p / IZR (rows (image target)) - 1 / 2) * heightMeters target)
           0)
      srcPoints.

(** [ImageTargetTracker::computePose]: [Some pose] on [true]. *)
Definition computePose (target : ImageTarget)
    (srcPoints dstPoints : list Point2f) (cameraMatrix : Mat) : option Mat :=
  let objectPoints := objectPointsOf target srcPoints in
  let distCoeffs : Mat := [[0]; [0]; [0]; [0]] in
  match solvePnPRansac cv objectPoints dstPoints cameraMatrix distCoeffs
                       100 8 (99 / 100) with
  | None => None
  | Some (rvec, tvec) => Some (M.poseOf (Rodrigues cv rvec) tvec)
  end.

(** The intermediate values of one turn of the loop of [detectTargets],
    for one target. *)
Definition goodMatchesOf (target : ImageTarget) (frameDescriptors : Descriptors)
    : list DMatch :=
  ratioTest (bf_knnMatch cv false (descriptors target) frameDescriptors 2).

Definition srcPointsOf (target : ImageTarget) (good : list DMatch)
    : list Point2f :=
  map (fun m => pt (vat KeyPoint_dflt (keypoints target) (queryIdx m))) good.

Definition dstPointsOf (frameKeypoints : list KeyPoint) (good : list DMatch)
    : list Point2f :=
  map (fun m => pt (vat KeyPoint_dflt frameKeypoints (trainIdx m))) good.

Definition targetCornersOf (target : ImageTarget) : list Point2f :=
  [ mkPoint2f 0 0;
    mkPoint2f (IZR (cols (image target))) 0;
    mkPoint2f (IZR (cols (image target))) (IZR (rows (image target)));
    mkPoint2f 0 (IZR (rows (image target))) ].

(** One turn of the loop of [detectTargets]: [Some detected] when the turn
    reaches [detectedTargets.push_back(detected)], [None] on [continue] and
    when [computePose] fails. *)
Definition detectOne (frameKeypoints : list KeyPoint)
    (frameDescriptors : Descriptors) (cameraMatrix : Mat)
    (target : ImageTarget) : option DetectedTarget :=
  if Descriptors_empty (descriptors target) then None
  else
    let goodMatches := goodMatchesOf target frameDescriptors in
    if (length goodMatches <? MIN_MATCHES)%nat then None
    else
      let srcPoints := srcPointsOf target goodMatches in
      let dstPoints := dstPointsOf frameKeypoints goodMatches in
      let '(H, mask) := findHomography cv srcPoints dstPoints 5 in
      if Mat_empty H then None
      else
        let inliers := countNonZero mask in
        if (inliers <? MIN_MATCHES)%nat then None
        else
          let projectedCorners :=
            perspectiveTransform cv (targetCornersOf target) H in
          if negb (isContourConvex cv projectedCorners) then None
          else
            match computePose target srcPoints dstPoints cameraMatrix with
            | None => None
            | Some p =>
              Some (mkDetectedTarget (id target) (name target) p
                      projectedCorners
                      (INR inliers / INR (length goodMatches)) true)
            end.

(** [ImageTargetTracker::detectTargets]. *)
Definition detectTargets (tr : t) (frame : Image) (cameraMatrix : Mat)
    : bool * t :=
  let tr0 := mkImageTargetTracker (targets tr) [] (nextTargetId tr) in
  if (match targets tr with [] => true | _ => false end)
     || Image_empty frame then (false, tr0)
  else
    let '(frameKeypoints, frameDescriptors) := extractFeatures frame in
    if (length frameKeypoints <? MIN_MATCHES)%nat then (false, tr0)
    else
      let found :=
        omap (detectOne frameKeypoints frameDescriptors cameraMatrix)
             (targets tr) in
      (negb (match found with [] => true | _ => false end),
       mkImageTargetTracker (targets tr) found (nextTargetId tr)).
End WithOpenCV.

(** [ImageTargetTracker::removeTarget]: [std::remove_if] and [erase]. *)
Definition removeTarget (tr : t) (targetId : Z) : t :=
  mkImageTargetTracker (filter (fun t => id t <> targetId) (targets tr))
                       (detectedTargets tr) (nextTargetId tr).

(** [ImageTargetTracker::clearTargets]. *)
Definition clearTargets (tr : t) : t := mkImageTargetTracker [] [] 0.
End ImageTargetTracker.


(** ** map_point.h *)

(** [class MapPoint]. *)
Record MapPoint := mkMapPoint
  { mp_id : Z;
    worldPos : Point3f;
    descriptor : Descriptor;
    observations : list Z;
    matchCount : Z;
    isBad : bool }.

(** The constructor [MapPoint(_id, pos, desc)]. *)
Definition MapPoint_new (i : Z) (pos : Point3f) (desc : Descriptor) : MapPoint :=
  mkMapPoint i pos desc [] 1 false.

(** [MapPoint::addObservation]. *)
Definition addObservation (mp : MapPoint) (keyframeId : Z) : MapPoint :=
  mkMapPoint (mp_id mp) (worldPos mp) (descriptor mp)
             (observations mp ++ [keyframeId]) (matchCount mp + 1) (isBad mp).

(** [class KeyFrame]. *)
Record KeyFrame := mkKeyFrame
  { kf_id : Z;
    kf_image : Image;
    kf_pose : Mat;
    kf_keypoints : list KeyPoint;
    kf_descriptors : Descriptors;
    mapPointIds : list Z }.

(** The constructor [KeyFrame(_id, img, _pose, kps, descs)]. *)
Definition KeyFrame_new (i : Z) (img : Image) (p : Mat)
    (kps : list KeyPoint) (descs : Descriptors) : KeyFrame :=
  mkKeyFrame i img p kps descs (replicate (length kps) (-1)%Z).

Definition set_mapPointIds (kf : KeyFrame) (ids : list Z) : KeyFrame :=
  mkKeyFrame (kf_id kf) (kf_image kf) (kf_pose kf) (kf_keypoints kf)
             (kf_descriptors kf) ids.

(** [std::map<int, V>]: a finite map, traversed by increasing key. *)
Definition key_le {V} (a b : Z * V) : Prop := (a.1 <= b.1)%Z.
#[global] Instance key_le_dec {V} (a b : Z * V) : Decision (key_le a b) :=
  Z_le_dec a.1 b.1.
Definition inKeyOrder {V} (m : gmap Z V) : list (Z * V) :=
  merge_sort key_le (map_to_list m).


(** ** slam_system.h / slam_system.cpp *)

Module SLAMSystem.

(** The data members of [class SLAMSystem].  The ORB detector keeps 2000
    features and the matcher is a cross-checking Hamming matcher; both are
    fixed by the constructor. *)
Record t := mkSLAMSystem
  { planeDetector : PlaneDetector.t;
    imageTargetTracker : ImageTargetTracker.t;
    K : Mat;
    distCoeffs : Mat;
    currentPose : Mat;
    mapPoints : gmap Z MapPoint;
    keyframes : list KeyFrame;
    prevFrame : Image;
    prevKeypoints : list KeyPoint;
    prevDescriptors : Descriptors;
    initialized : bool;
    tracking : bool;
    frameCount : Z;
    nextMapPointId : Z;
    nextKeyFrameId : Z }.

Definition MIN_INIT_MATCHES : nat := 100.
Definition MIN_TRACKING_MATCHES : nat := 20.
Definition KEYFRAME_INTERVAL : Z := 15.
Definition KEYFRAME_TRANSLATION : R := (1 / 10)%R.

(** [SLAMSystem::SLAMSystem()]. *)
Definition new : t :=
  mkSLAMSystem PlaneDetector.new ImageTargetTracker.new
    [[500; 0; 320]; [0; 500; 240]; [0; 0; 1]]%R
    [[0]; [0]; [0]; [0]]%R
    (M.eye 4) ∅ [] (mkImage 0 0 1 []) [] []
    false false 0 0 0.

(** Assignments to single data members. *)
Definition set_planeDetector (v : PlaneDetector.t) (s : t) : t :=
  mkSLAMSystem v (imageTargetTracker s) (K s) (distCoeffs s)
    (currentPose s) (mapPoints s) (keyframes s) (prevFrame s)
    (prevKeypoints s) (prevDescriptors s) (initialized s) (tracking s)
    (frameCount s) (nextMapPointId s) (nextKeyFrameId s).
Definition set_imageTargetTracker (v : ImageTargetTracker.t) (s : t) : t :=
  mkSLAMSystem (planeDetector s) v (K s) (distCoeffs s)
    (currentPose s) (mapPoints s) (keyframes s) (prevFrame s)
    (prevKeypoints s) (prevDescriptors s) (initialized s) (tracking s)
    (frameCount s) (nextMapPointId s) (nextKeyFrameId s).
Definition set_currentPose (v : Mat) (s : t) : t :=
  mkSLAMSystem (planeDetector s) (imageTargetTracker s) (K s) (distCoeffs s)
    v (mapPoints s) (keyframes s) (prevFrame s)
    (prevKeypoints s) (prevDescriptors s) (initialized s) (tracking s)
    (frameCount s) (nextMapPointId s) (nextKeyFrameId s).
Definition set_mapPoints (v : gmap Z MapPoint) (s : t) : t :=
  mkSLAMSystem (planeDetector s) (imageTargetTracker s) (K s) (distCoeffs s)
    (currentPose s) v (keyframes s) (prevFrame s)
    (prevKeypoints s) (prevDescriptors s) (initialized s) (tracking s)
    (frameCount s) (nextMapPointId s) (nextKeyFrameId s).
Definition set_keyframes (v : list KeyFrame) (s : t) : t :=
  mkSLAMSystem (planeDetector s) (imageTargetTracker s) (K s) (distCoeffs s)
    (currentPose s) (mapPoints s) v (prevFrame s)
    (prevKeypoints s) (prevDescriptors s) (initialized s) (tracking s)
    (frameCount s) (nextMapPointId s) (nextKeyFrameId s).
Definition set_initialized (v : bool) (s : t) : t :=
  mkSLAMSystem (planeDetector s) (imageTargetTracker s) (K s) (distCoeffs s)
    (currentPose s) (mapPoints s) (keyframes s) (prevFrame s)
    (prevKeypoints s) (prevDescriptors s) v (tracking s)
    (frameCount s) (nextMapPointId s) (nextKeyFrameId s).
Definition set_tracking (v : bool) (s : t) : t :=
  mkSLAMSystem (planeDetector s) (imageTargetTracker s) (K s) (distCoeffs s)
    (currentPose s) (mapPoints s) (keyframes s) (prevFrame s)
    (prevKeypoints s) (prevDescriptors s) (initialized s) v
    (frameCount s) (nextMapPointId s) (nextKeyFrameId s).
Definition set_frameCount (v : Z) (s : t) : t :=
  mkSLAMSystem (planeDetector s) (imageTargetTracker s) (K s) (distCoeffs s)
    (currentPose s) (mapPoints s) (keyframes s) (prevFrame s)
    (prevKeypoints s) (prevDescriptors s) (initialized s) (tracking s)
    v (nextMapPointId s) (nextKeyFrameId s).
Definition set_nextMapPointId (v : Z) (s : t) : t :=
  mkSLAMSystem (planeDetector s) (imageTargetTracker s) (K s) (distCoeffs s)
    (currentPose s) (mapPoints s) (keyframes s) (prevFrame s)
    (prevKeypoints s) (prevDescriptors s) (initialized s) (tracking s)
    (frameCount s) v (nextKeyFrameId s).
Definition set_nextKeyFrameId (v : Z) (s : t) : t :=
  mkSLAMSystem (planeDetector s) (imageTargetTracker s) (K s) (distCoeffs s)
    (currentPose s) (mapPoints s) (keyframes s) (prevFrame s)
    (prevKeypoints s) (prevDescriptors s) (initialized s) (tracking s)
    (frameCount s) (nextMapPointId s) v.

(** The three assignments [prevFrame = frame.clone(); prevKeypoints =
    keypoints; prevDescriptors = descriptors.clone();]. *)
Definition cachePrev (frame : Image) (keypoints : list KeyPoint)
    (descriptors : Descriptors) (s : t) : t :=
  mkSLAMSystem (planeDetector s) (imageTargetTracker s) (K s) (distCoeffs s)
    (currentPose s) (mapPoints s) (keyframes s) frame
    keypoints descriptors (initialized s) (tracking s)
    (frameCount s) (nextMapPointId s) (nextKeyFrameId s).

(** [SLAMSystem::localBundleAdjustment]: a log line. *)
Definition localBundleAdjustment (s : t) : t := s.

Definition getCameraPose (s : t) : Mat := currentPose s.
Definition getMapPointCount (s : t) : Z := Z.of_nat (size (mapPoints s)).
Definition getKeyFrameCount (s : t) : Z := Z.of_nat (length (keyframes s)).
Definition isInitialized (s : t) : bool := initialized s.
Definition isTracking (s : t) : bool := tracking s.
Definition getDetectedPlanes (s : t) : list PlaneDetector.DetectedPlane :=
  PlaneDetector.getDetectedPlanes (planeDetector s).

(** The translation column [pose(cv::Rect(3, 0, 1, 3))]. *)
Definition translationOf (pose : Mat) : Mat := M.rect 3 0 1 3 pose.

(** [dist] of [needNewKeyFrame]: [cv::norm(t2 - t1)] for the translation
    columns [t1] of [lastPose] and [t2] of [currentPose]. *)
Definition translationDistance (lastPose current : Mat) : R :=
  M.norm (M.sub (translationOf current) (translationOf lastPose)).

(** [SLAMSystem::needNewKeyFrame]. *)
Definition needNewKeyFrame (s : t) : bool :=
  match last (keyframes s) with
  | None => true
  | Some back =>
    if negb (Z.rem (frameCount s) KEYFRAME_INTERVAL =? 0)%Z then false
    else bool_decide
           (translationDistance (kf_pose back) (currentPose s)
            > KEYFRAME_TRANSLATION)%R
  end.

Section WithOpenCV.
Variable cv : OpenCV.

(** [SLAMSystem::extractFeatures]. *)
Definition extractFeatures (frame : Image) : list KeyPoint * Descriptors :=
  orb_detectAndCompute cv 2000 frame.

(** [matcher->match(a, b, matches)] behind the guard
    [!a.empty() && !b.empty()]. *)
Definition matchGuarded (a b : Descriptors) : list DMatch :=
  if negb (Descriptors_empty a) && negb (Descriptors_empty b)
  then bf_match cv true a b else [].

(** The locals of the loop of [triangulateNewPoints] that the loop
    writes: the two keyframes, [mapPoints] and [nextMapPointId]. *)
Record Tri := mkTri
  { tri_kf1 : KeyFrame; tri_kf2 : KeyFrame;
    tri_mapPoints : gmap Z MapPoint; tri_nextId : Z }.

(** The point [worldPt] the loop body computes from [pts4D]. *)
Definition worldPtOf (pts4D : Mat) : Point3f :=
  let w := M.at_ pts4D 3 0 in
  mkPoint3f (M.at_ pts4D 0 0 / w) (M.at_ pts4D 1 0 / w) (M.at_ pts4D 2 0 / w)%R.

(** [pts4D] for the match [m] of the keyframes [kf1], [kf2]. *)
Definition pts4DOf (P1 P2 : Mat) (kf1 kf2 : KeyFrame) (m : DMatch) : Mat :=
  let pt1 := pt (vat KeyPoint_dflt (kf_keypoints kf1) (queryIdx m)) in
  let pt2 := pt (vat KeyPoint_dflt (kf_keypoints kf2) (trainIdx m)) in
  triangulatePoints cv P1 P2 [pt1] [pt2].

(** The map point the loop body makes for the match [m]. *)
Definition newMapPoint (s : Tri) (worldPt : Point3f) (m : DMatch) : MapPoint :=
  addObservation
    (addObservation
       (MapPoint_new (tri_nextId s) worldPt
          (vat [] (kf_descriptors (tri_kf1 s)) (queryIdx m)))
       (kf_id (tri_kf1 s)))
    (kf_id (tri_kf2 s)).

(** One turn of the loop of [triangulateNewPoints]. *)
Definition triangulateStep (P1 P2 : Mat) (s : Tri) (m : DMatch) : Tri :=
  if decide (distance m > 50)%R then s
  else if (0 <=? vat (-1) (mapPointIds (tri_kf1 s)) (queryIdx m))%Z then s
  else
    let pts4D := pts4DOf P1 P2 (tri_kf1 s) (tri_kf2 s) m in
    let w := M.at_ pts4D 3 0 in
    if decide (Rabs w < 1 / 1000000)%R then s
    else
      let worldPt := worldPtOf pts4D in
      if decide (pz worldPt < 0)%R then s
      else
        let mp := newMapPoint s worldPt m in
        mkTri
          (set_mapPointIds (tri_kf1 s)
             (<[Z.to_nat (queryIdx m) := mp_id mp]> (mapPointIds (tri_kf1 s))))
          (set_mapPointIds (tri_kf2 s)
             (<[Z.to_nat (trainIdx m) := mp_id mp]> (mapPointIds (tri_kf2 s))))
          (<[mp_id mp := mp]> (tri_mapPoints s))
          (tri_nextId s + 1).

(** The projection matrix [K * pose(cv::Rect(0, 0, 4, 3))]. *)
Definition projectionOf (s : t) (kf : KeyFrame) : Mat :=
  M.mul (K s) (M.rect 0 0 4 3 (kf_pose kf)).

(** [SLAMSystem::triangulateNewPoints(kf1, kf2)]: the system and the two
    keyframes as the call leaves them. *)
Definition triangulateNewPoints (s : t) (kf1 kf2 : KeyFrame)
    : t * KeyFrame * KeyFrame :=
  let matches := matchGuarded (kf_descriptors kf1) (kf_descriptors kf2) in
  let P1 := projectionOf s kf1 in
  let P2 := projectionOf s kf2 in
  let r := fold_left (triangulateStep P1 P2) matches
                     (mkTri kf1 kf2 (mapPoints s) (nextMapPointId s)) in
  (set_nextMapPointId (tri_nextId r) (set_mapPoints (tri_mapPoints r) s),
   tri_kf1 r, tri_kf2 r).

(** [goodCount] of [detectLoopClosure] for the keyframe [kf]. *)
Definition goodCount (kf currentKF : KeyFrame) : Z :=
  let matches := matchGuarded (kf_descriptors kf) (kf_descriptors currentKF) in
  Z.of_nat (length (filter (fun m => distance m < 40)%R matches)).

(** The keyframes [keyframes[i]] with [i < keyframes.size() - 5], each
    with its index.  [detectLoopClosure] is called with more than ten
    keyframes only, so that the unsigned difference does not wrap. *)
Definition loopCandidates (s : t) : list (nat * KeyFrame) :=
  imap (fun i kf => (i, kf)) (take (length (keyframes s) - 5) (keyframes s)).

(** One turn of the loop of [detectLoopClosure] on the pair
    [(bestMatch, bestMatchCount)]. *)
Definition loopStep (currentKF : KeyFrame) (best : Z * Z)
    (c : nat * KeyFrame) : Z * Z :=
  let g := goodCount c.2 currentKF in
  if (best.2 <? g)%Z && (50 <? g)%Z then (Z.of_nat c.1, g) else best.

Definition bestLoopMatch (s : t) (currentKF : KeyFrame) : Z * Z :=
  fold_left (loopStep currentKF) (loopCandidates s) ((-1)%Z, 0%Z).

(** [SLAMSystem::detectLoopClosure]. *)
Definition detectLoopClosure (s : t) (currentKF : KeyFrame) : bool * t :=
  if (0 <=? (bestLoopMatch s currentKF).1)%Z
  then (true, localBundleAdjustment s)
  else (false, s).

(** The first part of [createKeyFrame]: the new keyframe is pushed and
    triangulated against the keyframe before it.  The keyframes are held
    by shared pointer: what [triangulateNewPoints] writes to its two
    arguments is written to the entries of [keyframes].  The result is the
    system and the new keyframe [*kf]. *)
Definition insertKeyFrame (s : t) (frame : Image) : t * KeyFrame :=
  let kf := KeyFrame_new (nextKeyFrameId s) frame (currentPose s)
                         (prevKeypoints s) (prevDescriptors s) in
  let s1 := set_keyframes (keyframes s ++ [kf])
              (set_nextKeyFrameId (nextKeyFrameId s + 1) s) in
  let n := length (keyframes s1) in
  if (2 <=? n)%nat then
    let '(s', prev', kf') :=
      triangulateNewPoints s1 (nth (n - 2) (keyframes s1) kf) kf in
    (set_keyframes
       (<[(n - 1)%nat := kf']> (<[(n - 2)%nat := prev']> (keyframes s')))
       s', kf')
  else (s1, kf).

(** [SLAMSystem::createKeyFrame]. *)
Definition createKeyFrame (s : t) (frame : Image) : t :=
  let '(s2, kf') := insertKeyFrame s frame in
  if (10 <? length (keyframes s2))%nat
  then snd (detectLoopClosure s2 kf') else s2.

(** [SLAMSystem::matchWithMap]. *)
Definition matchWithMap (s : t) (descriptors : Descriptors) : list DMatch :=
  if bool_decide (mapPoints s = ∅) || Descriptors_empty descriptors then []
  else
    let live := filter (fun kv => isBad kv.2 = false)
                       (inKeyOrder (mapPoints s)) in
    let mapDescriptors := map (fun kv => descriptor kv.2) live in
    let mapPointIdxs := map fst live in
    if Descriptors_empty mapDescriptors then []
    else
      let rawMatches := bf_match cv true mapDescriptors descriptors in
      flat_map
        (fun m =>
           if decide (distance m < 50)%R
           then [mkDMatch (vat 0%Z mapPointIdxs (queryIdx m)) (trainIdx m)
                          (distance m)]
           else [])
        rawMatches.

(** [SLAMSystem::estimatePosePnP]. *)
Definition estimatePosePnP (s : t) (worldPoints : list Point3f)
    (imagePoints : list Point2f) : bool * t :=
  if (length worldPoints <? 6)%nat then (false, s)
  else
    match solvePnPRansac cv worldPoints imagePoints (K s) (distCoeffs s)
                         100 8 (99 / 100)%R with
    | Some (rvec, tvec) =>
      (true, set_currentPose (M.poseOf (Rodrigues cv rvec) tvec) s)
    | None => (false, s)
    end.

(** [minDist] of [initialize]. *)
Definition minDistOf (matches : list DMatch) : R :=
  fold_left (fun minDist m =>
               if decide (distance m < minDist)%R then distance m else minDist)
            matches 100%R.

(** [goodMatches] of [initialize]. *)
Definition goodMatchesOf (matches : list DMatch) : list DMatch :=
  filter (fun m => distance m <= Rmax (2 * minDistOf matches) 30)%R matches.

Definition pts1Of (prevKps : list KeyPoint) (ms : list DMatch) : list Point2f :=
  map (fun m => pt (vat KeyPoint_dflt prevKps (queryIdx m))) ms.
Definition pts2Of (kps : list KeyPoint) (ms : list DMatch) : list Point2f :=
  map (fun m => pt (vat KeyPoint_dflt kps (trainIdx m))) ms.

(** [SLAMSystem::initialize]. *)
Definition initialize (s : t) (frame : Image) : bool * t :=
  let '(keypoints, descriptors) := extractFeatures frame in
  if (length keypoints <? MIN_INIT_MATCHES)%nat then (false, s)
  else if Image_empty (prevFrame s)
  then (true, cachePrev frame keypoints descriptors s)
  else
    let matches := matchGuarded (prevDescriptors s) descriptors in
    if (length matches <? MIN_INIT_MATCHES)%nat
    then (false, cachePrev frame keypoints descriptors s)
    else
      let goodMatches := goodMatchesOf matches in
      if (length goodMatches <? MIN_INIT_MATCHES / 2)%nat then (false, s)
      else
        let pts1 := pts1Of (prevKeypoints s) goodMatches in
        let pts2 := pts2Of keypoints goodMatches in
        let '(E, mask) :=
          findEssentialMat cv pts1 pts2 (K s) (999 / 1000)%R 1%R in
        if Mat_empty E then (false, s)
        else
          let '(inliers, R, tr, _) := recoverPose cv E pts1 pts2 (K s) mask in
          if (inliers <? 30)%Z then (false, s)
          else
            let pose1 := M.eye 4 in
            let kf1 := KeyFrame_new (nextKeyFrameId s) (prevFrame s) pose1
                                    (prevKeypoints s) (prevDescriptors s) in
            let pose2 := M.poseOf R tr in
            let kf2 := KeyFrame_new (nextKeyFrameId s + 1) frame pose2
                                    keypoints descriptors in
            let s1 := set_keyframes (keyframes s ++ [kf1; kf2])
                        (set_nextKeyFrameId (nextKeyFrameId s + 2) s) in
            let '(s2, kf1', kf2') := triangulateNewPoints s1 kf1 kf2 in
            let s3 := set_keyframes (keyframes s ++ [kf1'; kf2']) s2 in
            (true,
             set_tracking true
               (set_initialized true
                  (cachePrev frame keypoints descriptors
                     (set_currentPose pose2 s3)))).

(** The 3D-2D pairs [track] hands to [estimatePosePnP]. *)
Definition pnpPairs (s : t) (keypoints : list KeyPoint)
    (matches : list DMatch) : list (Point3f * Point2f) :=
  flat_map
    (fun m =>
       match mapPoints s !! queryIdx m with
       | Some mp =>
         if negb (isBad mp)
         then [(worldPos mp, pt (vat KeyPoint_dflt keypoints (trainIdx m)))]
         else []
       | None => []
       end)
    matches.

(** The pose estimation of [track], from the call of [matchWithMap] to the
    end of the [if]/[else]: [None] when [track] returns [false] from
    inside it (after [tracking = false]). *)
Definition trackPose (s : t) (keypoints : list KeyPoint)
    (descriptors : Descriptors) : option t :=
  let matches := matchWithMap s descriptors in
  if (length matches <? MIN_TRACKING_MATCHES)%nat then
    let frameMatches :=
      if negb (Descriptors_empty (prevDescriptors s))
      then bf_match cv true (prevDescriptors s) descriptors else [] in
    if (length frameMatches <? MIN_TRACKING_MATCHES)%nat then None
    else
      let pts1 := pts1Of (prevKeypoints s) frameMatches in
      let pts2 := pts2Of keypoints frameMatches in
      let '(E, mask) :=
        findEssentialMat cv pts1 pts2 (K s) (999 / 1000)%R 1%R in
      if negb (Mat_empty E) then
        let '(_, R, tr, _) := recoverPose cv E pts1 pts2 (K s) mask in
        let deltaPose := M.poseOf R tr in
        Some (set_tracking true
                (set_currentPose (M.mul (currentPose s) deltaPose) s))
      else Some s
  else
    let pairs := pnpPairs s keypoints matches in
    let worldPoints := map fst pairs in
    let imagePoints := map snd pairs in
    if (6 <=? length worldPoints)%nat then
      let '(ok, s') := estimatePosePnP s worldPoints imagePoints in
      Some (set_tracking ok s')
    else Some s.

(** The plane detection of [track]. *)
Definition trackPlanes (s : t) (frame : Image) (rd : nat -> nat -> nat) : t :=
  if (50 <=? size (mapPoints s))%nat && (Z.rem (frameCount s) 30 =? 0)%Z then
    let pts := map (fun kv => worldPos kv.2)
                   (filter (fun kv => isBad kv.2 = false)
                           (inKeyOrder (mapPoints s))) in
    set_planeDetector
      (snd (PlaneDetector.detectPlanes (planeDetector s) frame pts
                                       (currentPose s) rd)) s
  else s.

(** The image-target detection of [track]. *)
Definition trackTargets (s : t) (frame : Image) : t :=
  if (0 <? ImageTargetTracker.getTargetCount (imageTargetTracker s))%nat
     && (Z.rem (frameCount s) 5 =? 0)%Z
  then set_imageTargetTracker
         (snd (ImageTargetTracker.detectTargets cv (imageTargetTracker s)
                                                frame (K s))) s
  else s.

(** The keyframe decision of [track]. *)
Definition trackKeyFrame (s : t) (frame : Image) : t :=
  if tracking s && needNewKeyFrame s then createKeyFrame s frame else s.

(** [SLAMSystem::track]; [rd] gives the random draws of the plane
    detector. *)
Definition track (s : t) (frame : Image) (rd : nat -> nat -> nat) : bool * t :=
  let '(keypoints, descriptors) := extractFeatures frame in
  if (length keypoints <? MIN_TRACKING_MATCHES)%nat
  then (false, set_tracking false s)
  else
    match trackPose s keypoints descriptors with
    | None => (false, set_tracking false s)
    | Some s1 =>
      let s2 := trackKeyFrame s1 frame in
      let s3 := trackPlanes s2 frame rd in
      let s4 := trackTargets s3 frame in
      let s5 := cachePrev frame keypoints descriptors s4 in
      (tracking s5, s5)
    end.

(** [SLAMSystem::processFrame]. *)
Definition processFrame (s : t) (frame : Image) (rd : nat -> nat -> nat)
    : bool * t :=
  let s' := set_frameCount (frameCount s + 1) s in
  if negb (initialized s') then initialize s' frame else track s' frame rd.

(** [SLAMSystem::getViewMatrix]. *)
Definition getViewMatrix (s : t) : Mat := inv cv (currentPose s).

(** [SLAMSystem::addImageTarget]. *)
Definition addImageTarget (s : t) (im : Image) (nm : string) (widthM : R)
    : Z * t :=
  let '(i, tr) :=
    ImageTargetTracker.addTarget cv (imageTargetTracker s) im nm widthM 0 in
  (i, set_imageTargetTracker tr s).

End WithOpenCV.
End SLAMSystem.

(** ** ar_tracker.cpp and bindings.cpp *)

Module Bindings.

(** [matToArray]: the entries pushed row by row. *)
Definition matToArray (mat : Mat) : list R :=
  flat_map (fun i => map (fun j => M.at_ mat i j) (seq 0 (M.ncols mat)))
           (seq 0 (M.nrows mat)).

(** [ARTrackerWrapper::getViewMatrix], through [ARTracker::getViewMatrix]. *)
Definition getViewMatrix (cv : OpenCV) (s : SLAMSystem.t) : list R :=
  matToArray (SLAMSystem.getViewMatrix cv s).

(** [ARTrackerWrapper::processFrame] after the conversion of the RGBA
    buffer to the grayscale [frame]. *)
Definition processFrame (cv : OpenCV) (s : SLAMSystem.t) (frame : Image)
    (rd : nat -> nat -> nat) : bool * SLAMSystem.t :=
  SLAMSystem.processFrame cv s frame rd.

(** The 4 x 4 matrix a flat array of sixteen numbers denotes when it is
    read row by row, and when it is read column by column. *)
Definition ofRowMajor (a : list R) : Mat :=
  map (fun i => map (fun j => nth (4 * i + j) a 0%R) (seq 0 4)) (seq 0 4).
Definition ofColumnMajor (a : list R) : Mat :=
  map (fun i => map (fun j => nth (4 * j + i) a 0%R) (seq 0 4)) (seq 0 4).

End Bindings.

(** * Vocabulary of the properties *)

Section PlaneVocabulary.
Import PlaneDetector.
Local Open Scope R_scope.

(** The merge condition of the specification for an existing plane [e] and
    a new plane [p]. *)
Definition mergeCondition (e p : DetectedPlane) : Prop :=
  isHorizontal e = isHorizontal p /\
  Rabs (P3.dot (normal e) (normal p)) >= 95 / 100 /\
  P3.norm (P3.sub (center e) (center p)) < 1 / 10.

(** A normal as the specification wants it: not pointing down, and of
    unit length up to 1e-4. *)
Definition goodNormal (n : Point3f) : Prop :=
  0 <= py n /\ Rabs (P3.norm n - 1) <= 1 / 10000.

Definition unitUp (n : Point3f) : Prop := 0 <= py n /\ P3.norm n = 1.

(** What the RANSAC loop keeps true of its best candidate. *)
Definition bestUnit (b : Best) : Prop :=
  (0 < bestInlierCount b)%nat -> P3.norm (bestNormal b) = 1.

Definition planesGood (pd : PlaneDetector.t) : Prop :=
  Forall (fun p => unitUp (normal p)) (planes pd).

(** The arguments of one call of [detectPlanes], with the random draws it
    consumes. *)
Record DetectCall := mkDetectCall
  { dc_frame : Image; dc_points : list Point3f; dc_pose : Mat;
    dc_draws : nat -> nat -> nat }.

(** The detector after a sequence of calls of [detectPlanes]. *)
Definition detectAll (pd : PlaneDetector.t) (calls : list DetectCall)
    : PlaneDetector.t :=
  fold_left (fun pd c => snd (detectPlanes pd (dc_frame c) (dc_points c)
                                           (dc_pose c) (dc_draws c)))
            calls pd.

End PlaneVocabulary.

(** A call of the embedding interface that changes the tracker: a frame
    with the random draws its plane detection consumes, or the
    registration of an image target. *)
Inductive Call :=
| Frame (frame : Image) (rd : nat -> nat -> nat)
| AddTarget (im : Image) (nm : string) (widthM : R).

Definition step (cv : OpenCV) (s : SLAMSystem.t) (c : Call) : SLAMSystem.t :=
  match c with
  | Frame frame rd => snd (SLAMSystem.processFrame cv s frame rd)
  | AddTarget im nm widthM => snd (SLAMSystem.addImageTarget cv s im nm widthM)
  end.

(** The tracker after a sequence of calls on a fresh instance. *)
Definition run (cv : OpenCV) (calls : list Call) : SLAMSystem.t :=
  fold_left (step cv) calls SLAMSystem.new.

(** Every map point has an id below the next one to be given, and is not
    marked bad. *)
Definition mapFresh (m : gmap Z MapPoint) (next : Z) : Prop :=
  map_Forall (fun i mp => (i < next)%Z /\ isBad mp = false) m.

Section SlamVocabulary.
Import SLAMSystem.

(** The data members a call leaves as they are. *)
Definition sameButMap (s s' : t) : Prop :=
  currentPose s' = currentPose s /\ tracking s' = tracking s /\
  initialized s' = initialized s /\ frameCount s' = frameCount s /\
  imageTargetTracker s' = imageTargetTracker s.

(** The data members the pose estimation of [track] leaves as they are,
    and those the map building leaves as they are. *)
Definition mapCore (s : t) :=
  (mapPoints s, nextMapPointId s, keyframes s, frameCount s, initialized s).
Definition poseCore (s : t) := (currentPose s, tracking s).

(** The keyframe decision [track] takes, read off the state it leaves:
    [tracking && needNewKeyFrame()] at the time of the test. *)
Definition keyframeDecision (s s' : t) : bool :=
  tracking s' && needNewKeyFrame (set_currentPose (currentPose s') s).

(** What holds of the tracker after every sequence of calls. *)
Definition wellFormed (s : t) : Prop :=
  mapFresh (mapPoints s) (nextMapPointId s) /\
  (initialized s = true -> keyframes s <> []).

End SlamVocabulary.

Section HitVocabulary.
Import HitTester.
Local Open Scope R_scope.

(** A plane whose normal has length 1. *)
Definition unitPlane (p : Plane3D) : Prop :=
  nx p * nx p + ny p * ny p + nz p * nz p = 1.

(** A point on a plane. *)
Definition onPlane (p : Plane3D) (q : Point3f) : Prop :=
  signedDistance p (px q) (py q) (pz q) = 0.

(** A call that changes a hit tester. *)
Inductive HitCall :=
| SetDefault
| Estimate (points : option (list R)) (pointCount : Z) (dis : nat -> nat)
           (uninit : Plane3D).

Definition hitStep (h : HitTester.t) (c : HitCall) : HitTester.t :=
  match c with
  | SetDefault => setDefaultGroundPlane h
  | Estimate points pointCount dis uninit =>
    snd (estimateGroundPlane h points pointCount dis uninit)
  end.

(** The hit tester after a sequence of calls on a fresh instance. *)
Definition hitRun (calls : list HitCall) : HitTester.t :=
  fold_left hitStep calls HitTester.new.

(** The settings of a hit tester. *)
Definition settings (h : HitTester.t) : Z * R * Z * R :=
  (ransacIterations h, ransacThreshold h, minInliers h, horizontalThreshold h).

(** What the RANSAC loop of the hit tester keeps true of
    [(bestInlierCount, bestPlane)] after the turns [seen]: the plane is
    the one computed from the three points drawn in one of these turns. *)
Definition bestOk (h : HitTester.t) (points : list Point3f)
    (dis : nat -> nat) (seen : list nat) (best : Z * Plane3D) : Prop :=
  (0 <= best.1)%Z /\
  ((0 < best.1)%Z ->
   unitPlane best.2 /\ best.1 = inlierCountOf h points best.2 /\
   exists iter,
     iter ∈ seen /\
     dis (3 * iter)%nat <> dis (3 * iter + 1)%nat /\
     dis (3 * iter + 1)%nat <> dis (3 * iter + 2)%nat /\
     dis (3 * iter)%nat <> dis (3 * iter + 2)%nat /\
     computePlaneFromPoints (pt3 points (dis (3 * iter)%nat))
                            (pt3 points (dis (3 * iter + 1)%nat))
                            (pt3 points (dis (3 * iter + 2)%nat))
     = Some best.2).

End HitVocabulary.

Section PlaneVocabularyMore.
Import PlaneDetector.
Local Open Scope R_scope.

(** The fields of a stored plane are in range. *)
Definition planeShape (p : DetectedPlane) : Prop :=
  0 < confidence p <= 1 /\ 0 <= width p /\ 0 <= height p /\
  length (corners p) = 4%nat.

(** The planes are numbered by their position. *)
Definition planesIndexed (pd : PlaneDetector.t) : Prop :=
  (forall i p, planes pd !! i = Some p -> id p = Z.of_nat i) /\
  nextPlaneId pd = Z.of_nat (length (planes pd)).

(** What a later detection keeps of a stored plane [p], now [p']. *)
Definition planeKept (p p' : DetectedPlane) : Prop :=
  id p' = id p /\ normal p' = normal p /\
  isHorizontal p' = isHorizontal p /\ corners p' = corners p /\
  width p <= width p' /\ height p <= height p' /\
  confidence p <= confidence p'.

(** Three different indices drawn in the turn [iter], at which the
    points lie on the plane [n . P + d = 0]. *)
Definition drawnOn (points : list Point3f) (dis : nat -> nat) (iter : nat)
    (n : Point3f) (d : R) : Prop :=
  dis (3 * iter)%nat <> dis (3 * iter + 1)%nat /\
  dis (3 * iter + 1)%nat <> dis (3 * iter + 2)%nat /\
  dis (3 * iter)%nat <> dis (3 * iter + 2)%nat /\
  P3.dot n (at3 points (dis (3 * iter)%nat)) + d = 0 /\
  P3.dot n (at3 points (dis (3 * iter + 1)%nat)) + d = 0 /\
  P3.dot n (at3 points (dis (3 * iter + 2)%nat)) + d = 0.

(** What the RANSAC loop of the plane detector keeps true of its best
    candidate after the turns [seen]: the count and the inliers are those
    of the candidate plane, which passes through the three points drawn
    in one of these turns. *)
Definition bestConsistent (points : list Point3f) (dis : nat -> nat)
    (seen : list nat) (b : Best) : Prop :=
  bestInlierCount b = length (bestInliers b) /\
  ((0 < bestInlierCount b)%nat ->
   bestInliers b = collectInliers points (bestNormal b) (bestD b) /\
   exists iter,
     iter ∈ seen /\ drawnOn points dis iter (bestNormal b) (bestD b)).

(** The ray from [cameraPos] along [rayDir] meets the plane at the
    parameter [t], in front of the camera and within the bounds
    [hitTest] accepts. *)
Definition planeHit (cameraPos rayDir : Point3f) (plane : DetectedPlane)
    (t : R) : Prop :=
  ~ Rabs (P3.dot rayDir (normal plane)) < 1 / 1000000 /\
  t = P3.dot (P3.sub (center plane) cameraPos) (normal plane)
      / P3.dot rayDir (normal plane) /\
  0 <= t /\
  P3.norm (P3.sub (P3.add cameraPos (P3.scale rayDir t)) (center plane))
  < Rmax (width plane) (height plane) * (6 / 10).

(** What holds of a plane detector after every sequence of calls. *)
Definition planesSane (pd : PlaneDetector.t) : Prop :=
  planesIndexed pd /\ Forall planeShape (planes pd).

(** The planes of [pd] are still planes of [pd'], at their positions. *)
Definition planesKept (pd pd' : PlaneDetector.t) : Prop :=
  forall i p, planes pd !! i = Some p ->
              exists p', planes pd' !! i = Some p' /\ planeKept p p'.

(** What the loop of [hitTest] keeps true of [(minDist, found)] for the
    planes [seen] so far. *)
Definition hitLoopOk (cameraPos rayDir : Point3f) (seen : list DetectedPlane)
    (st : R * option (Point3f * Z)) : Prop :=
  (forall plane t, plane ∈ seen -> planeHit cameraPos rayDir plane t ->
                   st.1 <= t) /\
  match st.2 with
  | None => st.1 = FLT_MAX
  | Some (q, i) =>
    exists plane,
      plane ∈ seen /\ planeHit cameraPos rayDir plane st.1 /\
      st.1 < FLT_MAX /\ q = P3.add cameraPos (P3.scale rayDir st.1) /\
      i = id plane
  end.
End PlaneVocabularyMore.

Section TargetVocabulary.
Import ImageTargetTracker.
Local Open Scope R_scope.

(** A call that changes an image-target tracker. *)
Inductive TargetCall :=
| TAdd (im : Image) (nm : string) (widthM heightM : R)
| TRemove (targetId : Z)
| TClear
| TDetect (frame : Image) (cameraMatrix : Mat).

Definition targetStep (cv : OpenCV) (tr : ImageTargetTracker.t)
    (c : TargetCall) : ImageTargetTracker.t :=
  match c with
  | TAdd im nm widthM heightM => snd (addTarget cv tr im nm widthM heightM)
  | TRemove targetId => removeTarget tr targetId
  | TClear => clearTargets tr
  | TDetect frame cameraMatrix => snd (detectTargets cv tr frame cameraMatrix)
  end.

(** The tracker after a sequence of calls on a fresh instance. *)
Definition targetRun (cv : OpenCV) (calls : list TargetCall)
    : ImageTargetTracker.t :=
  fold_left (targetStep cv) calls ImageTargetTracker.new.

(** A registered target as [addTarget] makes it. *)
Definition targetOk (cv : OpenCV) (next : Z) (t : ImageTarget) : Prop :=
  (0 <= id t < next)%Z /\
  Image_empty (image t) = false /\
  extractFeatures cv (image t) = (keypoints t, descriptors t) /\
  (MIN_MATCHES <= length (keypoints t))%nat.

(** What holds of the registry after every sequence of calls: the ids
    grow along the list and lie below the next id. *)
Definition registryOk (cv : OpenCV) (tr : ImageTargetTracker.t) : Prop :=
  (0 <= nextTargetId tr)%Z /\
  StronglySorted Z.lt (map id (targets tr)) /\
  Forall (targetOk cv (nextTargetId tr)) (targets tr).

(** The image [addTarget] keeps of [im]: [im] converted to gray when it
    has three or four channels, [im] itself otherwise. *)
Definition grayOf (cv : OpenCV) (im : Image) : Image :=
  if decide (channels im = 3%Z) then cvtColor cv im COLOR_BGR2GRAY
  else if decide (channels im = 4%Z) then cvtColor cv im COLOR_BGRA2GRAY
  else im.

(** [heightMeters] as [addTarget] sets it. *)
Definition heightOf (im : Image) (widthM heightM : R) : R :=
  if decide (heightM <= 0) then widthM * IZR (rows im) / IZR (cols im)
  else heightM.
End TargetVocabulary.

Section SlamVocabularyMore.
Import SLAMSystem.
Local Open Scope Z_scope.

(** The members of a keyframe that are set once, by its constructor. *)
Definition kfCore (kf : KeyFrame) :=
  (kf_id kf, kf_image kf, kf_pose kf, kf_keypoints kf, kf_descriptors kf).

(** The map, the keyframes and the two id counters. *)
Definition buildCore (s : t) :=
  (mapPoints s, nextMapPointId s, keyframes s, nextKeyFrameId s).

(** A map point as triangulation makes it: stored under its id, seen
    from two consecutive keyframes. *)
Definition mapPointOk (nextKf i : Z) (mp : MapPoint) : Prop :=
  mp_id mp = i /\ isBad mp = false /\ matchCount mp = 3 /\
  exists a, observations mp = [a; a + 1] /\ 0 <= a /\ a + 1 < nextKf.

Definition mapOk (m : gmap Z MapPoint) (next nextKf : Z) : Prop :=
  Z.of_nat (size m) = next /\
  map_Forall (fun i mp => 0 <= i < next /\ mapPointOk nextKf i mp) m.

(** A link of a keyframe: none, or a map point that the keyframe
    observes. *)
Definition linkOk (m : gmap Z MapPoint) (kf : KeyFrame) (l : Z) : Prop :=
  l = -1 \/ exists mp, m !! l = Some mp /\ kf_id kf ∈ observations mp.

Definition linksOk (m : gmap Z MapPoint) (kf : KeyFrame) : Prop :=
  Forall (linkOk m kf) (mapPointIds kf) /\
  length (mapPointIds kf) = length (kf_keypoints kf).

Definition keyframesOk (m : gmap Z MapPoint) (kfs : list KeyFrame)
    (nextKf : Z) : Prop :=
  nextKf = Z.of_nat (length kfs) /\
  forall i kf, kfs !! i = Some kf -> kf_id kf = Z.of_nat i /\ linksOk m kf.

(** The map and the keyframes are consistent. *)
Definition built (s : t) : Prop :=
  mapOk (mapPoints s) (nextMapPointId s) (nextKeyFrameId s) /\
  keyframesOk (mapPoints s) (keyframes s) (nextKeyFrameId s).

(** What later calls keep of a keyframe [kf], now [kf']: the members its
    constructor set, and every link it has. *)
Definition kfKept (kf kf' : KeyFrame) : Prop :=
  kfCore kf' = kfCore kf /\
  length (mapPointIds kf') = length (mapPointIds kf) /\
  forall j l, mapPointIds kf !! j = Some l -> 0 <= l ->
              mapPointIds kf' !! j = Some l.

Definition keyframesKept (kfs kfs' : list KeyFrame) : Prop :=
  forall i kf, kfs !! i = Some kf ->
               exists kf', kfs' !! i = Some kf' /\ kfKept kf kf'.

(** What the loop of [triangulateNewPoints] keeps true of its locals,
    for keyframes of ids [a] and [a + 1]. *)
Definition triOk (nextKf a : Z) (r : Tri) : Prop :=
  kf_id (tri_kf1 r) = a /\ kf_id (tri_kf2 r) = a + 1 /\
  0 <= a /\ a + 1 < nextKf /\
  mapOk (tri_mapPoints r) (tri_nextId r) nextKf /\
  linksOk (tri_mapPoints r) (tri_kf1 r) /\
  linksOk (tri_mapPoints r) (tri_kf2 r).

Definition triKept (r r' : Tri) : Prop :=
  tri_mapPoints r ⊆ tri_mapPoints r' /\
  kfKept (tri_kf1 r) (tri_kf1 r') /\
  kfCore (tri_kf2 r') = kfCore (tri_kf2 r).

(** The two vision modules and the camera parameters. *)
Definition restCore (s : t) :=
  (planeDetector s, imageTargetTracker s, K s, distCoeffs s).

(** The tracker before it is initialised. *)
Definition startState (s : t) : Prop :=
  keyframes s = [] /\ mapPoints s = ∅ /\ tracking s = false /\
  nextMapPointId s = 0 /\ nextKeyFrameId s = 0 /\ currentPose s = M.eye 4.

(** What holds of the tracker after every sequence of calls. *)
Definition slamInv (s : t) : Prop :=
  built s /\
  (initialized s = false -> startState s) /\
  (initialized s = true ->
   (2 <= length (keyframes s))%nat /\
   exists kf0, keyframes s !! 0%nat = Some kf0 /\ kf_pose kf0 = M.eye 4) /\
  0 <= frameCount s /\
  Z.of_nat (length (keyframes s)) <= 2 + frameCount s / 15.

(** What holds of the two vision modules of the tracker after every
    sequence of calls; the height of an image target follows from its
    width and the shape of its image. *)
Definition modulesOk (cv : OpenCV) (s : t) : Prop :=
  planesSane (planeDetector s) /\ planesGood (planeDetector s) /\
  registryOk cv (imageTargetTracker s) /\
  Forall (fun t =>
            ImageTargetTracker.heightMeters t
            = (ImageTargetTracker.widthMeters t
               * IZR (rows (ImageTargetTracker.image t))
               / IZR (cols (ImageTargetTracker.image t)))%R)
         (ImageTargetTracker.targets (imageTargetTracker s)).

(** The map points [matchWithMap] matches against, each with its id, in
    the order of their rows in [mapDescriptors]. *)
Definition liveMapPoints (s : t) : list (Z * MapPoint) :=
  filter (fun kv => isBad kv.2 = false) (inKeyOrder (mapPoints s)).

(** The number of frames among some calls. *)
Definition frameCalls (calls : list Call) : nat :=
  fold_right (fun c n => match c with Frame _ _ => S n | _ => n end) 0%nat
             calls.
End SlamVocabularyMore.

Section PoseVocabulary.
Import SLAMSystem.

(** A 4 x 4 matrix. *)
Definition isPose (m : Mat) : Prop :=
  length m = 4%nat /\ Forall (fun row => length row = 4%nat) m.

(** The current pose and the poses of the keyframes are 4 x 4. *)
Definition posesOk (s : t) : Prop :=
  isPose (currentPose s) /\ Forall (fun kf => isPose (kf_pose kf)) (keyframes s).
End PoseVocabulary.

(** * Fixtures: concrete inputs on which the properties are exercised *)

Module Fixtures.
Local Open Scope R_scope.

(** A ray from one unit above the origin, pointing straight down. *)
Definition rayDown : HitTester.Ray3D := HitTester.mkRay3D 0 1 0 0 (-1) 0.

(** A detector holding one horizontal plane, and a new horizontal plane
    five centimetres away with the same normal. *)
Definition floorPlane : PlaneDetector.DetectedPlane :=
  PlaneDetector.mkDetectedPlane 0 (mkPoint3f 0 0 0) (mkPoint3f 0 1 0) 1 1 []
                                true (1 / 2).
Definition nearPlane : PlaneDetector.DetectedPlane :=
  PlaneDetector.mkDetectedPlane 1 (mkPoint3f (5 / 100) 0 0) (mkPoint3f 0 1 0)
                                2 (1 / 2) [] true (8 / 10).
Definition floorDetector : PlaneDetector.t :=
  PlaneDetector.mkPlaneDetector [floorPlane] 1.

(** Fifty map points of the plane [y = 0]; the first three span it. *)
Definition planePoints : list Point3f :=
  [mkPoint3f 0 0 0; mkPoint3f 0 0 1; mkPoint3f 1 0 0]
  ++ replicate 47 (mkPoint3f 0 0 0).

(** Random draws that pick the indices 0, 1, 2 in every RANSAC turn. *)
Definition cyclicDraws : nat -> nat -> nat := fun _ k => (k mod 3)%nat.

(** The best candidate of the RANSAC loop on these points and draws. *)
Definition flatBest : PlaneDetector.Best :=
  PlaneDetector.mkBest 50 (P3.divide (mkPoint3f 0 1 0) 1) (- 0) (seq 0 50).

(** One call of the plane detector on these points. *)
Definition flatCall : DetectCall :=
  mkDetectCall (mkImage 0 0 1 []) planePoints (M.eye 4) cyclicDraws.

(** *** An OpenCV for the tracker

    The feature detector finds a hundred keypoints in every image that has
    a non-zero pixel and none in a blank one; the matcher pairs row [i]
    with row [i] at distance 0; the essential matrix, the recovered pose
    (a unit step along x), the homography and the PnP solution are fixed;
    every triangulated point is [(0, 0, 1)]; the matrix inverse is the
    adjugate formula of [HitTester.invertMatrix4x4] on the flattened
    matrix, with OpenCV's zero matrix for a singular argument. *)

Definition desc0 : Descriptor := replicate 32 0%Z.

Definition textured (im : Image) : bool :=
  negb (forallb (Z.eqb 0) (pixels im)).

Definition diagMatches (n : nat) : list DMatch :=
  map (fun i => mkDMatch (Z.of_nat i) (Z.of_nat i) 0) (seq 0 n).

Definition knnPairs (n : nat) : list (list DMatch) :=
  map (fun i => [mkDMatch (Z.of_nat i) (Z.of_nat i) 10;
                 mkDMatch (Z.of_nat i) 0 20]) (seq 0 n).

Definition inv0 (m : Mat) : Mat :=
  match HitTester.invertMatrix4x4 (Bindings.matToArray m) with
  | Some a => Bindings.ofRowMajor a
  | None => replicate 4 (replicate 4 0)
  end.

Definition cv0 : OpenCV :=
  mkOpenCV
    (fun _ im => if textured im
                 then (replicate 100 KeyPoint_dflt, replicate 100 desc0)
                 else ([], []))
    (fun _ q t => diagMatches (Nat.min (length q) (length t)))
    (fun _ q _ _ => knnPairs (length q))
    (fun pts1 _ _ _ _ => (M.eye 3, map (fun _ => 1%Z) pts1))
    (fun _ pts1 _ _ mask =>
       (Z.of_nat (length pts1), M.eye 3, [[1]; [0]; [0]], mask))
    (fun _ _ _ _ _ _ _ => Some ([[0]; [0]; [0]], [[0]; [0]; [0]]))
    (fun _ => M.eye 3)
    (fun _ _ _ _ => [[0]; [0]; [1]; [1]])
    (fun src _ _ => (M.eye 3, map (fun _ => 1%Z) src))
    (fun pts _ => pts)
    (fun _ => true)
    inv0
    (fun src _ => take (Z.to_nat (rows src * cols src)) (pixels src)).

(** The same OpenCV with a matcher that finds one pair at distance 0 and
    every other pair at distance 60. *)
Definition nearFar (n : nat) : list DMatch :=
  match n with
  | O => []
  | S k => mkDMatch 0 0 0
           :: map (fun i => mkDMatch (Z.of_nat i) (Z.of_nat i) 60) (seq 1 k)
  end.

Definition cvFar : OpenCV :=
  mkOpenCV
    (orb_detectAndCompute cv0)
    (fun _ q t => nearFar (Nat.min (length q) (length t)))
    (bf_knnMatch cv0) (findEssentialMat cv0) (recoverPose cv0)
    (solvePnPRansac cv0) (Rodrigues cv0) (triangulatePoints cv0)
    (findHomography cv0) (perspectiveTransform cv0) (isContourConvex cv0)
    (inv cv0) (cvtColor_bytes cv0).


Definition frameA : Image := mkImage 1 1 1 [1%Z].
Definition frameB : Image := mkImage 1 1 1 [2%Z].
Definition blank : Image := mkImage 1 1 1 [0%Z].
Definition noDraws : nat -> nat -> nat := fun _ _ => 0%nat.


(** The same OpenCV with a matcher that pairs the rows of two equal
    descriptor matrices at distance 0 and those of two different ones at
    distance 256. *)
Definition cvLoop : OpenCV :=
  mkOpenCV
    (orb_detectAndCompute cv0)
    (fun _ q t =>
       if decide (q = t) then diagMatches (length q)
       else map (fun i => mkDMatch (Z.of_nat i) (Z.of_nat i) 256)
                (seq 0 (Nat.min (length q) (length t))))
    (bf_knnMatch cv0) (findEssentialMat cv0) (recoverPose cv0)
    (solvePnPRansac cv0) (Rodrigues cv0) (triangulatePoints cv0)
    (findHomography cv0) (perspectiveTransform cv0) (isContourConvex cv0)
    (inv cv0) (cvtColor_bytes cv0).

(** Eleven keyframes of 51 features each; the descriptors of the sixth
    (index 5) and of the last (index 10) are the same and differ from the
    others'. *)
Definition desc1 : Descriptor := replicate 32 255%Z.
Definition plainKf (i : Z) : KeyFrame :=
  KeyFrame_new i frameA (M.eye 4) (replicate 51 KeyPoint_dflt)
               (replicate 51 desc0).
Definition markedKf (i : Z) : KeyFrame :=
  KeyFrame_new i frameA (M.eye 4) (replicate 51 KeyPoint_dflt)
               (replicate 51 desc1).
Definition loopKeyframes : list KeyFrame :=
  [plainKf 0; plainKf 1; plainKf 2; plainKf 3; plainKf 4; markedKf 5;
   plainKf 6; plainKf 7; plainKf 8; plainKf 9; markedKf 10].
Definition loopSystem : SLAMSystem.t :=
  SLAMSystem.set_tracking true
    (SLAMSystem.set_initialized true
       (SLAMSystem.set_nextKeyFrameId 11
          (SLAMSystem.set_keyframes loopKeyframes SLAMSystem.new))).

(** An image-target tracker with one registered target, 0.2 m wide. *)
Definition markerTracker : ImageTargetTracker.t :=
  snd (ImageTargetTracker.addTarget cv0 ImageTargetTracker.new frameA
         "marker" (2 / 10) 0).

(** Two textured frames initialise the tracker. *)
Definition twoFrames : list Call := [Frame frameA noDraws; Frame frameB noDraws].

(** The pose after them: a unit step along x. *)
Definition stepX : Mat :=
  [[1; 0; 0; 1]; [0; 1; 0; 0]; [0; 0; 1; 0]; [0; 0; 0; 1]].

(** The inverse of [stepX]. *)
Definition stepXinv : Mat :=
  [[1; 0; 0; -1]; [0; 1; 0; 0]; [0; 0; 1; 0]; [0; 0; 0; 1]].

(** The fifty points of [planePoints] as a float array, the plane [y = 0]
    through them, and a plane that stands for an unwritten local. *)
Definition flatArray : list R :=
  flat_map (fun p => [px p; py p; pz p]) planePoints.
Definition flatGround : HitTester.Plane3D := HitTester.mkPlane3D 0 1 0 0.
Definition anyPlane : HitTester.Plane3D := HitTester.mkPlane3D 7 7 7 7.

(** The identity, a view matrix for a camera that looks straight down
    from five units above the origin, and its inverse, all column-major. *)
Definition identity16 : list R :=
  [1; 0; 0; 0;  0; 1; 0; 0;  0; 0; 1; 0;  0; 0; 0; 1].
Definition viewDown : list R :=
  [1; 0; 0; 0;  0; 0; -1; 0;  0; 1; 0; 0;  0; 0; 5; 1].
Definition viewDownInv : list R :=
  [1; 0; 0; 0;  0; 0; 1; 0;  0; -1; 0; 0;  0; 5; 0; 1].

(** The pose of a camera one unit above the origin that looks straight
    down. *)
Definition downPose : Mat :=
  [[1; 0; 0; 0]; [0; 0; -1; 1]; [0; 1; 0; 0]; [0; 0; 0; 1]].

(** The same OpenCV with a triangulation that returns [w = 0]: no map
    point is made. *)
Definition cvNoDepth : OpenCV :=
  mkOpenCV
    (orb_detectAndCompute cv0) (bf_match cv0)
    (bf_knnMatch cv0) (findEssentialMat cv0) (recoverPose cv0)
    (solvePnPRansac cv0) (Rodrigues cv0)
    (fun _ _ _ _ => [[0]; [0]; [0]; [0]])
    (findHomography cv0) (perspectiveTransform cv0) (isContourConvex cv0)
    (inv cv0) (cvtColor_bytes cv0).

(** Two textured frames, then twelve blank ones. *)
Definition fourteenFrames : list Call :=
  twoFrames ++ replicate 12 (Frame blank noDraws).

(** Two unit steps along x. *)
Definition stepX2 : Mat :=
  [[1; 0; 0; 2]; [0; 1; 0; 0]; [0; 0; 1; 0]; [0; 0; 0; 1]].

(** The tracker on [cvNoDepth] after its initialisation and [n] frames
    in all, the later ones blank. *)
Definition afterInit (s : SLAMSystem.t) (n : Z) : Prop :=
  SLAMSystem.initialized s = true /\ SLAMSystem.mapPoints s = ∅ /\
  SLAMSystem.prevKeypoints s = replicate 100 KeyPoint_dflt /\
  SLAMSystem.prevDescriptors s = replicate 100 desc0 /\
  SLAMSystem.currentPose s = stepX /\ SLAMSystem.frameCount s = n /\
  exists kf0 kf1,
    SLAMSystem.keyframes s = [kf0; kf1] /\ kf_pose kf1 = stepX.

End Fixtures.

(** * Properties *)

(** ** Facts on real comparisons *)

Lemma Rabs_lt_iff (a b : R) : (Rabs a < b <-> - b < a < b)%R.
Proof.
  unfold Rabs. destruct (Rcase_abs a); lra.
Qed.

(** ** The hit tester *)

Section HitTest.
Import HitTester.
Local Open Scope R_scope.

Lemma rayPlaneIntersect_flag ray plane res :
  fst (rayPlaneIntersect ray plane res) = hit (snd (rayPlaneIntersect ray plane res)).
Proof.
  unfold rayPlaneIntersect. repeat case_decide; reflexivity.
Qed.

Lemma hitTest_valid h sx sy sw sh view proj :
  hasValidPlane h = true ->
  hitTest h sx sy sw sh view proj
  = snd (rayPlaneIntersect (screenToRay sx sy sw sh view proj)
                           (groundPlane h) HitTestResult_new).
Proof.
  intros Hv. unfold hitTest. rewrite Hv. reflexivity.
Qed.

(** C8.  For the stored ground plane [(n, d)] of a tester with a valid
    plane and every ray [(O, D)]: with [t = -(n.O + d) / (n.D)], the hit
    test of a screen point whose ray is [(O, D)] is the outcome [r] of the
    ray-plane intersection; [r] reports no hit exactly when
    [|n.D| < 1e-6] or [t < 0]; otherwise [r] is a hit at [O + t D], at
    distance [t], with plane id [-1]. *)
Theorem C8_hit_test_ray_plane (h : HitTester.t) (ray : Ray3D) :
  hasValidPlane h = true ->
  let p := groundPlane h in
  let nD := nx p * dx ray + ny p * dy ray + nz p * dz ray in
  let t := - (nx p * ox ray + ny p * oy ray + nz p * oz ray + d p) / nD in
  let r := snd (rayPlaneIntersect ray p HitTestResult_new) in
  (forall sx sy sw sh view proj,
      screenToRay sx sy sw sh view proj = ray ->
      hitTest h sx sy sw sh view proj = r) /\
  (hit r = false <-> Rabs nD < 1 / 1000000 \/ t < 0) /\
  (hit r = true ->
   hx r = ox ray + t * dx ray /\ hy r = oy ray + t * dy ray /\
   hz r = oz ray + t * dz ray /\ distance r = t /\ planeId r = (-1)%Z).
Proof.
  intros Hv p nD t r. split; [|split].
  - intros sx sy sw sh view proj Hray.
    rewrite hitTest_valid by exact Hv. rewrite Hray. reflexivity.
  - subst r. unfold rayPlaneIntersect, rayParam, nDotD, nDotO.
    fold p. fold nD. fold t.
    destruct (decide (Rabs nD < 1 / 1000000)) as [Hpar|Hpar]; simpl.
    + split; [intros _; left; exact Hpar | reflexivity].
    + destruct (decide (t < 0)) as [Hneg|Hneg]; simpl.
      * split; [intros _; right; exact Hneg | reflexivity].
      * split; [discriminate | intros [?|?]; contradiction].
  - subst r. unfold rayPlaneIntersect, rayParam, nDotD, nDotO.
    fold p. fold nD. fold t.
    destruct (decide (Rabs nD < 1 / 1000000)) as [Hpar|Hpar]; simpl;
      [discriminate|].
    destruct (decide (t < 0)) as [Hneg|Hneg]; simpl; [discriminate|].
    intros _. repeat split; ring.
Qed.

Lemma C8_hit_test_ray_plane_witness :
  hasValidPlane HitTester.new = true /\
  planeId (snd (rayPlaneIntersect Fixtures.rayDown (groundPlane HitTester.new)
                                  HitTestResult_new)) = (-1)%Z.
Proof.
  split; [reflexivity|].
  destruct (C8_hit_test_ray_plane HitTester.new Fixtures.rayDown eq_refl)
    as (_ & Hno & Hyes).
  apply Hyes.
  destruct (hit _) eqn:Hhit; [reflexivity|].
  exfalso. destruct (proj1 Hno eq_refl) as [Hpar|Hneg]; simpl in *.
  - apply Rabs_lt_iff in Hpar. lra.
  - lra.
Defined.

End HitTest.

(** ** The plane detector *)

Section Planes.
Import PlaneDetector.
Local Open Scope R_scope.

Lemma mergeable_iff e p : mergeable e p = true <-> mergeCondition e p.
Proof.
  unfold mergeable, mergeCondition, MERGE_DISTANCE.
  destruct (eqb (isHorizontal e) (isHorizontal p)) eqn:Hh; simpl.
  - apply eqb_prop in Hh.
    destruct (decide (Rabs (P3.dot (normal e) (normal p)) < 95 / 100)).
    + split; [discriminate | intros (_ & ? & _); lra].
    + rewrite bool_decide_eq_true. split.
      * intros ?. repeat split; [assumption | lra | assumption].
      * intros (_ & _ & ?). assumption.
  - split; [discriminate|]. intros (Heq & _). rewrite Heq in Hh.
    rewrite eqb_reflx in Hh. discriminate.
Qed.

Lemma findMergeablePlane_from_spec i ps p :
  (findMergeablePlane_from i ps p = (-1)%Z /\
   Forall (fun e => mergeable e p = false) ps) \/
  (exists k e,
      findMergeablePlane_from i ps p = Z.of_nat (i + k) /\
      ps !! k = Some e /\ mergeable e p = true /\
      Forall (fun e' => mergeable e' p = false) (take k ps)).
Proof.
  revert i. induction ps as [|e ps IH]; intros i; simpl.
  - left. split; [reflexivity | constructor].
  - destruct (mergeable e p) eqn:Hm.
    + right. exists 0%nat, e. rewrite Nat.add_0_r.
      repeat split; [assumption | constructor].
    + destruct (IH (S i)) as [[Hr Hall] | (k & e' & Hr & Hk & Hm' & Hall)].
      * left. split; [assumption | constructor; assumption].
      * right. exists (S k), e'. rewrite Hr.
        repeat split; [f_equal; lia | assumption | assumption |].
        simpl. constructor; assumption.
Qed.

(** C6.  A new plane is merged by [detectPlanes] exactly when some existing
    plane has the same horizontal/vertical class, an absolute normal dot
    product of at least 0.95 and a centre closer than 0.1; it is merged
    into the first such plane, whose centre becomes the midpoint of the
    two centres, whose width and height become the maxima and whose
    confidence becomes its old confidence plus half the new one, clamped to
    1; otherwise the new plane is appended. *)
Theorem C6_merge_policy (pd : PlaneDetector.t) (p : DetectedPlane) :
  let idx := findMergeablePlane pd p in
  ((0 <= idx)%Z <-> exists e, e ∈ planes pd /\ mergeCondition e p) /\
  ((0 <= idx)%Z ->
   exists e m,
     planes pd !! Z.to_nat idx = Some e /\ mergeCondition e p /\
     Forall (fun e' => ~ mergeCondition e' p) (take (Z.to_nat idx) (planes pd)) /\
     planes (placePlane pd p) = <[Z.to_nat idx := m]> (planes pd) /\
     center m = mkPoint3f ((px (center e) + px (center p)) / 2)
                          ((py (center e) + py (center p)) / 2)
                          ((pz (center e) + pz (center p)) / 2) /\
     width m = Rmax (width e) (width p) /\
     height m = Rmax (height e) (height p) /\
     confidence m = Rmin 1 (confidence e + confidence p / 2)) /\
  ((idx < 0)%Z -> planes (placePlane pd p) = planes pd ++ [p]).
Proof.
  intros idx. subst idx. unfold placePlane, findMergeablePlane.
  destruct (findMergeablePlane_from_spec 0 (planes pd) p)
    as [[Hr Hall] | (k & e & Hr & Hk & Hm & Hall)]; rewrite Hr.
  - split; [|split].
    + split; [lia|]. intros (e & Hin & Hc). exfalso.
      rewrite Forall_forall in Hall. apply Hall in Hin.
      apply mergeable_iff in Hc. congruence.
    + lia.
    + intros _. reflexivity.
  - simpl (0 + k)%nat. split; [|split].
    + split; [|lia]. intros _. exists e. split.
      * eapply list_elem_of_lookup_2; eassumption.
      * apply mergeable_iff; assumption.
    + intros _. exists e, (merged e p). rewrite Nat2Z.id.
      split; [assumption|]. split; [apply mergeable_iff; assumption|].
      split.
      { eapply Forall_impl; [exact Hall|]. simpl. intros e' He' Hc.
        apply mergeable_iff in Hc. congruence. }
      split.
      { destruct (0 <=? Z.of_nat k)%Z eqn:Hk0; [|lia]. simpl.
        rewrite Nat2Z.id.
        apply list_eq. intros j. destruct (decide (j = k)) as [->|Hne].
        - rewrite list_lookup_alter_eq, Hk. simpl.
          rewrite list_lookup_insert_eq; [reflexivity|].
          eapply lookup_lt_Some; eassumption.
        - rewrite list_lookup_alter_ne by congruence.
          rewrite list_lookup_insert_ne by congruence. reflexivity. }
      unfold merged; simpl. repeat split.
      * unfold P3.scale, P3.add; simpl. f_equal; lra.
      * f_equal. lra.
    + lia.
Qed.

Lemma floor_near_mergeable : mergeCondition Fixtures.floorPlane Fixtures.nearPlane.
Proof.
  unfold mergeCondition, Fixtures.floorPlane, Fixtures.nearPlane; simpl.
  split; [reflexivity|]. split.
  - unfold P3.dot; simpl.
    replace (0 * 0 + 1 * 1 + 0 * 0) with 1 by ring. rewrite Rabs_R1. lra.
  - unfold P3.norm, P3.sub; simpl.
    replace ((0 - 5 / 100) * (0 - 5 / 100) + (0 - 0) * (0 - 0)
             + (0 - 0) * (0 - 0))
      with (5 / 100 * (5 / 100)) by ring.
    rewrite sqrt_square by lra. lra.
Qed.

Lemma C6_merge_policy_witness :
  exists m,
    planes (placePlane Fixtures.floorDetector Fixtures.nearPlane) = [m] /\
    center m = mkPoint3f ((0 + 5 / 100) / 2) ((0 + 0) / 2) ((0 + 0) / 2) /\
    width m = Rmax 1 2 /\ height m = Rmax 1 (1 / 2) /\
    confidence m = Rmin 1 (1 / 2 + 8 / 10 / 2).
Proof.
  destruct (C6_merge_policy Fixtures.floorDetector Fixtures.nearPlane)
    as (Hiff & Hmerge & _).
  assert (Hidx : (0 <= findMergeablePlane Fixtures.floorDetector
                                          Fixtures.nearPlane)%Z).
  { apply Hiff. exists Fixtures.floorPlane.
    split; [apply list_elem_of_here | apply floor_near_mergeable]. }
  destruct (Hmerge Hidx) as (e & m & He & _ & _ & Hpl & Hc & Hw & Hh & Hcf).
  assert (Hlt : (Z.to_nat (findMergeablePlane Fixtures.floorDetector
                                              Fixtures.nearPlane) < 1)%nat).
  { apply lookup_lt_Some in He. exact He. }
  assert (Hz : Z.to_nat (findMergeablePlane Fixtures.floorDetector
                                            Fixtures.nearPlane) = 0%nat) by lia.
  rewrite Hz in He, Hpl. injection He as <-.
  exists m. split; [exact Hpl|].
  split; [exact Hc|]. split; [exact Hw|]. split; [exact Hh | exact Hcf].
Defined.

Lemma unitUp_good n : unitUp n -> goodNormal n.
Proof.
  intros [Hy Hn]. split; [assumption|]. rewrite Hn.
  replace (1 - 1) with 0 by ring. rewrite Rabs_R0. lra.
Qed.

Lemma sumsq_nonneg (a b c : R) : 0 <= a * a + b * b + c * c.
Proof. nra. Qed.

Lemma sumsq_divide (a b c k : R) :
  k <> 0 ->
  a / k * (a / k) + b / k * (b / k) + c / k * (c / k)
  = (a * a + b * b + c * c) / (k * k).
Proof. intros Hk. field. exact Hk. Qed.

Lemma norm_divide_unit (n : Point3f) :
  ~ P3.norm n < 1 / 1000000 -> P3.norm (P3.divide n (P3.norm n)) = 1.
Proof.
  intros Hbig. unfold P3.norm, P3.divide in *; simpl.
  set (S := px n * px n + py n * py n + pz n * pz n) in *.
  assert (HS : 0 <= S) by apply sumsq_nonneg.
  assert (HN : sqrt S * sqrt S = S) by (apply sqrt_sqrt; exact HS).
  assert (Hpos : 0 < sqrt S) by lra.
  rewrite (sumsq_divide _ _ _ (sqrt S)) by lra. fold S.
  rewrite HN. replace (S / S) with 1 by (field; nra).
  apply sqrt_1.
Qed.

Lemma norm_neg (n : Point3f) : P3.norm (P3.neg n) = P3.norm n.
Proof.
  unfold P3.norm, P3.neg; simpl. f_equal. ring.
Qed.

Lemma ransacIteration_bestUnit points dis b iter :
  bestUnit b -> bestUnit (ransacIteration points dis b iter).
Proof.
  intros Hb. unfold ransacIteration.
  destruct (_ || _); [assumption|].
  case_decide as Hsmall; [assumption|].
  destruct (_ <? _)%nat; [|assumption].
  intros _. simpl. apply norm_divide_unit. assumption.
Qed.

Lemma ransacLoop_bestUnit points dis iters b :
  bestUnit b -> bestUnit (fold_left (ransacIteration points dis) iters b).
Proof.
  revert b. induction iters as [|i iters IH]; intros b Hb; simpl.
  - assumption.
  - apply IH, ransacIteration_bestUnit, Hb.
Qed.

Lemma fitPlaneRANSAC_unitUp points dis n d inliers :
  fitPlaneRANSAC points dis = Some (n, d, inliers) -> unitUp n.
Proof.
  unfold fitPlaneRANSAC. destruct (_ <? 3)%nat; [discriminate|].
  set (b := fold_left _ _ _).
  assert (Hb : bestUnit b).
  { apply ransacLoop_bestUnit. intros H; simpl in H; lia. }
  destruct (bestInlierCount b <? MIN_PLANE_POINTS)%nat eqn:Hcnt;
    [discriminate|].
  apply Nat.ltb_ge in Hcnt. unfold MIN_PLANE_POINTS in Hcnt.
  assert (Hn : P3.norm (bestNormal b) = 1) by (apply Hb; lia).
  case_decide as Hy; intros [= <- _ _]; split.
  - simpl. lra.
  - rewrite norm_neg. assumption.
  - lra.
  - assumption.
Qed.

Lemma computePlaneBounds_normal pts n plane :
  normal (computePlaneBounds pts n plane) = normal plane.
Proof.
  unfold computePlaneBounds. destruct pts as [|q pts]; [reflexivity|].
  destruct (fold_left _ _ _) as [[[minX maxX] minZ] maxZ]. reflexivity.
Qed.

Lemma placePlane_good pd p :
  planesGood pd -> unitUp (normal p) -> planesGood (placePlane pd p).
Proof.
  unfold planesGood, placePlane. intros Hpd Hp.
  destruct (0 <=? _)%Z; simpl.
  - apply Forall_alter; [assumption|]. intros e _ He. exact He.
  - apply Forall_app. split; [assumption|]. constructor; [assumption|constructor].
Qed.

Lemma detectPlanes_loop_good fuel planeCount total rd pts pd :
  planesGood pd -> planesGood (detectPlanes_loop fuel planeCount total rd pts pd).
Proof.
  revert planeCount pts pd.
  induction fuel as [|fuel IH]; intros planeCount pts pd Hpd; simpl.
  - assumption.
  - destruct (_ <? _)%nat; [assumption|].
    destruct (fitPlaneRANSAC pts (rd planeCount)) as [[[n d] inliers]|] eqn:Hfit;
      [|assumption].
    destruct (_ <? _)%nat; [assumption|].
    apply IH. apply placePlane_good.
    + exact Hpd.
    + rewrite computePlaneBounds_normal. simpl.
      eapply fitPlaneRANSAC_unitUp. eassumption.
Qed.

Lemma detectPlanes_good pd frame pts pose rd :
  planesGood pd -> planesGood (snd (detectPlanes pd frame pts pose rd)).
Proof.
  intros Hpd. unfold detectPlanes. destruct (_ <? _)%nat; cbn [snd].
  - assumption.
  - apply detectPlanes_loop_good. assumption.
Qed.

Lemma detectAll_good calls pd : planesGood pd -> planesGood (detectAll pd calls).
Proof.
  revert pd. induction calls as [|c calls IH]; intros pd Hpd; simpl.
  - assumption.
  - apply IH, detectPlanes_good, Hpd.
Qed.

(** C5.  After any sequence of calls of [detectPlanes] on a fresh
    detector, with any points and any random draws, every plane that
    [getDetectedPlanes] returns has a normal with non-negative y component
    and a Euclidean norm within 1e-4 of 1. *)
Theorem C5_plane_normals (calls : list DetectCall) (p : DetectedPlane) :
  p ∈ getDetectedPlanes (detectAll PlaneDetector.new calls) ->
  0 <= py (normal p) /\ Rabs (P3.norm (normal p) - 1) <= 1 / 10000.
Proof.
  intros Hin. apply unitUp_good.
  assert (Hgood : planesGood (detectAll PlaneDetector.new calls)).
  { apply detectAll_good. constructor. }
  unfold planesGood in Hgood. rewrite Forall_forall in Hgood.
  apply Hgood. exact Hin.
Qed.

(** The run of the detector on [Fixtures.flatCall]. *)

Lemma filter_all {A} (P : A -> Prop) `{forall x, Decision (P x)} (l : list A) :
  Forall P l -> filter P l = l.
Proof.
  induction 1 as [|x l Hx Hl IH]; [reflexivity|].
  rewrite filter_cons_True by assumption. f_equal. exact IH.
Qed.

Lemma cyclicDraws_spec c iter :
  Fixtures.cyclicDraws c (3 * iter) = 0%nat /\
  Fixtures.cyclicDraws c (3 * iter + 1) = 1%nat /\
  Fixtures.cyclicDraws c (3 * iter + 2) = 2%nat.
Proof.
  unfold Fixtures.cyclicDraws.
  rewrite !(Nat.mul_comm 3 iter).
  rewrite Nat.Div0.mod_mul.
  rewrite !(Nat.add_comm (iter * 3)). rewrite !Nat.Div0.mod_add.
  repeat split.
Qed.

Lemma planePoints_flat : Forall (fun q => py q = 0) Fixtures.planePoints.
Proof.
  unfold Fixtures.planePoints. apply Forall_app. split.
  - repeat constructor.
  - apply Forall_replicate. reflexivity.
Qed.

Lemma flat_inliers :
  collectInliers Fixtures.planePoints (P3.divide (mkPoint3f 0 1 0) 1) (- 0)
  = seq 0 50.
Proof.
  unfold collectInliers.
  change (length Fixtures.planePoints) with 50%nat.
  apply filter_all. apply Forall_forall. intros i Hi.
  apply elem_of_seq in Hi.
  assert (Hq : py (at3 Fixtures.planePoints i) = 0).
  { pose proof planePoints_flat as Hf. rewrite Forall_forall in Hf.
    apply Hf. unfold at3. apply list_elem_of_In, nth_In.
    change (length Fixtures.planePoints) with 50%nat. lia. }
  unfold P3.dot, P3.divide, RANSAC_THRESHOLD; simpl. rewrite Hq.
  apply Rabs_lt_iff. lra.
Qed.

Lemma flat_iteration c b iter :
  ransacIteration Fixtures.planePoints (Fixtures.cyclicDraws c) b iter
  = if (bestInlierCount b <? 50)%nat then Fixtures.flatBest else b.
Proof.
  unfold ransacIteration.
  destruct (cyclicDraws_spec c iter) as (-> & -> & ->).
  cbn [Nat.eqb orb].
  change (at3 Fixtures.planePoints 0) with (mkPoint3f 0 0 0).
  change (at3 Fixtures.planePoints 1) with (mkPoint3f 0 0 1).
  change (at3 Fixtures.planePoints 2) with (mkPoint3f 1 0 0).
  assert (Hc : P3.cross (P3.sub (mkPoint3f 0 0 1) (mkPoint3f 0 0 0))
                        (P3.sub (mkPoint3f 1 0 0) (mkPoint3f 0 0 0))
               = mkPoint3f 0 1 0).
  { unfold P3.cross, P3.sub; simpl. f_equal; ring. }
  rewrite Hc.
  assert (Hn : P3.norm (mkPoint3f 0 1 0) = 1).
  { unfold P3.norm; simpl. replace (0 * 0 + 1 * 1 + 0 * 0) with 1 by ring.
    apply sqrt_1. }
  rewrite Hn.
  destruct (decide (1 < 1 / 1000000)) as [Hbad|_]; [lra|].
  assert (Hd : - P3.dot (P3.divide (mkPoint3f 0 1 0) 1) (mkPoint3f 0 0 0) = - 0).
  { unfold P3.dot, P3.divide; simpl. f_equal. ring. }
  rewrite Hd, flat_inliers. reflexivity.
Qed.

Lemma flat_loop c iters :
  fold_left (ransacIteration Fixtures.planePoints (Fixtures.cyclicDraws c))
            iters Fixtures.flatBest = Fixtures.flatBest.
Proof.
  induction iters as [|i iters IH]; simpl; [reflexivity|].
  rewrite flat_iteration. simpl. exact IH.
Qed.

Lemma planePoints_length : length Fixtures.planePoints = 50%nat.
Proof. reflexivity. Qed.

Lemma fold_left_cons_eq {A B} (f : A -> B -> A) x l a :
  fold_left f (x :: l) a = fold_left f l (f a x).
Proof. reflexivity. Qed.

Lemma flat_fold c :
  fold_left (ransacIteration Fixtures.planePoints (Fixtures.cyclicDraws c))
            (seq 0 RANSAC_ITERATIONS) (mkBest 0 origin 0 [])
  = Fixtures.flatBest.
Proof.
  assert (Hseq : seq 0 RANSAC_ITERATIONS = 0%nat :: seq 1 99) by reflexivity.
  rewrite Hseq, fold_left_cons_eq, flat_iteration.
  apply flat_loop.
Qed.

Lemma flat_fit c :
  fitPlaneRANSAC Fixtures.planePoints (Fixtures.cyclicDraws c)
  = Some (P3.divide (mkPoint3f 0 1 0) 1, - 0, seq 0 50).
Proof.
  unfold fitPlaneRANSAC. rewrite planePoints_length, flat_fold.
  destruct (decide (py (bestNormal Fixtures.flatBest) < 0)) as [Hbad|Hok].
  - simpl in Hbad. lra.
  - reflexivity.
Qed.

Lemma flat_erase :
  eraseInliers (seq 0 50) Fixtures.planePoints = [].
Proof.
  unfold eraseInliers.
  replace (merge_sort (flip Nat.le) (seq 0 50)) with (rev (seq 0 50))
    by (vm_compute; reflexivity).
  assert (H : forall (l : list Point3f) n,
             length l = n -> fold_left (fun pts idx => delete idx pts)
                                       (rev (seq 0 n)) l = []).
  { intros l n. revert l. induction n as [|n IH]; intros l Hl.
    - destruct l; [reflexivity | discriminate].
    - rewrite seq_S, rev_app_distr. simpl.
      apply IH. rewrite length_delete.
      + rewrite Hl. lia.
      + apply lookup_lt_is_Some. lia. }
  apply H. apply planePoints_length.
Qed.

Lemma detectPlanes_loop_eq fuel planeCount total rd pts pd n d inliers :
  (length pts <? MIN_PLANE_POINTS)%nat = false ->
  fitPlaneRANSAC pts (rd planeCount) = Some (n, d, inliers) ->
  (length inliers <? MIN_PLANE_POINTS)%nat = false ->
  detectPlanes_loop (S fuel) planeCount total rd pts pd
  = detectPlanes_loop fuel (S planeCount) total rd (eraseInliers inliers pts)
      (placePlane
         (mkPlaneDetector (planes pd) (nextPlaneId pd + 1))
         (computePlaneBounds (map (at3 pts) inliers) n
            (mkDetectedPlane (nextPlaneId pd) origin n 0 0 []
               (isPlaneHorizontal n) (INR (length inliers) / INR total)))).
Proof.
  intros H1 H2 H3. cbn [detectPlanes_loop]. rewrite H1, H2, H3. reflexivity.
Qed.

Lemma detectPlanes_loop_short fuel planeCount total rd pts pd :
  (length pts <? MIN_PLANE_POINTS)%nat = true ->
  detectPlanes_loop fuel planeCount total rd pts pd = pd.
Proof.
  intros H. destruct fuel; cbn [detectPlanes_loop]; [reflexivity|].
  rewrite H. reflexivity.
Qed.

Lemma placePlane_first pd p :
  planes pd = [] -> planes (placePlane pd p) = [p].
Proof.
  intros H. unfold placePlane, findMergeablePlane. rewrite H. reflexivity.
Qed.

Lemma flat_run :
  exists p, planes (detectAll PlaneDetector.new [Fixtures.flatCall]) = [p].
Proof.
  unfold detectAll, Fixtures.flatCall, detectPlanes.
  cbn [fold_left dc_frame dc_points dc_pose dc_draws].
  rewrite planePoints_length.
  replace (50 <? MIN_PLANE_POINTS)%nat with false by reflexivity.
  cbn [snd].
  erewrite detectPlanes_loop_eq;
    [ | rewrite planePoints_length; reflexivity
      | apply flat_fit
      | reflexivity ].
  rewrite detectPlanes_loop_short by (rewrite flat_erase; reflexivity).
  eexists. apply placePlane_first. reflexivity.
Qed.

Lemma C5_plane_normals_witness :
  exists p,
    p ∈ getDetectedPlanes (detectAll PlaneDetector.new [Fixtures.flatCall]) /\
    0 <= py (normal p) /\ Rabs (P3.norm (normal p) - 1) <= 1 / 10000.
Proof.
  destruct flat_run as [p Hp]. exists p.
  assert (Hin : p ∈ getDetectedPlanes
                      (detectAll PlaneDetector.new [Fixtures.flatCall])).
  { unfold getDetectedPlanes. rewrite Hp. apply list_elem_of_here. }
  split; [exact Hin|].
  exact (C5_plane_normals [Fixtures.flatCall] p Hin).
Defined.

End Planes.

(** ** The image-target tracker *)

Section Targets.
Import ImageTargetTracker.
Variable cv : OpenCV.
Local Open Scope R_scope.

Lemma ratioTest_elem knn m :
  m ∈ ratioTest knn ->
  exists m1 rest, (m :: m1 :: rest) ∈ knn /\
                  distance m < 75 / 100 * distance m1.
Proof.
  unfold ratioTest. rewrite list_elem_of_In, in_flat_map.
  intros ([|m0 [|m1 rest]] & Hin & Hm); try (destruct Hm; fail).
  unfold GOOD_MATCH_RATIO in Hm.
  destruct (decide (distance m0 < 75 / 100 * distance m1)) as [Hlt|];
    [|destruct Hm].
  destruct Hm as [<-|[]]. exists m1, rest.
  split; [apply list_elem_of_In; exact Hin | exact Hlt].
Qed.

Lemma countNonZero_le mask : (countNonZero mask <= length mask)%nat.
Proof.
  unfold countNonZero.
  induction mask as [|b mask IH]; [simpl; lia|].
  destruct (decide (b <> 0%Z)).
  - rewrite filter_cons_True by assumption. simpl. lia.
  - rewrite filter_cons_False by assumption. simpl. lia.
Qed.

Lemma ratio_in_unit (a b : nat) :
  (a <= b)%nat -> (0 < b)%nat -> 0 <= INR a / INR b <= 1.
Proof.
  intros Hab Hb.
  assert (Hb' : 0 < INR b) by (apply lt_0_INR; exact Hb).
  assert (Ha' : 0 <= INR a) by apply pos_INR.
  assert (Hab' : INR a <= INR b) by (apply le_INR; exact Hab).
  split.
  - apply Rmult_le_pos; [exact Ha'|]. left. apply Rinv_0_lt_compat. exact Hb'.
  - apply (Rmult_le_reg_r (INR b)); [exact Hb'|].
    unfold Rdiv. rewrite Rmult_assoc, Rinv_l by lra. lra.
Qed.

(** C7.  Provided [findHomography] returns a mask with one entry per
    point pair: a detection [d] is in the list [detectTargets] leaves only
    for a registered target for which the k = 2 nearest-neighbour matches
    passing the ratio test at 0.75 number at least 15, the RANSAC
    homography at 5 px is non-empty with at least 15 inliers, the projected
    corners are convex and PnP-RANSAC succeeds; the confidence of [d] is
    the inlier count over the good-match count and lies in [0, 1]. *)
Theorem C7_detection_conditions
    (tr : ImageTargetTracker.t) (frame : Image) (cameraMatrix : Mat)
    (d : DetectedTarget) :
  (forall src dst thr,
      length (snd (findHomography cv src dst thr)) = length src) ->
  d ∈ getDetectedTargets (snd (detectTargets cv tr frame cameraMatrix)) ->
  exists target,
    target ∈ targets tr /\ targetId d = id target /\
    let frameKeypoints := fst (extractFeatures cv frame) in
    let frameDescriptors := snd (extractFeatures cv frame) in
    let knn := bf_knnMatch cv false (descriptors target) frameDescriptors 2 in
    let good := ratioTest knn in
    let src := srcPointsOf target good in
    let dst := dstPointsOf frameKeypoints good in
    let H := fst (findHomography cv src dst 5) in
    let inliers := countNonZero (snd (findHomography cv src dst 5)) in
    (forall m, m ∈ good ->
               exists m1 rest, (m :: m1 :: rest) ∈ knn /\
                               distance m < 75 / 100 * distance m1) /\
    (15 <= length good)%nat /\
    Mat_empty H = false /\ (15 <= inliers)%nat /\
    corners d = perspectiveTransform cv (targetCornersOf target) H /\
    isContourConvex cv (corners d) = true /\
    (exists rvec tvec,
        solvePnPRansac cv (objectPointsOf target src) dst cameraMatrix
                       [[0]; [0]; [0]; [0]] 100 8 (99 / 100)
        = Some (rvec, tvec) /\
        pose d = M.poseOf (Rodrigues cv rvec) tvec) /\
    confidence d = INR inliers / INR (length good) /\
    0 <= confidence d <= 1.
Proof.
  intros Hmask Hd. unfold getDetectedTargets, detectTargets in Hd.
  destruct (_ || _) in Hd; [cbn in Hd; inversion Hd|].
  destruct (extractFeatures cv frame) as [frameKeypoints frameDescriptors]
    eqn:Hx.
  destruct (_ <? MIN_MATCHES)%nat in Hd; [cbn in Hd; inversion Hd|].
  cbn [snd detectedTargets] in Hd.
  apply list_elem_of_omap in Hd as (target & Hin & Hone).
  exists target. split; [exact Hin|]. cbn [fst snd].
  unfold detectOne, goodMatchesOf in Hone.
  destruct (Descriptors_empty _) in Hone; [discriminate|].
  set (knn := bf_knnMatch _ _ _ _ _) in *.
  set (good := ratioTest knn) in *.
  destruct (length good <? MIN_MATCHES)%nat eqn:Hgood in Hone; [discriminate|].
  apply Nat.ltb_ge in Hgood. unfold MIN_MATCHES in Hgood.
  set (src := srcPointsOf target good) in *.
  set (dst := dstPointsOf frameKeypoints good) in *.
  pose proof (Hmask src dst 5) as Hlen.
  destruct (findHomography cv src dst 5) as [H mask]. cbn [fst snd] in *.
  destruct (Mat_empty H) eqn:HH in Hone; [discriminate|].
  destruct (countNonZero mask <? MIN_MATCHES)%nat eqn:Hinl in Hone;
    [discriminate|].
  apply Nat.ltb_ge in Hinl. unfold MIN_MATCHES in Hinl.
  destruct (isContourConvex cv _) eqn:Hconv in Hone; [|discriminate].
  cbn [negb] in Hone. unfold computePose in Hone.
  destruct (solvePnPRansac _ _ _ _ _ _ _ _) as [[rvec tvec]|] eqn:Hpnp in Hone;
    [|discriminate].
  injection Hone as <-. cbn [targetId corners pose confidence].
  split; [reflexivity|].
  split; [intros m Hm; apply ratioTest_elem; exact Hm|].
  do 4 (split; [assumption || reflexivity|]).
  split; [exact Hconv|].
  split; [exists rvec, tvec; split; [exact Hpnp | reflexivity]|].
  split; [reflexivity|].
  apply ratio_in_unit.
  - etrans; [apply countNonZero_le|]. rewrite Hlen. unfold src, srcPointsOf.
    rewrite length_map. reflexivity.
  - lia.
Qed.

End Targets.

(** ** The tracker *)

Section Slam.
Import SLAMSystem.
Variable cv : OpenCV.

(** *** Triangulation keeps the map points it finds *)

Lemma triangulateStep_fresh P1 P2 r m :
  mapFresh (tri_mapPoints r) (tri_nextId r) ->
  mapFresh (tri_mapPoints (triangulateStep cv P1 P2 r m))
           (tri_nextId (triangulateStep cv P1 P2 r m))
  /\ tri_mapPoints r ⊆ tri_mapPoints (triangulateStep cv P1 P2 r m)
  /\ (tri_nextId r <= tri_nextId (triangulateStep cv P1 P2 r m))%Z.
Proof.
  intros Hf. unfold triangulateStep.
  destruct (decide (distance m > 50)%R); [split; [|split]; [assumption|reflexivity|lia]|].
  destruct (0 <=? _)%Z; [split; [|split]; [assumption|reflexivity|lia]|].
  destruct (decide (Rabs _ < _)%R); [split; [|split]; [assumption|reflexivity|lia]|].
  destruct (decide (pz _ < 0)%R); [split; [|split]; [assumption|reflexivity|lia]|].
  cbn [tri_mapPoints tri_nextId newMapPoint addObservation MapPoint_new mp_id].
  assert (Hnone : tri_mapPoints r !! tri_nextId r = None).
  { destruct (tri_mapPoints r !! tri_nextId r) as [mp|] eqn:Hl; [|reflexivity].
    apply Hf in Hl. lia. }
  split; [|split].
  - apply map_Forall_insert_2.
    + split; [lia | reflexivity].
    + eapply map_Forall_impl; [exact Hf|]. simpl. intros i mp [Hi Hb].
      split; [lia | assumption].
  - apply insert_subseteq. exact Hnone.
  - lia.
Qed.

Lemma triangulateLoop_fresh P1 P2 ms r :
  mapFresh (tri_mapPoints r) (tri_nextId r) ->
  mapFresh (tri_mapPoints (fold_left (triangulateStep cv P1 P2) ms r))
           (tri_nextId (fold_left (triangulateStep cv P1 P2) ms r))
  /\ tri_mapPoints r ⊆ tri_mapPoints (fold_left (triangulateStep cv P1 P2) ms r).
Proof.
  revert r. induction ms as [|m ms IH]; intros r Hf; simpl.
  - split; [assumption | reflexivity].
  - destruct (triangulateStep_fresh P1 P2 r m Hf) as (Hf' & Hsub & _).
    destruct (IH _ Hf') as [Hf'' Hsub'].
    split; [assumption | etrans; eassumption].
Qed.

Lemma triangulateNewPoints_spec s kf1 kf2 s' kf1' kf2' :
  triangulateNewPoints cv s kf1 kf2 = (s', kf1', kf2') ->
  sameButMap s s' /\ keyframes s' = keyframes s /\
  (mapFresh (mapPoints s) (nextMapPointId s) ->
   mapFresh (mapPoints s') (nextMapPointId s') /\ mapPoints s ⊆ mapPoints s').
Proof.
  unfold triangulateNewPoints. intros [= <- <- <-].
  split; [repeat split|]. split; [reflexivity|].
  intros Hf. cbn [mapPoints nextMapPointId set_nextMapPointId set_mapPoints].
  apply (triangulateLoop_fresh _ _ _ (mkTri kf1 kf2 (mapPoints s) (nextMapPointId s))).
  exact Hf.
Qed.

Lemma detectLoopClosure_state s kf : snd (detectLoopClosure cv s kf) = s.
Proof.
  unfold detectLoopClosure, localBundleAdjustment.
  destruct (0 <=? _)%Z; reflexivity.
Qed.

Lemma insertKeyFrame_spec s frame s2 kf' :
  insertKeyFrame cv s frame = (s2, kf') ->
  sameButMap s s2 /\
  length (keyframes s2) = S (length (keyframes s)) /\
  (mapFresh (mapPoints s) (nextMapPointId s) ->
   mapFresh (mapPoints s2) (nextMapPointId s2) /\ mapPoints s ⊆ mapPoints s2).
Proof.
  unfold insertKeyFrame.
  set (kf := KeyFrame_new _ _ _ _ _).
  set (s1 := set_keyframes _ _).
  assert (Hlen : length (keyframes s1) = S (length (keyframes s))).
  { subst s1. cbn [keyframes set_keyframes]. rewrite length_app. simpl. lia. }
  destruct (2 <=? _)%nat.
  - destruct (triangulateNewPoints cv s1 _ kf) as [[s' prev'] kf1'] eqn:Htri.
    intros [= <- <-].
    apply triangulateNewPoints_spec in Htri as (Hsame & Hk & Hmap).
    destruct Hsame as (H1 & H2 & H3 & H4 & H5).
    split; [repeat split; cbn; [rewrite H1|rewrite H2|rewrite H3|rewrite H4|rewrite H5]; reflexivity|].
    split.
    + cbn [keyframes set_keyframes]. rewrite !length_insert, Hk. exact Hlen.
    + intros Hf. apply Hmap. exact Hf.
  - intros [= <- <-]. split; [repeat split|]. split; [exact Hlen|].
    intros Hf. split; [exact Hf | reflexivity].
Qed.

Lemma createKeyFrame_spec s frame :
  sameButMap s (createKeyFrame cv s frame) /\
  length (keyframes (createKeyFrame cv s frame)) = S (length (keyframes s)) /\
  (mapFresh (mapPoints s) (nextMapPointId s) ->
   mapFresh (mapPoints (createKeyFrame cv s frame))
            (nextMapPointId (createKeyFrame cv s frame))
   /\ mapPoints s ⊆ mapPoints (createKeyFrame cv s frame)).
Proof.
  unfold createKeyFrame.
  destruct (insertKeyFrame cv s frame) as [s2 kf'] eqn:Hins.
  apply insertKeyFrame_spec in Hins.
  rewrite detectLoopClosure_state. destruct (10 <? _)%nat; exact Hins.
Qed.

(** *** What the steps of [track] leave unchanged *)

Lemma estimatePosePnP_mapCore s wp ip :
  mapCore (snd (estimatePosePnP cv s wp ip)) = mapCore s.
Proof.
  unfold estimatePosePnP. destruct (_ <? 6)%nat; [reflexivity|].
  destruct (solvePnPRansac _ _ _ _ _ _ _ _) as [[rvec tvec]|]; reflexivity.
Qed.

Lemma trackPose_mapCore s kps descs s1 :
  trackPose cv s kps descs = Some s1 -> mapCore s1 = mapCore s.
Proof.
  unfold trackPose. destruct (_ <? MIN_TRACKING_MATCHES)%nat.
  - destruct (_ <? MIN_TRACKING_MATCHES)%nat; [discriminate|].
    destruct (findEssentialMat _ _ _ _ _ _) as [E mask].
    destruct (negb (Mat_empty E)).
    + destruct (recoverPose _ _ _ _ _ _) as [[[inl R] tr] mask'].
      intros [= <-]. reflexivity.
    + intros [= <-]. reflexivity.
  - destruct (6 <=? _)%nat.
    + destruct (estimatePosePnP _ _ _ _) as [ok s'] eqn:Hpnp.
      intros [= <-].
      pose proof (estimatePosePnP_mapCore s (map fst (pnpPairs s kps (matchWithMap cv s descs)))
                    (map snd (pnpPairs s kps (matchWithMap cv s descs)))) as H.
      rewrite Hpnp in H. exact H.
    + intros [= <-]. reflexivity.
Qed.

Lemma trackPlanes_cores s frame rd :
  mapCore (trackPlanes s frame rd) = mapCore s /\
  poseCore (trackPlanes s frame rd) = poseCore s.
Proof.
  unfold trackPlanes. destruct (_ && _); split; reflexivity.
Qed.

Lemma trackTargets_cores s frame :
  mapCore (trackTargets cv s frame) = mapCore s /\
  poseCore (trackTargets cv s frame) = poseCore s.
Proof.
  unfold trackTargets. destruct (_ && _); split; reflexivity.
Qed.

Lemma needNewKeyFrame_ext a b :
  keyframes a = keyframes b -> frameCount a = frameCount b ->
  currentPose a = currentPose b -> needNewKeyFrame a = needNewKeyFrame b.
Proof.
  intros Hk Hf Hp. unfold needNewKeyFrame. rewrite Hk, Hf, Hp. reflexivity.
Qed.

Lemma track_spec s frame rd :
  let s' := snd (track cv s frame rd) in
  fst (track cv s frame rd) = tracking s' /\
  frameCount s' = frameCount s /\ initialized s' = initialized s /\
  (if keyframeDecision s s'
   then length (keyframes s') = S (length (keyframes s))
   else keyframes s' = keyframes s /\ mapPoints s' = mapPoints s
        /\ nextMapPointId s' = nextMapPointId s) /\
  (mapFresh (mapPoints s) (nextMapPointId s) ->
   mapFresh (mapPoints s') (nextMapPointId s') /\ mapPoints s ⊆ mapPoints s').
Proof.
  unfold track. destruct (extractFeatures cv frame) as [kps descs].
  assert (Hearly :
    let s' := set_tracking false s in
    false = tracking s' /\
    frameCount s' = frameCount s /\ initialized s' = initialized s /\
    (if keyframeDecision s s'
     then length (keyframes s') = S (length (keyframes s))
     else keyframes s' = keyframes s /\ mapPoints s' = mapPoints s
          /\ nextMapPointId s' = nextMapPointId s) /\
    (mapFresh (mapPoints s) (nextMapPointId s) ->
     mapFresh (mapPoints s') (nextMapPointId s') /\ mapPoints s ⊆ mapPoints s')).
  { cbn. do 3 (split; [reflexivity|]). split; [repeat split|].
    intros H. split; [exact H | reflexivity]. }
  destruct (_ <? MIN_TRACKING_MATCHES)%nat; [exact Hearly|].
  destruct (trackPose cv s kps descs) as [s1|] eqn:Hpose; [|exact Hearly].
  clear Hearly. apply trackPose_mapCore in Hpose.
  unfold mapCore in Hpose. injection Hpose as Hm Hn Hk Hf Hi.
  cbn [fst snd].
  set (s2 := trackKeyFrame cv s1 frame).
  set (s3 := trackPlanes s2 frame rd).
  set (s4 := trackTargets cv s3 frame).
  destruct (trackPlanes_cores s2 frame rd) as [Hm3 Hp3].
  destruct (trackTargets_cores s3 frame) as [Hm4 Hp4].
  fold s3 in Hm3, Hp3. fold s4 in Hm4, Hp4.
  unfold mapCore in Hm3, Hm4. unfold poseCore in Hp3, Hp4.
  injection Hm3 as Hm3 Hn3 Hk3 Hf3 Hi3. injection Hm4 as Hm4 Hn4 Hk4 Hf4 Hi4.
  injection Hp3 as Hc3 Ht3. injection Hp4 as Hc4 Ht4.
  unfold keyframeDecision.
  cbn [tracking currentPose mapPoints nextMapPointId keyframes frameCount
       initialized cachePrev].
  rewrite Hm4, Hn4, Hk4, Hf4, Hi4, Hc4, Ht4, Hm3, Hn3, Hk3, Hf3, Hi3, Hc3, Ht3.
  subst s2. unfold trackKeyFrame.
  destruct (tracking s1 && needNewKeyFrame s1) eqn:Hdec.
  - destruct (createKeyFrame_spec s1 frame)
      as ((Hcp & Htr & Hin & Hfc & _) & Hlen & Hfresh).
    rewrite Hcp, Htr, Hin, Hfc, Hlen.
    rewrite (needNewKeyFrame_ext (set_currentPose (currentPose s1) s) s1)
      by (cbn; congruence).
    rewrite Hdec. rewrite Hf, Hi, Hk.
    do 4 (split; [reflexivity|]).
    rewrite <- Hm, <- Hn. exact Hfresh.
  - rewrite (needNewKeyFrame_ext (set_currentPose (currentPose s1) s) s1)
      by (cbn; congruence).
    rewrite Hdec. rewrite Hf, Hi, Hk, Hm, Hn.
    do 3 (split; [reflexivity|]). split; [repeat split|].
    intros H. split; [exact H | reflexivity].
Qed.

(** *** What [initialize] does to the map *)

Lemma initialize_spec s frame :
  let s' := snd (initialize cv s frame) in
  frameCount s' = frameCount s /\
  (fst (initialize cv s frame) = false ->
   mapPoints s' = mapPoints s /\ initialized s' = initialized s
   /\ keyframes s' = keyframes s) /\
  (initialized s' = true -> initialized s = true \/ keyframes s' <> []) /\
  (mapFresh (mapPoints s) (nextMapPointId s) ->
   mapFresh (mapPoints s') (nextMapPointId s') /\ mapPoints s ⊆ mapPoints s').
Proof.
  assert (Hsame : forall s0 : t,
    mapPoints s0 = mapPoints s -> nextMapPointId s0 = nextMapPointId s ->
    initialized s0 = initialized s -> keyframes s0 = keyframes s ->
    frameCount s0 = frameCount s ->
    forall b,
    frameCount s0 = frameCount s /\
    (b = false ->
     mapPoints s0 = mapPoints s /\ initialized s0 = initialized s
     /\ keyframes s0 = keyframes s) /\
    (initialized s0 = true -> initialized s = true \/ keyframes s0 <> []) /\
    (mapFresh (mapPoints s) (nextMapPointId s) ->
     mapFresh (mapPoints s0) (nextMapPointId s0) /\ mapPoints s ⊆ mapPoints s0)).
  { intros s0 Hm Hn Hi Hk Hf b. rewrite Hm, Hn, Hi, Hk, Hf.
    split; [reflexivity|]. split; [intros _; repeat split|].
    split; [intros H; left; exact H|].
    intros H. split; [exact H | reflexivity]. }
  unfold initialize. destruct (extractFeatures cv frame) as [kps descs].
  destruct (_ <? MIN_INIT_MATCHES)%nat; [apply Hsame; reflexivity|].
  destruct (Image_empty (prevFrame s)); [apply Hsame; reflexivity|].
  destruct (_ <? MIN_INIT_MATCHES)%nat; [apply Hsame; reflexivity|].
  destruct (_ <? MIN_INIT_MATCHES / 2)%nat; [apply Hsame; reflexivity|].
  destruct (findEssentialMat _ _ _ _ _ _) as [E mask].
  destruct (Mat_empty E); [apply Hsame; reflexivity|].
  destruct (recoverPose _ _ _ _ _ _) as [[[inl R] tr] mask'].
  destruct (inl <? 30)%Z; [apply Hsame; reflexivity|].
  destruct (triangulateNewPoints _ _ _ _) as [[s2 kf1'] kf2'] eqn:Htri.
  apply triangulateNewPoints_spec in Htri
    as ((_ & _ & _ & Hfc & _) & _ & Hfresh).
  cbn. split; [rewrite Hfc; reflexivity|].
  split; [discriminate|]. split.
  - intros _. right. intros Hnil. apply app_eq_nil in Hnil as [_ Hnil].
    discriminate.
  - exact Hfresh.
Qed.

Lemma addImageTarget_cores s im nm w :
  mapCore (snd (addImageTarget cv s im nm w)) = mapCore s /\
  poseCore (snd (addImageTarget cv s im nm w)) = poseCore s.
Proof.
  unfold addImageTarget.
  destruct (ImageTargetTracker.addTarget _ _ _ _ _ _) as [i tr].
  split; reflexivity.
Qed.

Lemma goodMatches_all (ms : list DMatch) :
  Forall (fun m => distance m <= 30)%R ms -> goodMatchesOf ms = ms.
Proof.
  intros Hall. unfold goodMatchesOf. apply filter_all.
  eapply Forall_impl; [exact Hall|]. simpl. intros m Hm.
  eapply Rle_trans; [exact Hm | apply Rmax_r].
Qed.

(** The failing paths of [initialize] once a previous frame is cached
    and the new frame has features enough: a shortage of raw matches
    caches the new frame; a shortage of good matches, an empty essential
    matrix and a shortage of inliers leave the system as it is. *)
Lemma initialize_failures s frame :
  let kps := fst (extractFeatures cv frame) in
  let descs := snd (extractFeatures cv frame) in
  let matches := matchGuarded cv (prevDescriptors s) descs in
  let good := goodMatchesOf matches in
  let pts1 := pts1Of (prevKeypoints s) good in
  let pts2 := pts2Of kps good in
  let em := findEssentialMat cv pts1 pts2 (K s) (999 / 1000)%R 1%R in
  let rp := recoverPose cv (fst em) pts1 pts2 (K s) (snd em) in
  (length kps <? MIN_INIT_MATCHES)%nat = false ->
  Image_empty (prevFrame s) = false ->
  ((length matches < 100)%nat ->
   initialize cv s frame = (false, cachePrev frame kps descs s)) /\
  ((100 <= length matches)%nat ->
   (length good < 50)%nat \/ Mat_empty (fst em) = true
   \/ (rp.1.1.1 < 30)%Z ->
   initialize cv s frame = (false, s)).
Proof.
  intros kps descs matches good pts1 pts2 em rp Hk Hp.
  subst kps descs matches good pts1 pts2 em rp.
  unfold initialize. destruct (extractFeatures cv frame) as [kps descs].
  cbn [fst snd] in *. rewrite Hk, Hp. split.
  - intros Hlt. apply Nat.ltb_lt in Hlt. unfold MIN_INIT_MATCHES at 1.
    rewrite Hlt. reflexivity.
  - intros Hge Hfail. apply Nat.ltb_ge in Hge. unfold MIN_INIT_MATCHES at 1.
    rewrite Hge.
    change (MIN_INIT_MATCHES / 2)%nat with 50%nat.
    destruct (_ <? 50)%nat eqn:Hgood; [reflexivity|].
    apply Nat.ltb_ge in Hgood.
    destruct (findEssentialMat _ _ _ _ _ _) as [E mask]. cbn [fst snd] in *.
    destruct (Mat_empty E) eqn:HE; [reflexivity|].
    destruct (recoverPose _ _ _ _ _ _) as [[[inl R] tr] mask'].
    cbn [fst snd] in *.
    destruct (inl <? 30)%Z eqn:Hinl; [reflexivity|].
    apply Z.ltb_ge in Hinl.
    destruct Hfail as [Hf|[Hf|Hf]]; [lia | discriminate | lia].
Qed.

(** The successful path of [initialize]. *)
Lemma initialize_success s frame kps descs E mask inl R tr mask' :
  extractFeatures cv frame = (kps, descs) ->
  (length kps <? MIN_INIT_MATCHES)%nat = false ->
  Image_empty (prevFrame s) = false ->
  (length (matchGuarded cv (prevDescriptors s) descs) <? MIN_INIT_MATCHES)%nat
  = false ->
  (length (goodMatchesOf (matchGuarded cv (prevDescriptors s) descs))
   <? MIN_INIT_MATCHES / 2)%nat = false ->
  findEssentialMat cv
    (pts1Of (prevKeypoints s)
            (goodMatchesOf (matchGuarded cv (prevDescriptors s) descs)))
    (pts2Of kps (goodMatchesOf (matchGuarded cv (prevDescriptors s) descs)))
    (K s) (999 / 1000)%R 1%R = (E, mask) ->
  Mat_empty E = false ->
  recoverPose cv E
    (pts1Of (prevKeypoints s)
            (goodMatchesOf (matchGuarded cv (prevDescriptors s) descs)))
    (pts2Of kps (goodMatchesOf (matchGuarded cv (prevDescriptors s) descs)))
    (K s) mask = (inl, R, tr, mask') ->
  (inl <? 30)%Z = false ->
  fst (initialize cv s frame) = true /\
  initialized (snd (initialize cv s frame)) = true /\
  tracking (snd (initialize cv s frame)) = true /\
  currentPose (snd (initialize cv s frame)) = M.poseOf R tr.
Proof.
  intros Hx Hk Hp Hm Hg He Hne Hr Hi. unfold initialize.
  rewrite Hx, Hk, Hp, Hm, Hg, He, Hne, Hr, Hi.
  destruct (triangulateNewPoints _ _ _ _) as [[s2 kf1'] kf2'].
  repeat split.
Qed.

(** The map it leaves. *)
Lemma initialize_success_map s frame kps descs E mask inl R tr mask' :
  extractFeatures cv frame = (kps, descs) ->
  (length kps <? MIN_INIT_MATCHES)%nat = false ->
  Image_empty (prevFrame s) = false ->
  (length (matchGuarded cv (prevDescriptors s) descs) <? MIN_INIT_MATCHES)%nat
  = false ->
  (length (goodMatchesOf (matchGuarded cv (prevDescriptors s) descs))
   <? MIN_INIT_MATCHES / 2)%nat = false ->
  findEssentialMat cv
    (pts1Of (prevKeypoints s)
            (goodMatchesOf (matchGuarded cv (prevDescriptors s) descs)))
    (pts2Of kps (goodMatchesOf (matchGuarded cv (prevDescriptors s) descs)))
    (K s) (999 / 1000)%R 1%R = (E, mask) ->
  Mat_empty E = false ->
  recoverPose cv E
    (pts1Of (prevKeypoints s)
            (goodMatchesOf (matchGuarded cv (prevDescriptors s) descs)))
    (pts2Of kps (goodMatchesOf (matchGuarded cv (prevDescriptors s) descs)))
    (K s) mask = (inl, R, tr, mask') ->
  (inl <? 30)%Z = false ->
  let kf1 := KeyFrame_new (nextKeyFrameId s) (prevFrame s) (M.eye 4)
                          (prevKeypoints s) (prevDescriptors s) in
  let kf2 := KeyFrame_new (nextKeyFrameId s + 1) frame (M.poseOf R tr)
                          kps descs in
  let s1 := set_keyframes (keyframes s ++ [kf1; kf2])
              (set_nextKeyFrameId (nextKeyFrameId s + 2) s) in
  mapPoints (snd (initialize cv s frame))
  = tri_mapPoints
      (fold_left (triangulateStep cv (projectionOf s1 kf1) (projectionOf s1 kf2))
                 (matchGuarded cv (kf_descriptors kf1) (kf_descriptors kf2))
                 (mkTri kf1 kf2 (mapPoints s) (nextMapPointId s))).
Proof.
  intros Hx Hk Hp Hm Hg He Hne Hr Hi kf1 kf2 s1. unfold initialize.
  rewrite Hx, Hk, Hp, Hm, Hg, He, Hne, Hr, Hi.
  fold kf1. fold kf2. fold s1. unfold triangulateNewPoints. reflexivity.
Qed.

(** *** Invariants of the tracker over any sequence of calls *)

Lemma processFrame_spec s frame rd :
  let s' := snd (processFrame cv s frame rd) in
  wellFormed s ->
  wellFormed s' /\ mapPoints s ⊆ mapPoints s' /\
  (fst (processFrame cv s frame rd) = false -> mapPoints s' = mapPoints s).
Proof.
  intros s' [Hfresh Hkf]. subst s'. unfold processFrame.
  set (s0 := set_frameCount (frameCount s + 1) s).
  assert (Hfresh0 : mapFresh (mapPoints s0) (nextMapPointId s0)) by exact Hfresh.
  change (initialized s0) with (initialized s).
  destruct (initialized s) eqn:Hinit; cbn [negb].
  - destruct (track_spec s0 frame rd) as (Hok & _ & Hi & Hdec & Hmap).
    destruct (Hmap Hfresh0) as [Hf' Hsub].
    split; [split|split].
    + exact Hf'.
    + intros _. destruct (keyframeDecision s0 _).
      * intros Hnil. rewrite Hnil in Hdec. discriminate.
      * destruct Hdec as (-> & _). apply Hkf. reflexivity.
    + exact Hsub.
    + rewrite Hok. intros Hfalse. unfold keyframeDecision in Hdec.
      rewrite Hfalse in Hdec. apply Hdec.
  - destruct (initialize_spec s0 frame) as (_ & Hfalse & Hi & Hmap).
    destruct (Hmap Hfresh0) as [Hf' Hsub].
    split; [split|split].
    + exact Hf'.
    + intros Hi'. destruct (Hi Hi') as [Habs|Hne]; [|exact Hne].
      change (initialized s0) with (initialized s) in Habs. congruence.
    + exact Hsub.
    + intros Hf. apply Hfalse in Hf. apply Hf.
Qed.

Lemma step_wellFormed s c :
  wellFormed s -> wellFormed (step cv s c) /\ mapPoints s ⊆ mapPoints (step cv s c).
Proof.
  intros Hwf. destruct c as [frame rd | im nm w]; cbn [step].
  - destruct (processFrame_spec s frame rd Hwf) as (H1 & H2 & _). split; assumption.
  - destruct (addImageTarget_cores s im nm w) as [Hm _].
    unfold mapCore in Hm. injection Hm as Hm Hn Hk _ Hi.
    unfold wellFormed. rewrite Hm, Hn, Hk, Hi. split; [exact Hwf | reflexivity].
Qed.

Lemma new_wellFormed : wellFormed SLAMSystem.new.
Proof.
  split; [apply map_Forall_empty | discriminate].
Qed.

Lemma run_wellFormed calls : wellFormed (run cv calls).
Proof.
  unfold run. generalize new_wellFormed. generalize SLAMSystem.new.
  induction calls as [|c calls IH]; intros s Hwf; simpl; [exact Hwf|].
  apply IH. apply step_wellFormed. exact Hwf.
Qed.

(** [translationDistance] is the Euclidean distance of the translation
    columns, for poses of at least three rows of four entries. *)
Lemma translationDistance_euclidean
    (a00 a01 a02 ax a10 a11 a12 ay a20 a21 a22 az : R) (arest : Mat)
    (b00 b01 b02 bx b10 b11 b12 by_ b20 b21 b22 bz : R) (brest : Mat) :
  translationDistance
    ([a00; a01; a02; ax] :: [a10; a11; a12; ay] :: [a20; a21; a22; az] :: arest)
    ([b00; b01; b02; bx] :: [b10; b11; b12; by_] :: [b20; b21; b22; bz] :: brest)
  = sqrt ((bx - ax) * (bx - ax) + (by_ - ay) * (by_ - ay)
          + (bz - az) * (bz - az))%R.
Proof.
  unfold translationDistance, translationOf, M.norm.
  cbv -[Rplus Rmult Rminus Ropp sqrt IZR]. f_equal. ring.
Qed.


(** *** Loop closure *)

Lemma bestLoop_spec (currentKF : KeyFrame) (cands : list (nat * KeyFrame)) :
  let b := fold_left (loopStep cv currentKF) cands ((-1)%Z, 0%Z) in
  (b.1 = (-1)%Z /\ b.2 = 0%Z /\
   Forall (fun c => goodCount cv c.2 currentKF <= 50)%Z cands) \/
  (exists c, c ∈ cands /\ b.1 = Z.of_nat c.1 /\
             b.2 = goodCount cv c.2 currentKF /\ (50 < b.2)%Z /\
             Forall (fun c' => goodCount cv c'.2 currentKF <= b.2)%Z cands).
Proof.
  induction cands as [|x cands IH] using rev_ind; cbn zeta.
  - left. repeat split. constructor.
  - rewrite fold_left_app. cbn [fold_left].
    set (b := fold_left _ cands _) in *. cbn zeta in IH.
    unfold loopStep. set (g := goodCount cv x.2 currentKF).
    destruct ((b.2 <? g)%Z && (50 <? g)%Z) eqn:Hup.
    + apply andb_true_iff in Hup as [Hlt Hbig].
      apply Z.ltb_lt in Hlt. apply Z.ltb_lt in Hbig.
      right. exists x. cbn [fst snd].
      split; [apply elem_of_app; right; apply list_elem_of_here|].
      do 3 (split; [reflexivity || assumption|]).
      apply Forall_app. split; [|constructor; [fold g; lia | constructor]].
      destruct IH as [(_ & _ & Hall) | (c & _ & _ & _ & _ & Hall)];
        (eapply Forall_impl; [exact Hall|]); simpl; intros c' Hc'; lia.
    + apply andb_false_iff in Hup.
      assert (Hg : (g <= b.2 \/ g <= 50)%Z).
      { destruct Hup as [H|H]; apply Z.ltb_ge in H; [left|right]; exact H. }
      destruct IH as [(H1 & H2 & Hall) | (c & Hin & H1 & H2 & H3 & Hall)].
      * left. do 2 (split; [assumption|]).
        apply Forall_app. split; [exact Hall|].
        constructor; [fold g; lia | constructor].
      * right. exists c. split; [apply elem_of_app; left; exact Hin|].
        do 3 (split; [assumption|]).
        apply Forall_app. split; [exact Hall|].
        constructor; [fold g; lia | constructor].
Qed.

Lemma loopCandidates_elem s i kf :
  (i, kf) ∈ loopCandidates s <->
  (i + 5 < length (keyframes s))%nat /\ keyframes s !! i = Some kf.
Proof.
  unfold loopCandidates. rewrite list_elem_of_lookup. split.
  - intros (j & Hj). rewrite list_lookup_imap in Hj.
    destruct (take _ _ !! j) as [kf'|] eqn:Hl; [|discriminate].
    injection Hj as <- <-.
    pose proof (lookup_lt_Some _ _ _ Hl) as Hlt. rewrite length_take in Hlt.
    rewrite lookup_take_lt in Hl by lia. split; [lia | exact Hl].
  - intros [Hi Hl]. exists i. rewrite list_lookup_imap.
    rewrite lookup_take_lt by lia. rewrite Hl. reflexivity.
Qed.

Lemma detectLoopClosure_reports s currentKF :
  fst (detectLoopClosure cv s currentKF) = true <->
  exists i kf, (i + 5 < length (keyframes s))%nat /\
               keyframes s !! i = Some kf /\
               (50 < goodCount cv kf currentKF)%Z.
Proof.
  unfold detectLoopClosure, bestLoopMatch.
  destruct (bestLoop_spec currentKF (loopCandidates s))
    as [(H1 & _ & Hall) | ([i kf] & Hin & H1 & H2 & H3 & _)];
    cbn zeta in *; rewrite H1.
  - split; [discriminate|]. intros (i & kf & Hi & Hl & Hbig). exfalso.
    rewrite Forall_forall in Hall.
    specialize (Hall (i, kf)). cbn in Hall.
    assert (goodCount cv kf currentKF <= 50)%Z; [|lia].
    apply Hall. apply loopCandidates_elem. split; assumption.
  - cbn [fst snd] in *.
    destruct (0 <=? Z.of_nat i)%Z eqn:Hnn; [|apply Z.leb_gt in Hnn; lia].
    split; [|reflexivity]. intros _. exists i, kf.
    apply loopCandidates_elem in Hin as [Hi Hl].
    do 2 (split; [assumption|]). rewrite <- H2. exact H3.
Qed.

(** C4 as amended.  [createKeyFrame] consults the loop-closure detection
    only when the keyframe count exceeds 10.  With [n] the index of the
    keyframe just inserted (so that there are [n + 1] keyframes, more than
    ten), the keyframes compared with it are exactly those of index
    [i < n - 4]; the count of a candidate is the number of its matches at
    Hamming distance below 40; a loop is reported exactly when some
    candidate has a count above 50, and the candidate kept then has the
    highest count of all; the detection, bundle-adjustment hook included,
    leaves the system as it is. *)
Theorem C4_loop_closure (s : t) (n : nat) (currentKF : KeyFrame) :
  length (keyframes s) = S n -> (10 < S n)%nat ->
  (forall s0 frame,
      createKeyFrame cv s0 frame
      = let '(s2, kf') := insertKeyFrame cv s0 frame in
        if (10 <? length (keyframes s2))%nat
        then snd (detectLoopClosure cv s2 kf') else s2) /\
  (forall i kf, (i, kf) ∈ loopCandidates s <->
                (i + 4 < n)%nat /\ keyframes s !! i = Some kf) /\
  (forall kf, goodCount cv kf currentKF
              = Z.of_nat (length (filter (fun m => distance m < 40)%R
                                (matchGuarded cv (kf_descriptors kf)
                                              (kf_descriptors currentKF))))) /\
  (fst (detectLoopClosure cv s currentKF) = true <->
   exists i kf, (i + 4 < n)%nat /\ keyframes s !! i = Some kf /\
                (50 < goodCount cv kf currentKF)%Z) /\
  (fst (detectLoopClosure cv s currentKF) = true ->
   exists i kf, (i + 4 < n)%nat /\ keyframes s !! i = Some kf /\
                bestLoopMatch cv s currentKF
                = (Z.of_nat i, goodCount cv kf currentKF) /\
                forall j kf', (j + 4 < n)%nat -> keyframes s !! j = Some kf' ->
                              (goodCount cv kf' currentKF
                               <= goodCount cv kf currentKF)%Z) /\
  snd (detectLoopClosure cv s currentKF) = s /\
  localBundleAdjustment s = s.
Proof.
  intros Hlen Hn.
  split; [reflexivity|].
  split; [intros i kf; rewrite loopCandidates_elem, Hlen; split;
          intros [? ?]; split; (lia || assumption)|].
  split; [reflexivity|].
  split.
  { rewrite detectLoopClosure_reports. rewrite Hlen.
    split; intros (i & kf & Hi & Hrest); exists i, kf; split;
      (lia || assumption). }
  split; [|split; [apply detectLoopClosure_state | reflexivity]].
  unfold detectLoopClosure, bestLoopMatch.
  destruct (bestLoop_spec currentKF (loopCandidates s))
    as [(H1 & _ & _) | ([i kf] & Hin & H1 & H2 & H3 & Hall)];
    cbn zeta in *.
  - rewrite H1. discriminate.
  - intros _. exists i, kf. cbn [fst snd] in *.
    apply loopCandidates_elem in Hin as [Hi Hl]. rewrite Hlen in Hi.
    split; [lia|]. split; [exact Hl|]. split.
    + rewrite <- H2, <- H1. destruct (fold_left _ _ _); reflexivity.
    + intros j kf' Hj Hl'. rewrite <- H2.
      rewrite Forall_forall in Hall. apply (Hall (j, kf')).
      apply loopCandidates_elem. rewrite Hlen. split; [lia | exact Hl'].
Qed.

(** C10.  After any sequence of calls, no map point is marked bad; a
    further frame keeps every map point as it is (so its [isBad] flag is
    unchanged), and when the call reports a tracking failure the whole map
    (count and flags) is what it was. *)
Theorem C10_map_survives_tracking_loss
    (calls : list Call) (frame : Image) (rd : nat -> nat -> nat) :
  let s := run cv calls in
  let s' := snd (processFrame cv s frame rd) in
  (forall i mp, mapPoints s !! i = Some mp ->
                isBad mp = false /\ mapPoints s' !! i = Some mp) /\
  (fst (processFrame cv s frame rd) = false ->
   mapPoints s' = mapPoints s /\ getMapPointCount s' = getMapPointCount s).
Proof.
  intros s s'.
  pose proof (run_wellFormed calls) as Hwf. fold s in Hwf.
  destruct (processFrame_spec s frame rd Hwf) as (_ & Hsub & Hfalse).
  fold s' in Hsub, Hfalse. split.
  - intros i mp Hl. split.
    + destruct Hwf as [Hfresh _]. apply Hfresh in Hl. apply Hl.
    + eapply lookup_weaken; eassumption.
  - intros Hf. specialize (Hfalse Hf). split; [exact Hfalse|].
    unfold getMapPointCount. rewrite Hfalse. reflexivity.
Qed.

End Slam.

(** ** The tracker on the fixtures *)

Section SlamFixtures.
Import SLAMSystem Fixtures.

Lemma diagMatches_length n : length (diagMatches n) = n.
Proof. unfold diagMatches. rewrite length_map, length_seq. reflexivity. Qed.

Lemma diagMatches_near n : Forall (fun m => distance m <= 30)%R (diagMatches n).
Proof.
  unfold diagMatches. apply Forall_forall. intros m Hm.
  apply list_elem_of_fmap in Hm as (i & -> & _). simpl. lra.
Qed.

(** The first textured frame is cached. *)
Lemma first_frame :
  processFrame cv0 SLAMSystem.new frameA noDraws
  = (true, cachePrev frameA (replicate 100 KeyPoint_dflt) (replicate 100 desc0)
             (set_frameCount 1 SLAMSystem.new)).
Proof. reflexivity. Qed.

(** The second one initialises the tracker, a unit step along x away. *)
Lemma second_frame :
  let s := run cv0 twoFrames in
  initialized s = true /\ tracking s = true /\ currentPose s = stepX.
Proof.
  unfold run, twoFrames. cbn [fold_left step]. rewrite first_frame. cbn [snd].
  set (s1 := cachePrev _ _ _ _). unfold processFrame.
  set (s1' := set_frameCount _ s1).
  change (initialized s1') with false. cbn [negb].
  assert (Hm : matchGuarded cv0 (prevDescriptors s1') (replicate 100 desc0)
               = diagMatches 100) by reflexivity.
  assert (Hg : goodMatchesOf (diagMatches 100) = diagMatches 100)
    by (apply goodMatches_all, diagMatches_near).
  destruct (initialize_success cv0 s1' frameB
              (replicate 100 KeyPoint_dflt) (replicate 100 desc0)
              (M.eye 3)
              (map (fun _ => 1%Z)
                   (pts1Of (prevKeypoints s1') (diagMatches 100)))
              100%Z (M.eye 3) [[1]; [0]; [0]]%R
              (map (fun _ => 1%Z)
                   (pts1Of (prevKeypoints s1') (diagMatches 100))))
    as (_ & Hi & Ht & Hc).
  - reflexivity.
  - reflexivity.
  - reflexivity.
  - rewrite Hm, diagMatches_length. reflexivity.
  - rewrite Hm, Hg, diagMatches_length. reflexivity.
  - rewrite Hm, Hg. reflexivity.
  - reflexivity.
  - rewrite Hm, Hg. unfold cv0 at 1. cbn [recoverPose].
    unfold pts1Of at 1. rewrite length_map, diagMatches_length. reflexivity.
  - reflexivity.
  - split; [exact Hi|]. split; [exact Ht|]. rewrite Hc. reflexivity.
Qed.

(** It leaves a map point of id 0 in the map. *)
Lemma second_frame_map :
  exists mp, mapPoints (run cv0 twoFrames) !! 0%Z = Some mp.
Proof.
  unfold run, twoFrames. cbn [fold_left step]. rewrite first_frame. cbn [snd].
  set (s1 := cachePrev _ _ _ _). unfold processFrame.
  set (s1' := set_frameCount _ s1).
  change (initialized s1') with false. cbn [negb].
  assert (Hm : matchGuarded cv0 (prevDescriptors s1') (replicate 100 desc0)
               = diagMatches 100) by reflexivity.
  assert (Hg : goodMatchesOf (diagMatches 100) = diagMatches 100)
    by (apply goodMatches_all, diagMatches_near).
  rewrite (initialize_success_map cv0 s1' frameB
             (replicate 100 KeyPoint_dflt) (replicate 100 desc0)
             (M.eye 3)
             (map (fun _ => 1%Z)
                  (pts1Of (prevKeypoints s1') (diagMatches 100)))
             100%Z (M.eye 3) [[1]; [0]; [0]]%R
             (map (fun _ => 1%Z)
                  (pts1Of (prevKeypoints s1') (diagMatches 100)))).
  - set (kf1 := KeyFrame_new _ _ _ _ _).
    set (kf2 := KeyFrame_new _ _ _ _ _).
    set (P1 := projectionOf _ kf1). set (P2 := projectionOf _ kf2).
    change (matchGuarded cv0 (kf_descriptors kf1) (kf_descriptors kf2))
      with (mkDMatch 0 0 0
            :: map (fun i => mkDMatch (Z.of_nat i) (Z.of_nat i) 0) (seq 1 99)).
    rewrite fold_left_cons_eq.
    set (r0 := mkTri kf1 kf2 (mapPoints s1') (nextMapPointId s1')).
    assert (Hfresh0 : mapFresh (tri_mapPoints r0) (tri_nextId r0))
      by apply map_Forall_empty.
    destruct (triangulateStep_fresh cv0 P1 P2 r0 (mkDMatch 0 0 0) Hfresh0)
      as (Hfresh1 & _ & _).
    assert (Hfirst : exists mp,
               tri_mapPoints (triangulateStep cv0 P1 P2 r0 (mkDMatch 0 0 0))
               !! 0%Z = Some mp).
    { unfold triangulateStep.
      change (pts4DOf cv0 P1 P2 (tri_kf1 r0) (tri_kf2 r0) (mkDMatch 0 0 0))
        with [[0]; [0]; [1]; [1]]%R.
      cbn [distance].
      destruct (decide (0 > 50)%R) as [H|_]; [lra|].
      change (0 <=? vat (-1) (mapPointIds (tri_kf1 r0))
                        (queryIdx (mkDMatch 0 0 0)))%Z with false.
      cbv iota.
      change (M.at_ [[0]; [0]; [1]; [1]]%R 3 0) with 1%R.
      rewrite Rabs_R1.
      destruct (decide (1 < 1 / 1000000)%R) as [H|_]; [lra|].
      change (pz (worldPtOf [[0]; [0]; [1]; [1]]%R)) with (1 / 1)%R.
      destruct (decide (1 / 1 < 0)%R) as [H|_]; [lra|].
      eexists. cbn [tri_mapPoints]. apply lookup_insert_eq. }
    destruct Hfirst as [mp Hmp]. exists mp.
    destruct (triangulateLoop_fresh cv0 P1 P2
                (map (fun i => mkDMatch (Z.of_nat i) (Z.of_nat i) 0) (seq 1 99))
                _ Hfresh1) as [_ Hsub].
    eapply lookup_weaken; eassumption.
  - reflexivity.
  - reflexivity.
  - reflexivity.
  - rewrite Hm, diagMatches_length. reflexivity.
  - rewrite Hm, Hg, diagMatches_length. reflexivity.
  - rewrite Hm, Hg. reflexivity.
  - reflexivity.
  - rewrite Hm, Hg. unfold cv0 at 1. cbn [recoverPose].
    unfold pts1Of at 1. rewrite length_map, diagMatches_length. reflexivity.
  - reflexivity.
Qed.

(** A blank frame then loses tracking. *)
Lemma blank_frame_fails (s : SLAMSystem.t) :
  initialized s = true -> fst (processFrame cv0 s blank noDraws) = false.
Proof.
  intros Hinit. unfold processFrame.
  change (initialized (set_frameCount (frameCount s + 1) s))
    with (initialized s).
  rewrite Hinit. reflexivity.
Qed.

Lemma C10_map_survives_tracking_loss_witness :
  let s := run cv0 twoFrames in
  let r := processFrame cv0 s blank noDraws in
  fst r = false /\
  (exists mp, mapPoints s !! 0%Z = Some mp /\ isBad mp = false
              /\ mapPoints (snd r) !! 0%Z = Some mp) /\
  getMapPointCount (snd r) = getMapPointCount s.
Proof.
  intros s r.
  assert (Hfail : fst r = false)
    by (apply blank_frame_fails, second_frame).
  destruct (C10_map_survives_tracking_loss cv0 twoFrames blank noDraws)
    as [Hkeep Hloss].
  split; [exact Hfail|]. split.
  - destruct second_frame_map as [mp Hmp]. exists mp.
    destruct (Hkeep 0%Z mp Hmp) as [Hbad Hstill].
    split; [exact Hmp|]. split; [exact Hbad | exact Hstill].
  - apply Hloss. exact Hfail.
Defined.

(** *** A failed initialisation on a shortage of good matches *)

Lemma minDist_stays_zero (ms : list DMatch) :
  Forall (fun m => 0 <= distance m)%R ms ->
  fold_left (fun minDist m =>
               if decide (distance m < minDist)%R then distance m else minDist)
            ms 0%R = 0%R.
Proof.
  induction 1 as [|m ms Hm _ IH]; simpl; [reflexivity|].
  destruct (decide (distance m < 0)%R); [lra | exact IH].
Qed.

Lemma nearFar_minDist k : minDistOf (nearFar (S k)) = 0%R.
Proof.
  unfold minDistOf, nearFar. rewrite fold_left_cons_eq. cbn [distance].
  destruct (decide (0 < 100)%R); [|lra].
  apply minDist_stays_zero. apply Forall_forall. intros m Hm.
  apply list_elem_of_fmap in Hm as (i & -> & _). simpl. lra.
Qed.

Lemma nearFar_good k : goodMatchesOf (nearFar (S k)) = [mkDMatch 0 0 0].
Proof.
  unfold goodMatchesOf. rewrite nearFar_minDist.
  assert (Hmax : Rmax (2 * 0) 30 = 30%R) by (apply Rmax_right; lra).
  rewrite Hmax. unfold nearFar.
  rewrite filter_cons_True by (simpl; lra). f_equal.
  induction (seq 1 k) as [|i l IH]; [reflexivity|].
  simpl map. rewrite filter_cons_False by (simpl; lra). exact IH.
Qed.

(** C1, the code at a failing input.  With frame A cached, frame B is
    delivered and the matcher returns a hundred matches of which one is
    good: the call returns [false] and the tracker stays uninitialised, but
    the cached frame, keypoints and descriptors are still those of frame A;
    frame B has not replaced them. *)
Theorem C1_good_match_shortage_keeps_old_frame :
  let s1 := run cvFar [Frame frameA noDraws] in
  let r := processFrame cvFar s1 frameB noDraws in
  prevFrame s1 = frameA /\
  fst r = false /\ initialized (snd r) = false /\
  prevFrame (snd r) = frameA /\ prevFrame (snd r) <> frameB /\
  prevKeypoints (snd r) = prevKeypoints s1 /\
  prevDescriptors (snd r) = prevDescriptors s1.
Proof.
  intros s1 r. subst r.
  assert (Hs1 : s1 = cachePrev frameA (replicate 100 KeyPoint_dflt)
                       (replicate 100 desc0) (set_frameCount 1 SLAMSystem.new))
    by reflexivity.
  clearbody s1. subst s1.
  set (s1 := cachePrev _ _ _ _).
  assert (Hr : processFrame cvFar s1 frameB noDraws = (false, set_frameCount 2 s1)).
  { unfold processFrame.
    change (set_frameCount (frameCount s1 + 1) s1) with (set_frameCount 2 s1).
    set (s1' := set_frameCount 2 s1).
    change (initialized s1') with false. cbn [negb].
    assert (Hm : matchGuarded cvFar (prevDescriptors s1')
                   (snd (extractFeatures cvFar frameB)) = nearFar 100)
      by reflexivity.
    destruct (initialize_failures cvFar s1' frameB) as [_ Hlate];
      [reflexivity | reflexivity |].
    apply Hlate.
    - rewrite Hm. reflexivity.
    - left. rewrite Hm, nearFar_good. simpl. lia. }
  rewrite Hr. cbn. repeat split. discriminate.
Qed.

(** *** Triangulation of one match *)



(** *** Loop closure on eleven keyframes *)

Lemma filter_none {A} (P : A -> Prop) `{forall x, Decision (P x)} (l : list A) :
  Forall (fun x => ~ P x) l -> filter P l = [].
Proof.
  induction 1 as [|x l Hx Hl IH]; [reflexivity|].
  rewrite filter_cons_False by assumption. exact IH.
Qed.

Lemma goodCount_marked i j :
  goodCount cvLoop (markedKf i) (markedKf j) = 51%Z.
Proof.
  unfold goodCount.
  change (matchGuarded cvLoop (kf_descriptors (markedKf i))
                       (kf_descriptors (markedKf j)))
    with (diagMatches 51).
  rewrite filter_all.
  - rewrite diagMatches_length. reflexivity.
  - eapply Forall_impl; [apply diagMatches_near|]. simpl. intros m Hm. lra.
Qed.

Lemma goodCount_plain i j :
  goodCount cvLoop (plainKf i) (markedKf j) = 0%Z.
Proof.
  unfold goodCount.
  change (matchGuarded cvLoop (kf_descriptors (plainKf i))
                       (kf_descriptors (markedKf j)))
    with (map (fun i => mkDMatch (Z.of_nat i) (Z.of_nat i) 256) (seq 0 51)).
  rewrite filter_none; [reflexivity|].
  apply Forall_forall. intros m Hm.
  apply list_elem_of_fmap in Hm as (k & -> & _). simpl. lra.
Qed.

Lemma C4_loop_closure_witness :
  length (keyframes loopSystem) = 11%nat /\ (10 < 11)%nat /\
  fst (detectLoopClosure cvLoop loopSystem (markedKf 10)) = true /\
  snd (detectLoopClosure cvLoop loopSystem (markedKf 10)) = loopSystem.
Proof.
  split; [reflexivity|]. split; [lia|].
  destruct (C4_loop_closure cvLoop loopSystem 10 (markedKf 10) eq_refl)
    as (_ & _ & _ & Hrep & _ & Hsame & _); [lia|].
  split; [|exact Hsame].
  apply Hrep. exists 5%nat, (markedKf 5).
  split; [lia|]. split; [reflexivity|].
  rewrite goodCount_marked. lia.
Defined.

(** C4 as stated fails: with eleven keyframes (the last one, of index
    [n = 10], just inserted) of which only the one of index [n - 5 = 5]
    matches the last, a loop is reported although no keyframe of index
    [i < n - 5] has a count above 50. *)
Lemma C4_counterexample :
  let n := 10%nat in
  ~ (fst (detectLoopClosure cvLoop loopSystem (markedKf 10)) = true <->
     exists i kf, (i < n - 5)%nat /\ keyframes loopSystem !! i = Some kf /\
                  (50 < goodCount cvLoop kf (markedKf 10))%Z).
Proof.
  intros n [Hclaim _].
  assert (Hrep : fst (detectLoopClosure cvLoop loopSystem (markedKf 10)) = true).
  { apply detectLoopClosure_reports. exists 5%nat, (markedKf 5).
    split; [simpl; lia|]. split; [reflexivity|].
    rewrite goodCount_marked. lia. }
  destruct (Hclaim Hrep) as (i & kf & Hi & Hl & Hbig).
  subst n. simpl in Hi.
  assert (Hkf : kf = plainKf (Z.of_nat i)).
  { do 5 (destruct i as [|i]; [simpl in Hl; injection Hl as <-; reflexivity|]).
    lia. }
  rewrite Hkf, goodCount_plain in Hbig. lia.
Qed.

End SlamFixtures.

(** ** The image-target tracker on the fixtures *)

Section TargetFixtures.
Import ImageTargetTracker Fixtures.
Local Open Scope R_scope.

Lemma ratioTest_knnPairs n :
  ratioTest (knnPairs n)
  = map (fun i => mkDMatch (Z.of_nat i) (Z.of_nat i) 10) (seq 0 n).
Proof.
  unfold knnPairs, ratioTest. induction (seq 0 n) as [|i l IH]; [reflexivity|].
  cbn [map flat_map]. rewrite IH. cbn [distance].
  unfold GOOD_MATCH_RATIO.
  destruct (decide (10 < 75 / 100 * 20)); [reflexivity | lra].
Qed.

Lemma countNonZero_ones {A} (l : list A) :
  countNonZero (map (fun _ => 1%Z) l) = length l.
Proof.
  unfold countNonZero. rewrite filter_all.
  - apply length_map.
  - apply Forall_forall. intros b Hb.
    apply list_elem_of_fmap in Hb as (x & -> & _). discriminate.
Qed.

Lemma marker_detected :
  exists d,
    detectedTargets (snd (detectTargets cv0 markerTracker frameB
                                        (SLAMSystem.K SLAMSystem.new)))
    = [d].
Proof.
  unfold detectTargets.
  assert (Ht : exists h,
             targets markerTracker
             = [mkImageTarget 0 "marker" frameA (replicate 100 KeyPoint_dflt)
                  (replicate 100 desc0) (2 / 10) h])
    by (eexists; reflexivity).
  destruct Ht as [h Ht]. rewrite Ht.
  set (target := mkImageTarget _ _ _ _ _ _ _).
  cbn [orb].
  change (Image_empty frameB) with false. cbv iota.
  change (extractFeatures cv0 frameB)
    with (replicate 100 KeyPoint_dflt, replicate 100 desc0).
  cbv iota beta.
  change (length (replicate 100 KeyPoint_dflt) <? MIN_MATCHES)%nat with false.
  cbv iota. cbn [snd detectedTargets omap list_omap].
  assert (Hone : exists d,
             detectOne cv0 (replicate 100 KeyPoint_dflt) (replicate 100 desc0)
                       (SLAMSystem.K SLAMSystem.new) target = Some d).
  { unfold detectOne.
    change (Descriptors_empty (descriptors target)) with false. cbv iota.
    assert (Hgood : goodMatchesOf cv0 target (replicate 100 desc0)
                    = map (fun i => mkDMatch (Z.of_nat i) (Z.of_nat i) 10)
                          (seq 0 100)).
    { unfold goodMatchesOf.
      change (bf_knnMatch cv0 false (descriptors target)
                          (replicate 100 desc0) 2) with (knnPairs 100).
      apply ratioTest_knnPairs. }
    rewrite Hgood. set (good := map _ (seq 0 100)).
    assert (Hlen : length good = 100%nat)
      by (unfold good; rewrite length_map, length_seq; reflexivity).
    rewrite Hlen. change (100 <? MIN_MATCHES)%nat with false. cbv iota.
    change (findHomography cv0 (srcPointsOf target good)
              (dstPointsOf (replicate 100 KeyPoint_dflt) good) 5)
      with (M.eye 3, map (fun _ => 1%Z) (srcPointsOf target good)).
    cbv iota beta.
    change (Mat_empty (M.eye 3)) with false. cbv iota.
    rewrite countNonZero_ones. unfold srcPointsOf at 1.
    rewrite length_map, Hlen.
    change (100 <? MIN_MATCHES)%nat with false. cbv iota.
    change (isContourConvex cv0
              (perspectiveTransform cv0 (targetCornersOf target) (M.eye 3)))
      with true.
    cbn [negb]. unfold computePose.
    change (solvePnPRansac cv0 _ _ _ _ _ _ _)
      with (Some ([[0]; [0]; [0]], [[0]; [0]; [0]]) : option (Mat * Mat)).
    cbv iota beta. eexists. reflexivity. }
  destruct Hone as [d Hone]. exists d. rewrite Hone. reflexivity.
Qed.

Lemma C7_detection_conditions_witness :
  (forall src dst thr,
      length (snd (findHomography cv0 src dst thr)) = length src) /\
  exists d,
    d ∈ getDetectedTargets
          (snd (detectTargets cv0 markerTracker frameB
                              (SLAMSystem.K SLAMSystem.new))) /\
    0 <= confidence d <= 1.
Proof.
  assert (Hmask : forall src dst thr,
             length (snd (findHomography cv0 src dst thr)) = length src).
  { intros src dst thr. cbn. apply length_map. }
  split; [exact Hmask|].
  destruct marker_detected as [d Hd]. exists d.
  assert (Hin : d ∈ getDetectedTargets
                      (snd (detectTargets cv0 markerTracker frameB
                                          (SLAMSystem.K SLAMSystem.new)))).
  { unfold getDetectedTargets. rewrite Hd. apply list_elem_of_here. }
  split; [exact Hin|].
  destruct (C7_detection_conditions cv0 markerTracker frameB
              (SLAMSystem.K SLAMSystem.new) d Hmask Hin)
    as (target & _ & _ & Hrest).
  cbv zeta in Hrest. apply Hrest.
Defined.

End TargetFixtures.

(** ** The view matrix across the embedding boundary *)

Section ViewMatrix.
Import Fixtures.
Local Open Scope R_scope.

Lemma four_by_four (V : Mat) :
  length V = 4%nat -> Forall (fun row => length row = 4%nat) V ->
  exists a00 a01 a02 a03 a10 a11 a12 a13 a20 a21 a22 a23 a30 a31 a32 a33,
    V = [[a00; a01; a02; a03]; [a10; a11; a12; a13];
         [a20; a21; a22; a23]; [a30; a31; a32; a33]].
Proof.
  intros Hlen Hrows.
  destruct V as [|r0 [|r1 [|r2 [|r3 [|]]]]]; try discriminate.
  apply Forall_cons in Hrows as [H0 Hrows].
  apply Forall_cons in Hrows as [H1 Hrows].
  apply Forall_cons in Hrows as [H2 Hrows].
  apply Forall_cons in Hrows as [H3 _].
  destruct r0 as [|? [|? [|? [|? [|]]]]]; try discriminate.
  destruct r1 as [|? [|? [|? [|? [|]]]]]; try discriminate.
  destruct r2 as [|? [|? [|? [|? [|]]]]]; try discriminate.
  destruct r3 as [|? [|? [|? [|? [|]]]]]; try discriminate.
  repeat eexists.
Qed.

(** C9 as amended.  When [cv::Mat::inv] returns a 4 x 4 matrix [V] whose
    product with the current pose is the identity, the sixteen numbers
    [get_view_matrix] returns are the row-major serialisation of [V]:
    entry [4 i + j] is [V(i, j)], and reading the array row by row and
    multiplying by the current pose gives the identity. *)
Theorem C9_view_matrix_row_major (cv : OpenCV) (s : SLAMSystem.t) :
  let V := inv cv (SLAMSystem.currentPose s) in
  let a := Bindings.getViewMatrix cv s in
  length V = 4%nat -> Forall (fun row => length row = 4%nat) V ->
  M.mul V (SLAMSystem.currentPose s) = M.eye 4 ->
  length a = 16%nat /\
  (forall i j, (i < 4)%nat -> (j < 4)%nat ->
               nth (4 * i + j) a 0 = M.at_ V i j) /\
  Bindings.ofRowMajor a = V /\
  M.mul (Bindings.ofRowMajor a) (SLAMSystem.currentPose s) = M.eye 4.
Proof.
  intros V a Hlen Hrows Hinv.
  assert (Ha : a = Bindings.matToArray V) by reflexivity.
  destruct (four_by_four V Hlen Hrows)
    as (a00 & a01 & a02 & a03 & a10 & a11 & a12 & a13
        & a20 & a21 & a22 & a23 & a30 & a31 & a32 & a33 & HV).
  assert (Hrt : Bindings.ofRowMajor a = V) by (rewrite Ha, HV; reflexivity).
  split; [rewrite Ha, HV; reflexivity|]. split.
  - intros i j Hi Hj. rewrite Ha, HV.
    destruct i as [|[|[|[|i]]]]; [| | | |lia];
      (destruct j as [|[|[|[|j]]]]; [| | | |lia]); reflexivity.
  - split; [exact Hrt|]. rewrite Hrt. exact Hinv.
Qed.

Lemma inv0_stepX : inv0 stepX = stepXinv.
Proof.
  unfold inv0, stepX, HitTester.invertMatrix4x4.
  cbn [Bindings.matToArray M.nrows M.ncols M.at_ length seq flat_map map nth
       app].
  match goal with
  | |- context [decide (Rabs ?d < _)] =>
      replace d with 1 by ring
  end.
  rewrite Rabs_R1.
  destruct (decide (1 < 1 / 10000000000)) as [H|_]; [lra|].
  cbn [map Bindings.ofRowMajor seq nth Nat.add Nat.mul].
  unfold stepXinv. repeat f_equal; field.
Qed.

Lemma stepXinv_shape :
  length stepXinv = 4%nat /\ Forall (fun row => length row = 4%nat) stepXinv.
Proof. split; [reflexivity | repeat constructor]. Qed.

Lemma stepXinv_inverse : M.mul stepXinv stepX = M.eye 4.
Proof.
  cbv -[IZR Rplus Rmult Ropp]. repeat f_equal; ring.
Qed.

Lemma view_of_twoFrames :
  inv cv0 (SLAMSystem.currentPose (run cv0 twoFrames)) = stepXinv.
Proof.
  destruct second_frame as (_ & _ & Hpose). rewrite Hpose.
  exact inv0_stepX.
Qed.

Lemma C9_view_matrix_row_major_witness :
  M.mul (Bindings.ofRowMajor (Bindings.getViewMatrix cv0 (run cv0 twoFrames)))
        (SLAMSystem.currentPose (run cv0 twoFrames))
  = M.eye 4.
Proof.
  apply (C9_view_matrix_row_major cv0 (run cv0 twoFrames)).
  - rewrite view_of_twoFrames. apply stepXinv_shape.
  - rewrite view_of_twoFrames. apply stepXinv_shape.
  - rewrite view_of_twoFrames.
    destruct second_frame as (_ & _ & ->). apply stepXinv_inverse.
Defined.

(** C9 as stated fails: after two frames the pose is a unit step along x,
    [cv::Mat::inv] returns its inverse, and the array read column by
    column is not that inverse: its product with the pose is not the
    identity. *)
Lemma C9_counterexample :
  let s := run cv0 twoFrames in
  let a := Bindings.getViewMatrix cv0 s in
  M.mul (inv cv0 (SLAMSystem.currentPose s)) (SLAMSystem.currentPose s)
  = M.eye 4 /\
  Bindings.ofColumnMajor a <> inv cv0 (SLAMSystem.currentPose s) /\
  M.mul (Bindings.ofColumnMajor a) (SLAMSystem.currentPose s) <> M.eye 4.
Proof.
  intros s a. subst a. unfold Bindings.getViewMatrix, SLAMSystem.getViewMatrix.
  subst s. rewrite view_of_twoFrames.
  destruct second_frame as (_ & _ & ->).
  split; [apply stepXinv_inverse|]. split.
  - intros H. apply (f_equal (fun m => M.at_ m 0 3)) in H.
    cbv -[IZR Rplus Rmult Ropp] in H. lra.
  - intros H. apply (f_equal (fun m => M.at_ m 0 3)) in H.
    cbv -[IZR Rplus Rmult Ropp] in H. lra.
Qed.

End ViewMatrix.


(** * Further properties of the code *)

(** ** The hit tester: matrices, rays and the ground plane *)

Section HitTestMore.
Import HitTester Fixtures.
Local Open Scope R_scope.

Lemma tiny_nonzero (x eps : R) : 0 < eps -> ~ Rabs x < eps -> x <> 0.
Proof. intros He Hx ->. apply Hx. rewrite Rabs_R0. exact He. Qed.

Lemma four_entries (v : list R) :
  length v = 4%nat -> [v.[0]; v.[1]; v.[2]; v.[3]] = v.
Proof.
  destruct v as [|a [|b [|c [|e [|]]]]]; try discriminate. reflexivity.
Qed.

Lemma invertMatrix4x4_left (m out v : list R) :
  invertMatrix4x4 m = Some out ->
  multiplyMat4Vec4 out (multiplyMat4Vec4 m v) = [v.[0]; v.[1]; v.[2]; v.[3]].
Proof.
  unfold invertMatrix4x4. cbv zeta.
  case_decide as Hd; [discriminate|].
  intros [= <-].
  apply tiny_nonzero in Hd; [|lra].
  unfold multiplyMat4Vec4. cbn [map seq nth Nat.add].
  repeat f_equal; field; exact Hd.
Qed.

Lemma invertMatrix4x4_right (m out v : list R) :
  invertMatrix4x4 m = Some out ->
  multiplyMat4Vec4 m (multiplyMat4Vec4 out v) = [v.[0]; v.[1]; v.[2]; v.[3]].
Proof.
  unfold invertMatrix4x4. cbv zeta.
  case_decide as Hd; [discriminate|].
  intros [= <-].
  apply tiny_nonzero in Hd; [|lra].
  unfold multiplyMat4Vec4. cbn [map seq nth Nat.add].
  repeat f_equal; field; exact Hd.
Qed.

Lemma invertMatrix4x4_length (m out : list R) :
  invertMatrix4x4 m = Some out -> length out = 16%nat.
Proof.
  unfold invertMatrix4x4. cbv zeta.
  case_decide; [discriminate|]. intros [= <-]. reflexivity.
Qed.

(** X1: what [invertMatrix4x4] writes to [out] is the inverse of [m]. *)
Theorem invertMatrix4x4_inverse (m out v : list R) :
  length m = 16%nat -> length v = 4%nat ->
  invertMatrix4x4 m = Some out ->
  length out = 16%nat /\
  multiplyMat4Vec4 out (multiplyMat4Vec4 m v) = v /\
  multiplyMat4Vec4 m (multiplyMat4Vec4 out v) = v.
Proof.
  intros _ Hv Hinv. split; [eauto using invertMatrix4x4_length|].
  rewrite (invertMatrix4x4_left _ _ _ Hinv), (invertMatrix4x4_right _ _ _ Hinv).
  rewrite (four_entries _ Hv). done.
Qed.

Lemma identity16_inverts : invertMatrix4x4 identity16 = Some identity16.
Proof.
  unfold invertMatrix4x4, identity16. cbn [nth].
  match goal with
  | |- context [decide (Rabs ?d < _)] => replace d with 1 by ring
  end.
  rewrite Rabs_R1.
  destruct (decide (1 < 1 / 10000000000)) as [H|_]; [lra|].
  cbn [map]. repeat f_equal; field.
Qed.

Lemma viewDown_inverts : invertMatrix4x4 viewDown = Some viewDownInv.
Proof.
  unfold invertMatrix4x4, viewDown, viewDownInv. cbn [nth].
  match goal with
  | |- context [decide (Rabs ?d < _)] => replace d with 1 by ring
  end.
  rewrite Rabs_R1.
  destruct (decide (1 < 1 / 10000000000)) as [H|_]; [lra|].
  cbn [map]. repeat f_equal; field.
Qed.

Lemma invertMatrix4x4_inverse_witness :
  multiplyMat4Vec4 viewDownInv (multiplyMat4Vec4 viewDown [1; 2; 3; 1])
  = [1; 2; 3; 1].
Proof.
  exact (proj1 (proj2 (invertMatrix4x4_inverse viewDown viewDownInv [1; 2; 3; 1]
                         eq_refl eq_refl viewDown_inverts))).
Defined.

Lemma unit_of_divide (a b c : R) :
  let len := sqrt (a * a + b * b + c * c) in
  ~ len < 1 / 1000000 ->
  a / len * (a / len) + b / len * (b / len) + c / len * (c / len) = 1.
Proof.
  intros len Hlen.
  assert (Hnz : len <> 0).
  { intros Hz. apply Hlen. rewrite Hz. lra. }
  rewrite sumsq_divide by exact Hnz.
  unfold len in *. rewrite sqrt_sqrt by apply sumsq_nonneg.
  apply Rdiv_diag.
  intros Hz. rewrite Hz, sqrt_0 in Hnz. done.
Qed.

Lemma screenToRay_direction (sx sy : R) (sw sh : Z) (view proj : list R) :
  let r := screenToRay sx sy sw sh view proj in
  dx r * dx r + dy r * dy r + dz r * dz r = 1.
Proof.
  unfold screenToRay. cbv zeta.
  destruct (invertMatrix4x4 proj) as [ip|]; [|cbn; ring].
  destruct (invertMatrix4x4 view) as [iv|]; [|cbn; ring].
  case_decide as Hlen; cbn [dx dy dz]; [|ring].
  apply unit_of_divide. lra.
Qed.

(** X2: the direction of every ray [screenToRay] returns has length 1. *)
Theorem screenToRay_unit (sx sy : R) (sw sh : Z) (view proj : list R) :
  let r := screenToRay sx sy sw sh view proj in
  dx r * dx r + dy r * dy r + dz r * dz r = 1.
Proof. apply screenToRay_direction. Qed.

Lemma hitTest_hit h sx sy sw sh view proj :
  hit (hitTest h sx sy sw sh view proj) = true ->
  hasValidPlane h = true /\
  hitTest h sx sy sw sh view proj
  = snd (rayPlaneIntersect (screenToRay sx sy sw sh view proj)
                           (groundPlane h) HitTestResult_new).
Proof.
  unfold hitTest. destruct (hasValidPlane h); cbn [negb]; [done|].
  cbn. discriminate.
Qed.

Lemma rayPlaneIntersect_hit ray plane res :
  hit (snd (rayPlaneIntersect ray plane res)) = true ->
  let t := rayParam ray plane in
  ~ Rabs (nDotD ray plane) < 1 / 1000000 /\ 0 <= t /\
  snd (rayPlaneIntersect ray plane res)
  = mkHitTestResult true (ox ray + dx ray * t) (oy ray + dy ray * t)
                    (oz ray + dz ray * t) t (-1)%Z 1.
Proof.
  unfold rayPlaneIntersect.
  case_decide as Hpar; [cbn; discriminate|].
  case_decide as Ht; [cbn; discriminate|].
  cbn. intros _. split; [done|]. split; [lra|done].
Qed.

(** X3: a hit of [hitTest] lies on the ground plane, in front of the ray
    origin, at the reported distance from it. *)
Theorem hitTest_hit_on_ground (h : HitTester.t) (sx sy : R) (sw sh : Z)
    (view proj : list R) :
  let ray := screenToRay sx sy sw sh view proj in
  let r := hitTest h sx sy sw sh view proj in
  hit r = true ->
  signedDistance (groundPlane h) (hx r) (hy r) (hz r) = 0 /\
  0 <= distance r /\
  distance r = sqrt ((hx r - ox ray) * (hx r - ox ray)
                     + (hy r - oy ray) * (hy r - oy ray)
                     + (hz r - oz ray) * (hz r - oz ray)) /\
  planeId r = (-1)%Z /\ confidence r = 1.
Proof.
  intros ray r Hhit. subst r.
  destruct (hitTest_hit _ _ _ _ _ _ _ Hhit) as [_ Heq].
  rewrite Heq in Hhit |- *. fold ray in Hhit |- *.
  destruct (rayPlaneIntersect_hit _ _ _ Hhit) as (Hpar & Ht & ->).
  cbn [hx hy hz distance planeId confidence].
  apply tiny_nonzero in Hpar; [|lra].
  split; [|split; [exact Ht|split; [|done]]].
  - unfold signedDistance, rayParam, nDotO, nDotD in *. field. exact Hpar.
  - pose proof (screenToRay_direction sx sy sw sh view proj) as Hu.
    cbv zeta in Hu. fold ray in Hu.
    set (t := rayParam ray (groundPlane h)) in *.
    replace ((ox ray + dx ray * t - ox ray) * (ox ray + dx ray * t - ox ray)
             + (oy ray + dy ray * t - oy ray) * (oy ray + dy ray * t - oy ray)
             + (oz ray + dz ray * t - oz ray) * (oz ray + dz ray * t - oz ray))
      with (t * t * (dx ray * dx ray + dy ray * dy ray + dz ray * dz ray))
      by ring.
    rewrite Hu, Rmult_1_r. symmetry. apply sqrt_square. exact Ht.
Qed.
(** [screenToRay] once the two inverses and the four transformed points
    are known. *)
Lemma screenToRay_eq sx sy sw sh view proj ip iv nv fv nw fw :
  invertMatrix4x4 proj = Some ip -> invertMatrix4x4 view = Some iv ->
  perspectiveDivide
    (multiplyMat4Vec4 ip [2 * sx / IZR sw - 1; 1 - 2 * sy / IZR sh; -1; 1])
  = nv ->
  perspectiveDivide
    (multiplyMat4Vec4 ip [2 * sx / IZR sw - 1; 1 - 2 * sy / IZR sh; 1; 1])
  = fv ->
  multiplyMat4Vec4 iv [nv.[0]; nv.[1]; nv.[2]; 1] = nw ->
  multiplyMat4Vec4 iv [fv.[0]; fv.[1]; fv.[2]; 1] = fw ->
  screenToRay sx sy sw sh view proj
  = let ddx := fw.[0] - nw.[0] in
    let ddy := fw.[1] - nw.[1] in
    let ddz := fw.[2] - nw.[2] in
    let len := sqrt (ddx * ddx + ddy * ddy + ddz * ddz) in
    if decide (len > 1 / 1000000)
    then mkRay3D nw.[0] nw.[1] nw.[2] (ddx / len) (ddy / len) (ddz / len)
    else mkRay3D nw.[0] nw.[1] nw.[2] 0 0 (-1).
Proof.
  intros Hp Hv <- <- <- <-. unfold screenToRay. rewrite Hp, Hv. reflexivity.
Qed.

Lemma perspectiveDivide_one (a b c w : R) :
  w = 1 -> perspectiveDivide [a; b; c; w] = [a; b; c; 1].
Proof.
  intros ->. unfold perspectiveDivide. cbn [nth].
  destruct (decide (Rabs 1 > 1 / 1000000)) as [_|H].
  - repeat f_equal; field.
  - rewrite Rabs_R1 in H. lra.
Qed.

Lemma identity16_mul (a b c e : R) :
  multiplyMat4Vec4 identity16 [a; b; c; e] = [a; b; c; e].
Proof.
  unfold multiplyMat4Vec4, identity16. cbn [map seq nth Nat.add].
  repeat f_equal; ring.
Qed.

Lemma viewDownInv_mul (a b c : R) :
  multiplyMat4Vec4 viewDownInv [a; b; c; 1] = [a; 5 - c; b; 1].
Proof.
  unfold multiplyMat4Vec4, viewDownInv. cbn [map seq nth Nat.add].
  repeat f_equal; ring.
Qed.

Lemma down_ray :
  screenToRay 1 1 2 2 viewDown identity16 = mkRay3D 0 6 0 0 (-1) 0.
Proof.
  rewrite (screenToRay_eq 1 1 2 2 viewDown identity16 identity16 viewDownInv
             [0; 0; -1; 1] [0; 0; 1; 1] [0; 6; 0; 1] [0; 4; 0; 1]
             identity16_inverts viewDown_inverts).
  - cbn [nth]. cbv zeta.
    replace ((0 - 0) * (0 - 0) + (4 - 6) * (4 - 6) + (0 - 0) * (0 - 0))
      with (2 * 2) by ring.
    rewrite sqrt_square by lra.
    destruct (decide (2 > 1 / 1000000)) as [_|H]; [|lra].
    f_equal; field.
  - rewrite identity16_mul. rewrite perspectiveDivide_one by reflexivity.
    repeat f_equal; field.
  - rewrite identity16_mul. rewrite perspectiveDivide_one by reflexivity.
    repeat f_equal; field.
  - cbn [nth]. rewrite viewDownInv_mul. repeat f_equal; ring.
  - cbn [nth]. rewrite viewDownInv_mul. repeat f_equal; ring.
Qed.

Lemma down_hit :
  hitTest HitTester.new 1 1 2 2 viewDown identity16
  = mkHitTestResult true 0 0 0 6 (-1)%Z 1.
Proof.
  unfold hitTest. cbn [HitTester.new setDefaultGroundPlane hasValidPlane negb groundPlane].
  rewrite down_ray. unfold rayPlaneIntersect, nDotD, rayParam, nDotO, nDotD.
  cbn [nx ny nz d dx dy dz ox oy oz].
  replace (0 * 0 + 1 * -1 + 0 * 0) with (-1) by ring.
  replace (- (0 * 0 + 1 * 6 + 0 * 0 + 0) / -1) with 6 by field.
  replace (Rabs (-1)) with 1 by (rewrite Rabs_left; lra).
  destruct (decide (1 < 1 / 1000000)) as [H|_]; [lra|].
  destruct (decide (6 < 0)) as [H|_]; [lra|].
  cbn. f_equal; ring.
Qed.

Lemma hitTest_hit_on_ground_witness :
  signedDistance (groundPlane HitTester.new)
    (hx (hitTest HitTester.new 1 1 2 2 viewDown identity16))
    (hy (hitTest HitTester.new 1 1 2 2 viewDown identity16))
    (hz (hitTest HitTester.new 1 1 2 2 viewDown identity16)) = 0.
Proof.
  apply (hitTest_hit_on_ground HitTester.new 1 1 2 2 viewDown identity16).
  rewrite down_hit. reflexivity.
Defined.

(** *** Rays through a projection of [createProjectionMatrix] *)

Lemma projection_inverts (a b c e : R) (ip : list R) :
  invertMatrix4x4 [a; 0; 0; 0;  0; b; 0; 0;  0; 0; c; -1;  0; 0; e; 0]
  = Some ip ->
  a <> 0 /\ b <> 0 /\ e <> 0 /\
  forall x y z,
    multiplyMat4Vec4 ip [x; y; z; 1] = [x / a; y / b; -1; (z + c) / e].
Proof.
  unfold invertMatrix4x4. cbn [nth]. cbv zeta.
  case_decide as Hd; [discriminate|]. intros [= <-].
  apply tiny_nonzero in Hd; [|lra].
  assert (Hne : a * b * e <> 0).
  { intros Hz. apply Hd. transitivity (a * b * e); [ring|exact Hz]. }
  assert (Ha : a <> 0) by (intros ->; apply Hne; ring).
  assert (Hb : b <> 0) by (intros ->; apply Hne; ring).
  assert (He : e <> 0) by (intros ->; apply Hne; ring).
  do 3 (split; [assumption|]).
  intros x y z. unfold multiplyMat4Vec4. cbn [map seq nth Nat.add].
  repeat f_equal; field; auto.
Qed.

Lemma inv_above (n : R) : 0 < n -> n < 1000000 -> 1 / n > 1 / 1000000.
Proof.
  intros H0 H1. unfold Rdiv. rewrite !Rmult_1_l.
  apply Rinv_lt_contravar; [nra|exact H1].
Qed.

Lemma perspectiveDivide_big (a b c w : R) :
  w > 1 / 1000000 ->
  perspectiveDivide [a; b; c; w] = [a / w; b / w; c / w; w].
Proof.
  intros Hw. unfold perspectiveDivide. cbn [nth].
  destruct (decide (Rabs w > 1 / 1000000)) as [_|H]; [reflexivity|].
  rewrite Rabs_right in H by lra. lra.
Qed.

Lemma sqrt_scaled (k x y : R) :
  0 <= k ->
  sqrt (k * x * (k * x) + k * y * (k * y) + k * k)
  = k * sqrt (x * x + y * y + 1).
Proof.
  intros Hk.
  replace (k * x * (k * x) + k * y * (k * y) + k * k)
    with (k * k * (x * x + y * y + 1)) by ring.
  rewrite sqrt_mult; [|nra|nra].
  rewrite sqrt_square by exact Hk. reflexivity.
Qed.

Lemma sqrt_above_one (x y : R) : 1 <= sqrt (x * x + y * y + 1).
Proof.
  rewrite <- sqrt_1 at 1. apply sqrt_le_1; nra.
Qed.

(** X4: under the identity view, the ray of a pixel through a projection
    matrix of [createProjectionMatrix] starts on the near plane and runs
    along the line from the eye through that point. *)
Theorem screenToRay_pinhole (fovY aspect near far sx sy : R) (sw sh : Z) :
  let proj := createProjectionMatrix fovY aspect near far in
  let X := (2 * sx / IZR sw - 1) / (1 / (aspect * tan (fovY / 2))) in
  let Y := (1 - 2 * sy / IZR sh) / (1 / tan (fovY / 2)) in
  let L := sqrt (X * X + Y * Y + 1) in
  0 < near -> near + 1 / 1000000 < far -> far < 1000000 ->
  invertMatrix4x4 proj <> None ->
  screenToRay sx sy sw sh identity16 proj
  = mkRay3D (near * X) (near * Y) (- near) (X / L) (Y / L) (-1 / L).
Proof.
  intros proj X Y L Hn Hnf Hf Hinv.
  destruct (invertMatrix4x4 proj) as [ip|] eqn:Hip; [clear Hinv|done].
  unfold proj, createProjectionMatrix in Hip. cbv zeta in Hip.
  apply projection_inverts in Hip as Hshape.
  destruct Hshape as (Ha & Hb & He & Hmul).
  fold (createProjectionMatrix fovY aspect near far) in Hip.
  set (a := 1 / (aspect * tan (fovY / 2))) in *.
  set (b := 1 / tan (fovY / 2)) in *.
  set (x := 2 * sx / IZR sw - 1) in *.
  set (y := 1 - 2 * sy / IZR sh) in *.
  assert (HL : 1 <= L) by apply sqrt_above_one.
  assert (Hwn : (-1 + - (far + near) / (far - near))
                / (- (2 * far * near) / (far - near)) = 1 / near).
  { field. lra. }
  assert (Hwf : (1 + - (far + near) / (far - near))
                / (- (2 * far * near) / (far - near)) = 1 / far).
  { field. lra. }
  unfold proj.
  rewrite (screenToRay_eq sx sy sw sh identity16
             (createProjectionMatrix fovY aspect near far) ip identity16
             [near * X; near * Y; - near; 1 / near]
             [far * X; far * Y; - far; 1 / far]
             [near * X; near * Y; - near; 1]
             [far * X; far * Y; - far; 1]
             Hip identity16_inverts).
  - cbn [nth]. cbv zeta.
    replace (far * X - near * X) with ((far - near) * X) by ring.
    replace (far * Y - near * Y) with ((far - near) * Y) by ring.
    replace (- far - - near) with (- (far - near)) by ring.
    replace (- (far - near) * - (far - near))
      with ((far - near) * (far - near)) by ring.
    rewrite sqrt_scaled by lra. fold L.
    destruct (decide ((far - near) * L > 1 / 1000000)) as [_|H]; [|nra].
    f_equal; field; lra.
  - fold x y. rewrite Hmul, Hwn.
    rewrite perspectiveDivide_big by (apply inv_above; lra).
    unfold X, Y. fold a b. repeat f_equal; field; lra.
  - fold x y. rewrite Hmul, Hwf.
    rewrite perspectiveDivide_big by (apply inv_above; lra).
    unfold X, Y. fold a b. repeat f_equal; field; lra.
  - cbn [nth]. apply identity16_mul.
  - cbn [nth]. apply identity16_mul.
Qed.
Lemma quarter_projection_inverts :
  invertMatrix4x4 (createProjectionMatrix (PI / 2) 1 1 3) <> None.
Proof.
  unfold createProjectionMatrix, invertMatrix4x4. cbv zeta.
  replace (PI / 2 / 2) with (PI / 4) by field. rewrite tan_PI4.
  cbn [nth].
  match goal with
  | |- context [decide (Rabs ?e < _)] => replace e with (- 3) by field
  end.
  replace (Rabs (- 3)) with 3 by (rewrite Rabs_left; lra).
  destruct (decide (3 < 1 / 10000000000)) as [H|_]; [lra|discriminate].
Qed.

Lemma screenToRay_pinhole_witness :
  oz (screenToRay 1 1 2 2 identity16 (createProjectionMatrix (PI / 2) 1 1 3))
  = - 1.
Proof.
  rewrite (screenToRay_pinhole (PI / 2) 1 1 3 1 1 2 2);
    [reflexivity | lra | lra | lra | exact quarter_projection_inverts].
Defined.

Lemma computePlaneFromPoints_some p1 p2 p3 plane :
  computePlaneFromPoints p1 p2 p3 = Some plane ->
  unitPlane plane /\ onPlane plane p1 /\ onPlane plane p2 /\ onPlane plane p3.
Proof.
  unfold computePlaneFromPoints. cbv zeta.
  case_decide as Hlen; [discriminate|].
  intros [= <-].
  set (len := sqrt _) in *.
  assert (Hnz : len <> 0).
  { intros Hz. apply Hlen. rewrite Hz. lra. }
  split; [|split; [|split]].
  - unfold unitPlane. cbn [nx ny nz]. apply unit_of_divide. exact Hlen.
  - unfold onPlane, signedDistance. cbn [nx ny nz d]. ring.
  - unfold onPlane, signedDistance. cbn [nx ny nz d P3.sub px py pz].
    field. exact Hnz.
  - unfold onPlane, signedDistance. cbn [nx ny nz d P3.sub px py pz].
    field. exact Hnz.
Qed.

(** X5: [computePlaneFromPoints] fails exactly when the cross product of
    the two edges is shorter than 1e-6; a plane it computes has a unit
    normal, along that cross product, and passes through the three
    points. *)
Theorem computePlaneFromPoints_through (p1 p2 p3 : Point3f) :
  let n := P3.cross (P3.sub p2 p1) (P3.sub p3 p1) in
  (computePlaneFromPoints p1 p2 p3 = None <-> P3.norm n < 1 / 1000000) /\
  (forall plane,
      computePlaneFromPoints p1 p2 p3 = Some plane ->
      unitPlane plane /\
      onPlane plane p1 /\ onPlane plane p2 /\ onPlane plane p3 /\
      nx plane * P3.norm n = px n /\ ny plane * P3.norm n = py n /\
      nz plane * P3.norm n = pz n).
Proof.
  intros n. split.
  - unfold computePlaneFromPoints. cbv zeta.
    case_decide as Hlen; split; done.
  - intros plane E.
    destruct (computePlaneFromPoints_some _ _ _ _ E) as (Hu & H1 & H2 & H3).
    repeat (split; [assumption|]).
    unfold computePlaneFromPoints in E. cbv zeta in E.
    case_decide as Hlen; [discriminate|]. injection E as <-.
    change (sqrt _) with (P3.norm n) in *.
    assert (Hnz : P3.norm n <> 0) by (intros Hz; apply Hlen; rewrite Hz; lra).
    clear Hu H1 H2 H3 Hlen. set (k := P3.norm n) in *. clearbody k.
    subst n. cbn [nx ny nz P3.cross P3.sub px py pz].
    repeat split; field; exact Hnz.
Qed.

(** *** The RANSAC loop *)

Lemma bestOk_seen h points dis seen seen' best :
  seen ⊆ seen' -> bestOk h points dis seen best ->
  bestOk h points dis seen' best.
Proof.
  intros Hsub [H0 Hb]. split; [exact H0|]. intros Hpos.
  destruct (Hb Hpos) as (Hu & Hc & iter & Hin & Hrest).
  split; [exact Hu|]. split; [exact Hc|]. exists iter.
  split; [apply Hsub, Hin|exact Hrest].
Qed.

Lemma ransacIteration_bestOk h points dis seen best iter :
  bestOk h points dis seen best ->
  bestOk h points dis (seen ++ [iter]) (ransacIteration h points dis best iter).
Proof.
  intros Hb.
  assert (Hkeep : bestOk h points dis (seen ++ [iter]) best).
  { eapply bestOk_seen; [|exact Hb]. intros x Hx. apply elem_of_app. auto. }
  unfold ransacIteration. cbv zeta.
  destruct (_ || _) eqn:Hdup; [exact Hkeep|].
  apply orb_false_elim in Hdup as [Hdup H13].
  apply orb_false_elim in Hdup as [H12 H23].
  apply Nat.eqb_neq in H12, H23, H13.
  destruct (computePlaneFromPoints _ _ _) as [plane|] eqn:E; [|exact Hkeep].
  destruct (_ <? _)%Z eqn:Hlt; [|exact Hkeep].
  apply Z.ltb_lt in Hlt. destruct Hb as [H0 _].
  destruct (computePlaneFromPoints_some _ _ _ _ E) as (Hu & _).
  split; cbn [fst snd]; [lia|]. intros _.
  split; [exact Hu|]. split; [done|]. exists iter.
  split; [apply elem_of_app; right; apply list_elem_of_singleton; done|].
  done.
Qed.

Lemma ransacLoop_bestOk h points dis iters seen best :
  bestOk h points dis seen best ->
  bestOk h points dis (seen ++ iters)
         (fold_left (ransacIteration h points dis) iters best).
Proof.
  revert seen best.
  induction iters as [|i iters IH]; intros seen best Hb.
  - rewrite app_nil_r. exact Hb.
  - cbn [fold_left]. replace (seen ++ i :: iters) with ((seen ++ [i]) ++ iters)
      by (rewrite <- app_assoc; reflexivity).
    apply IH, ransacIteration_bestOk, Hb.
Qed.

Lemma pt3_lookup (points : list Point3f) (i : nat) :
  (i < length points)%nat -> points !! i = Some (pt3 points i).
Proof.
  intros Hi. unfold pt3.
  destruct (lookup_lt_is_Some_2 points i Hi) as [q Hq].
  rewrite Hq. f_equal. symmetry. apply nth_lookup_Some, Hq.
Qed.

(** The loop does not read [bestPlane] before it has written it. *)
Lemma ransacLoop_uninit h points dis iters c p1 p2 :
  let b1 := fold_left (ransacIteration h points dis) iters (c, p1) in
  let b2 := fold_left (ransacIteration h points dis) iters (c, p2) in
  b1.1 = b2.1 /\ (b1 = b2 \/ (b1 = (c, p1) /\ b2 = (c, p2))).
Proof.
  revert c p1 p2.
  induction iters as [|i iters IH]; intros c p1 p2; cbn [fold_left].
  - split; [done|]. right. done.
  - assert (Hstep :
      (ransacIteration h points dis (c, p1) i = (c, p1) /\
       ransacIteration h points dis (c, p2) i = (c, p2)) \/
      ransacIteration h points dis (c, p1) i
      = ransacIteration h points dis (c, p2) i).
    { unfold ransacIteration. cbv zeta. cbn [fst].
      destruct (_ || _); [left; done|].
      destruct (computePlaneFromPoints _ _ _); [|left; done].
      destruct (_ <? _)%Z; [right; done|left; done]. }
    destruct Hstep as [[-> ->] | ->].
    + apply IH.
    + split; [done|]. left. done.
Qed.

Lemma inliers_count h points plane :
  Z.of_nat (length (inliersOf h points plane)) = inlierCountOf h points plane.
Proof.
  unfold inliersOf, inlierCountOf. f_equal.
  assert (Hgen : forall pre,
    length (filter (fun i => isInlier h plane (pt3 (pre ++ points) i))
                   (seq (length pre) (length points)))
    = length (filter (isInlier h plane) points)).
  { induction points as [|q points IH]; intros pre; [reflexivity|].
    cbn [length seq]. rewrite !filter_cons.
    assert (Hq : pt3 (pre ++ q :: points) (length pre) = q).
    { unfold pt3. rewrite app_nth2 by lia. rewrite Nat.sub_diag. reflexivity. }
    rewrite Hq.
    specialize (IH (pre ++ [q])).
    rewrite length_app in IH. cbn [length] in IH.
    rewrite Nat.add_1_r in IH. rewrite <- app_assoc in IH. cbn [app] in IH.
    destruct (decide (isInlier h plane q)); cbn [length]; rewrite IH; done. }
  exact (Hgen []).
Qed.

Lemma inliersOf_elem h points plane i :
  i ∈ inliersOf h points plane <->
  (i < length points)%nat /\ isInlier h plane (pt3 points i).
Proof.
  unfold inliersOf. rewrite list_elem_of_filter, elem_of_seq. intuition lia.
Qed.

(** X6: the plane and the inliers a successful [fitPlaneRANSAC] hands
    back, when the draws are indices of [points]: the plane is the one
    computed from three input points, drawn at distinct indices in one
    turn of the loop. *)
Theorem fitPlaneRANSAC_result (h : HitTester.t) (points : list Point3f)
    (dis : nat -> nat) (uninit : Plane3D) (plane : Plane3D)
    (inliers : list nat) :
  (0 < minInliers h)%Z ->
  (forall k, (dis k < length points)%nat) ->
  fitPlaneRANSAC h points dis uninit = Some (plane, inliers) ->
  unitPlane plane /\
  (exists iter p1 p2 p3,
      (iter < Z.to_nat (ransacIterations h))%nat /\
      points !! dis (3 * iter)%nat = Some p1 /\
      points !! dis (3 * iter + 1)%nat = Some p2 /\
      points !! dis (3 * iter + 2)%nat = Some p3 /\
      dis (3 * iter)%nat <> dis (3 * iter + 1)%nat /\
      dis (3 * iter + 1)%nat <> dis (3 * iter + 2)%nat /\
      dis (3 * iter)%nat <> dis (3 * iter + 2)%nat /\
      computePlaneFromPoints p1 p2 p3 = Some plane /\
      onPlane plane p1 /\ onPlane plane p2 /\ onPlane plane p3) /\
  (forall i, i ∈ inliers <->
             (i < length points)%nat /\
             Rabs (signedDistance plane (px (pt3 points i)) (py (pt3 points i))
                                  (pz (pt3 points i))) < ransacThreshold h) /\
  (minInliers h <= Z.of_nat (length inliers))%Z /\
  (forall other, fitPlaneRANSAC h points dis other = Some (plane, inliers)).
Proof.
  intros Hmin Hdraws. unfold fitPlaneRANSAC.
  destruct (length points <? 3)%nat; [discriminate|].
  cbv zeta.
  pose proof (ransacLoop_bestOk h points dis
                (seq 0 (Z.to_nat (ransacIterations h))) [] (0%Z, uninit)) as Hok.
  cbn [app] in Hok.
  destruct (_ <? minInliers h)%Z eqn:Hlt; [discriminate|].
  apply Z.ltb_ge in Hlt.
  intros [= <- <-].
  set (best := fold_left _ _ _) in *.
  destruct Hok as [_ Hok]; [split; cbn; [lia|lia]|].
  destruct Hok as (Hu & Hcount & iter & Hin & H12 & H23 & H13 & Hplane); [lia|].
  split; [exact Hu|]. split.
  { apply elem_of_seq in Hin.
    destruct (computePlaneFromPoints_some _ _ _ _ Hplane) as (_ & Ha & Hb & Hc).
    exists iter, (pt3 points (dis (3 * iter)%nat)),
           (pt3 points (dis (3 * iter + 1)%nat)),
           (pt3 points (dis (3 * iter + 2)%nat)).
    split; [lia|]. do 3 (split; [apply pt3_lookup, Hdraws|]). done. }
  split; [intros i; apply inliersOf_elem|].
  split; [rewrite inliers_count; lia|].
  intros other.
  pose proof (ransacLoop_uninit h points dis
                (seq 0 (Z.to_nat (ransacIterations h))) 0%Z uninit other)
    as [Hc Hsame].
  cbv zeta in Hc, Hsame. fold best in Hc, Hsame.
  destruct Hsame as [<-|[Hb _]].
  - apply Z.ltb_ge in Hlt. rewrite Hlt. done.
  - rewrite Hb in Hlt. cbn in Hlt. lia.
Qed.

Lemma isInlier_upward h p q : isInlier h (upward p) q <-> isInlier h p q.
Proof.
  unfold upward, isInlier, signedDistance.
  case_decide; [|done]. cbn [nx ny nz d].
  replace (- nx p * px q + - ny p * py q + - nz p * pz q + - d p)
    with (- (nx p * px q + ny p * py q + nz p * pz q + d p)) by ring.
  rewrite Rabs_Ropp. done.
Qed.

Lemma inlierCountOf_upward h points p :
  inlierCountOf h points (upward p) = inlierCountOf h points p.
Proof.
  unfold inlierCountOf. do 2 f_equal.
  apply list_filter_iff. intros q. apply isInlier_upward.
Qed.

Lemma upward_unit p : unitPlane p -> unitPlane (upward p).
Proof.
  unfold upward, unitPlane. case_decide; [|done]. cbn [nx ny nz].
  intros <-. ring.
Qed.

Lemma upward_above h p :
  isHorizontalPlane h p = true -> ny (upward p) > horizontalThreshold h.
Proof.
  unfold isHorizontalPlane, upward. intros Hh%bool_decide_eq_true.
  case_decide as Hneg; cbn [ny].
  - rewrite Rabs_left in Hh by exact Hneg. exact Hh.
  - rewrite Rabs_right in Hh by lra. exact Hh.
Qed.

Lemma estimateGroundPlane_cases (h : HitTester.t)
    (points : option (list R)) (pointCount : Z) (dis : nat -> nat)
    (uninit : Plane3D) (ok : bool) (h' : HitTester.t) :
  (0 < minInliers h)%Z ->
  estimateGroundPlane h points pointCount dis uninit = (ok, h') ->
  if ok then
    exists arr,
      points = Some arr /\ (minInliers h <= pointCount)%Z /\
      hasGroundPlane h' = true /\ settings h' = settings h /\
      unitPlane (getGroundPlane h') /\
      ny (getGroundPlane h') > horizontalThreshold h /\
      (minInliers h
       <= inlierCountOf h (pointsOfArray arr pointCount) (getGroundPlane h'))%Z
  else h' = h.
Proof.
  intros Hmin. unfold estimateGroundPlane.
  destruct points as [arr|]; [|intros [= <- <-]; done].
  destruct (pointCount <? minInliers h)%Z eqn:Hcount; [intros [= <- <-]; done|].
  apply Z.ltb_ge in Hcount. cbv zeta.
  destruct (fitPlaneRANSAC _ _ _ _) as [[plane inliers]|] eqn:Hfit;
    [|intros [= <- <-]; done].
  destruct (isHorizontalPlane h plane) eqn:Hhor; cbn [negb];
    [|intros [= <- <-]; done].
  intros [= <- <-]. exists arr.
  unfold hasGroundPlane, getGroundPlane, settings.
  cbn [groundPlane hasValidPlane ransacIterations ransacThreshold minInliers
       horizontalThreshold].
  unfold fitPlaneRANSAC in Hfit.
  destruct (length _ <? 3)%nat; [discriminate|]. cbv zeta in Hfit.
  pose proof (ransacLoop_bestOk h (pointsOfArray arr pointCount) dis
                (seq 0 (Z.to_nat (ransacIterations h))) [] (0%Z, uninit))
    as Hok.
  cbn [app] in Hok.
  destruct (_ <? minInliers h)%Z eqn:Hlt; [discriminate|].
  apply Z.ltb_ge in Hlt. injection Hfit as <- <-.
  set (best := fold_left _ _ _) in *.
  destruct Hok as [_ Hok]; [split; cbn; lia|].
  destruct Hok as (Hu & Hc & _); [lia|].
  repeat split; try done.
  - apply upward_unit, Hu.
  - apply upward_above, Hhor.
  - rewrite inlierCountOf_upward. lia.
Qed.

(** The flat fixture: the draws 0, 1, 2 span the plane [y = 0], which
    holds all fifty points. *)
Lemma flat_three :
  computePlaneFromPoints (pt3 planePoints 0) (pt3 planePoints 1)
                         (pt3 planePoints 2) = Some flatGround.
Proof.
  change (pt3 planePoints 0) with (mkPoint3f 0 0 0).
  change (pt3 planePoints 1) with (mkPoint3f 0 0 1).
  change (pt3 planePoints 2) with (mkPoint3f 1 0 0).
  unfold computePlaneFromPoints, P3.sub. cbn [px py pz]. cbv zeta.
  match goal with
  | |- context [sqrt ?e] => replace e with 1 by ring
  end.
  rewrite sqrt_1.
  destruct (decide (1 < 1 / 1000000)) as [H|_]; [lra|].
  unfold flatGround. do 2 f_equal; field.
Qed.

Lemma flat_all_inliers q :
  q ∈ planePoints -> isInlier HitTester.new flatGround q.
Proof.
  intros Hq. pose proof planePoints_flat as Hf. rewrite Forall_forall in Hf.
  unfold isInlier, signedDistance, flatGround. cbn. rewrite (Hf q Hq).
  apply Rabs_lt_iff. lra.
Qed.

Lemma flat_count : inlierCountOf HitTester.new planePoints flatGround = 50%Z.
Proof.
  unfold inlierCountOf. rewrite filter_all; [reflexivity|].
  apply Forall_forall. exact flat_all_inliers.
Qed.

Lemma flat_indices : inliersOf HitTester.new planePoints flatGround = seq 0 50.
Proof.
  unfold inliersOf. change (length planePoints) with 50%nat.
  apply filter_all. apply Forall_forall. intros i Hi.
  apply elem_of_seq in Hi. apply flat_all_inliers.
  unfold pt3. apply list_elem_of_In, nth_In.
  change (length planePoints) with 50%nat. lia.
Qed.

Lemma hit_flat_iteration c best iter :
  ransacIteration HitTester.new planePoints (cyclicDraws c) best iter
  = if (best.1 <? 50)%Z then (50%Z, flatGround) else best.
Proof.
  unfold ransacIteration.
  destruct (cyclicDraws_spec c iter) as (-> & -> & ->).
  cbn [Nat.eqb orb]. rewrite flat_three. cbv zeta. rewrite flat_count.
  reflexivity.
Qed.

Lemma hit_flat_loop c iters :
  fold_left (ransacIteration HitTester.new planePoints (cyclicDraws c))
            iters (50%Z, flatGround) = (50%Z, flatGround).
Proof.
  induction iters as [|i iters IH]; [reflexivity|].
  rewrite fold_left_cons_eq, hit_flat_iteration. exact IH.
Qed.

Lemma hit_flat_fit c uninit :
  fitPlaneRANSAC HitTester.new planePoints (cyclicDraws c) uninit
  = Some (flatGround, seq 0 50).
Proof.
  unfold fitPlaneRANSAC.
  change (length planePoints <? 3)%nat with false. cbv iota zeta.
  assert (Hseq : seq 0 (Z.to_nat (ransacIterations HitTester.new))
                 = 0%nat :: seq 1 99) by reflexivity.
  rewrite Hseq, fold_left_cons_eq, hit_flat_iteration.
  change ((0%Z, uninit).1 <? 50)%Z with true. cbv iota.
  rewrite hit_flat_loop. cbn [fst snd].
  change (50 <? minInliers HitTester.new)%Z with false. cbv iota.
  rewrite flat_indices. reflexivity.
Qed.

Lemma cyclicDraws_in_range c k : (cyclicDraws c k < length planePoints)%nat.
Proof.
  unfold cyclicDraws. change (length planePoints) with 50%nat.
  pose proof (Nat.mod_upper_bound k 3). lia.
Qed.

Lemma fitPlaneRANSAC_result_witness :
  unitPlane flatGround /\
  (exists iter p1 p2 p3,
      (iter < Z.to_nat (ransacIterations HitTester.new))%nat /\
      planePoints !! cyclicDraws 0 (3 * iter)%nat = Some p1 /\
      planePoints !! cyclicDraws 0 (3 * iter + 1)%nat = Some p2 /\
      planePoints !! cyclicDraws 0 (3 * iter + 2)%nat = Some p3 /\
      cyclicDraws 0 (3 * iter)%nat <> cyclicDraws 0 (3 * iter + 1)%nat /\
      cyclicDraws 0 (3 * iter + 1)%nat <> cyclicDraws 0 (3 * iter + 2)%nat /\
      cyclicDraws 0 (3 * iter)%nat <> cyclicDraws 0 (3 * iter + 2)%nat /\
      computePlaneFromPoints p1 p2 p3 = Some flatGround /\
      onPlane flatGround p1 /\ onPlane flatGround p2 /\
      onPlane flatGround p3) /\
  (minInliers HitTester.new <= Z.of_nat (length (seq 0 50)))%Z.
Proof.
  pose proof (fitPlaneRANSAC_result HitTester.new planePoints (cyclicDraws 0)
                anyPlane flatGround (seq 0 50) eq_refl
                (cyclicDraws_in_range 0%nat)
                (hit_flat_fit 0%nat anyPlane)) as H.
  exact (conj (proj1 H)
           (conj (proj1 (proj2 H)) (proj1 (proj2 (proj2 (proj2 H)))))).
Defined.

Lemma flatArray_points : pointsOfArray flatArray 50 = planePoints.
Proof. reflexivity. Qed.

Lemma flat_estimate :
  estimateGroundPlane HitTester.new (Some flatArray) 50 (cyclicDraws 0)
                      anyPlane
  = (true, HitTester.mkHitTester flatGround true 100 (3 / 100) 20 (85 / 100)).
Proof.
  unfold estimateGroundPlane.
  change (50 <? minInliers HitTester.new)%Z with false. cbv iota zeta.
  rewrite flatArray_points, hit_flat_fit.
  assert (Hh : isHorizontalPlane HitTester.new flatGround = true).
  { unfold isHorizontalPlane. apply bool_decide_eq_true. cbn.
    rewrite Rabs_R1. lra. }
  rewrite Hh. cbn [negb].
  assert (Hu : upward flatGround = flatGround).
  { unfold upward. case_decide as H; [cbn in H; lra|reflexivity]. }
  rewrite Hu. reflexivity.
Qed.

(** X7: what a call of [estimateGroundPlane] leaves behind. *)
Theorem estimateGroundPlane_outcome (h : HitTester.t)
    (points : option (list R)) (pointCount : Z) (dis : nat -> nat)
    (uninit : Plane3D) (ok : bool) (h' : HitTester.t) :
  (0 < minInliers h)%Z ->
  estimateGroundPlane h points pointCount dis uninit = (ok, h') ->
  if ok then
    exists arr,
      points = Some arr /\ (minInliers h <= pointCount)%Z /\
      hasGroundPlane h' = true /\ settings h' = settings h /\
      unitPlane (getGroundPlane h') /\
      ny (getGroundPlane h') > horizontalThreshold h /\
      (minInliers h
       <= inlierCountOf h (pointsOfArray arr pointCount) (getGroundPlane h'))%Z
  else h' = h.
Proof. apply estimateGroundPlane_cases. Qed.

Lemma estimateGroundPlane_outcome_witness :
  exists arr,
    Some flatArray = Some arr /\ (minInliers HitTester.new <= 50)%Z /\
    hasGroundPlane
      (HitTester.mkHitTester flatGround true 100 (3 / 100) 20 (85 / 100))
    = true.
Proof.
  destruct (estimateGroundPlane_outcome HitTester.new (Some flatArray) 50
              (cyclicDraws 0) anyPlane true _ eq_refl flat_estimate)
    as (arr & H1 & H2 & H3 & _).
  exists arr. exact (conj H1 (conj H2 H3)).
Defined.

Lemma setDefault_ground h :
  groundPlane (setDefaultGroundPlane h) = mkPlane3D 0 1 0 0 /\
  hasValidPlane (setDefaultGroundPlane h) = true /\
  settings (setDefaultGroundPlane h) = settings h.
Proof. done. Qed.

(** What holds of a hit tester after every sequence of calls. *)
Lemma hitStep_invariant h c :
  let good h :=
    hasValidPlane h = true /\ unitPlane (groundPlane h) /\
    ny (groundPlane h) > 85 / 100 /\
    settings h = (100%Z, 3 / 100, 20%Z, 85 / 100) in
  good h -> good (hitStep h c).
Proof.
  intros good (Hv & Hu & Hny & Hs). destruct c as [|points n dis uninit].
  - unfold good, hitStep. cbn [setDefaultGroundPlane groundPlane hasValidPlane].
    split; [done|]. split; [unfold unitPlane; cbn; ring|].
    split; [cbn; lra|]. exact Hs.
  - unfold hitStep.
    destruct (estimateGroundPlane h points n dis uninit) as [ok h'] eqn:E.
    assert (Hmin : (0 < minInliers h)%Z).
    { unfold settings in Hs. injection Hs as _ _ -> _. lia. }
    assert (Hthr : horizontalThreshold h = 85 / 100).
    { unfold settings in Hs. injection Hs as _ _ _ ->. done. }
    pose proof (estimateGroundPlane_cases h points n dis uninit ok h' Hmin E)
      as Hcases.
    cbn [snd]. destruct ok.
    + destruct Hcases as (arr & _ & _ & Hv' & Hs' & Hu' & Hny' & _).
      unfold good. rewrite Hs', Hs. rewrite Hthr in Hny'. done.
    + subst h'. done.
Qed.

(** X8: the ground plane of a hit tester is always valid, horizontal
    and facing up. *)
Theorem hitRun_ground_plane (calls : list HitCall) :
  let h := hitRun calls in
  hasGroundPlane h = true /\
  unitPlane (getGroundPlane h) /\
  ny (getGroundPlane h) > 85 / 100 /\
  settings h = (100%Z, 3 / 100, 20%Z, 85 / 100).
Proof.
  unfold hitRun.
  assert (Hnew : hasValidPlane HitTester.new = true /\
                 unitPlane (groundPlane HitTester.new) /\
                 ny (groundPlane HitTester.new) > 85 / 100 /\
                 settings HitTester.new = (100%Z, 3 / 100, 20%Z, 85 / 100)).
  { split; [done|]. split; [unfold unitPlane; cbn; ring|].
    split; [cbn; lra|done]. }
  revert Hnew. generalize HitTester.new.
  induction calls as [|c calls IH]; intros h Hh; [exact Hh|].
  cbn [fold_left]. apply IH. apply (hitStep_invariant h c Hh).
Qed.
End HitTestMore.

(** ** The plane detector: RANSAC, the stored planes and their hit test *)

Section PlanesMore.
Import PlaneDetector Fixtures.
Local Open Scope R_scope.

(** *** RANSAC of the plane detector *)

Lemma collectInliers_neg points n d :
  collectInliers points (P3.neg n) (- d) = collectInliers points n d.
Proof.
  unfold collectInliers. apply list_filter_iff. intros i.
  replace (P3.dot (P3.neg n) (at3 points i) + - d)
    with (- (P3.dot n (at3 points i) + d))
    by (unfold P3.dot, P3.neg; cbn; ring).
  rewrite Rabs_Ropp. done.
Qed.

Lemma collectInliers_length points n d :
  (length (collectInliers points n d) <= length points)%nat.
Proof.
  unfold collectInliers.
  etransitivity; [apply length_filter|]. rewrite length_seq. done.
Qed.

Lemma collectInliers_elem points n d i :
  i ∈ collectInliers points n d <->
  (i < length points)%nat /\
  Rabs (P3.dot n (at3 points i) + d) < RANSAC_THRESHOLD.
Proof.
  unfold collectInliers. rewrite list_elem_of_filter, elem_of_seq.
  intuition lia.
Qed.

Lemma ransacIteration_consistent points dis seen b iter :
  bestConsistent points dis seen b ->
  bestConsistent points dis (seen ++ [iter]) (ransacIteration points dis b iter).
Proof.
  intros Hb.
  assert (Hkeep : bestConsistent points dis (seen ++ [iter]) b).
  { destruct Hb as [Hlen Hb]. split; [exact Hlen|]. intros Hpos.
    destruct (Hb Hpos) as (Hin & it & Hit & Hon). split; [exact Hin|].
    exists it. split; [apply elem_of_app; auto|exact Hon]. }
  unfold ransacIteration. cbv zeta.
  destruct (_ || _) eqn:Hdup; [exact Hkeep|].
  apply orb_false_elim in Hdup as [Hdup H13].
  apply orb_false_elim in Hdup as [H12 H23].
  apply Nat.eqb_neq in H12, H23, H13.
  case_decide as Hnorm; [exact Hkeep|].
  destruct (_ <? _)%nat eqn:Hlt; [|exact Hkeep].
  clear Hkeep.
  split; cbn [bestInlierCount bestInliers bestNormal bestD]; [done|].
  intros _. split; [done|].
  exists iter.
  split; [apply elem_of_app; right; apply list_elem_of_singleton; done|].
  unfold drawnOn. do 3 (split; [assumption|]).
  set (p1 := at3 points (dis (3 * iter)%nat)) in *.
  set (p2 := at3 points (dis (3 * iter + 1)%nat)) in *.
  set (p3 := at3 points (dis (3 * iter + 2)%nat)) in *.
  set (n0 := P3.cross (P3.sub p2 p1) (P3.sub p3 p1)) in *.
  assert (Hnz : P3.norm n0 <> 0).
  { intros Hz. apply Hnorm. rewrite Hz. lra. }
  set (k := P3.norm n0) in *. clearbody k.
  unfold n0, P3.dot, P3.divide, P3.cross, P3.sub. cbn [px py pz].
  split; [|split]; field; exact Hnz.
Qed.

Lemma ransacLoop_consistent points dis iters seen b :
  bestConsistent points dis seen b ->
  bestConsistent points dis (seen ++ iters)
                 (fold_left (ransacIteration points dis) iters b).
Proof.
  revert seen b. induction iters as [|i iters IH]; intros seen b Hb.
  - rewrite app_nil_r. exact Hb.
  - cbn [fold_left]. replace (seen ++ i :: iters) with ((seen ++ [i]) ++ iters)
      by (rewrite <- app_assoc; reflexivity).
    apply IH, ransacIteration_consistent, Hb.
Qed.

Lemma best_inliers points dis seen (b : Best) n d inliers :
  bestConsistent points dis seen b ->
  (if (bestInlierCount b <? MIN_PLANE_POINTS)%nat then None
   else if decide (py (bestNormal b) < 0)
        then Some (P3.neg (bestNormal b), - bestD b, bestInliers b)
        else Some (bestNormal b, bestD b, bestInliers b))
  = Some (n, d, inliers) ->
  inliers = collectInliers points n d /\
  (MIN_PLANE_POINTS <= length inliers)%nat /\
  exists iter, iter ∈ seen /\ drawnOn points dis iter n d.
Proof.
  intros [Hlen Hc].
  destruct (_ <? MIN_PLANE_POINTS)%nat eqn:Hmin; [discriminate|].
  apply Nat.ltb_ge in Hmin.
  destruct Hc as (Hin & iter & Hit & H12 & H23 & H13 & Ha & Hb & Hc).
  { unfold MIN_PLANE_POINTS in Hmin. lia. }
  rewrite Hlen in Hmin.
  case_decide as Hflip; intros [= <- <- <-].
  - rewrite collectInliers_neg. split; [done|]. split; [exact Hmin|].
    exists iter. split; [exact Hit|].
    unfold drawnOn. do 3 (split; [assumption|]).
    assert (Hneg : forall q, P3.dot (P3.neg (bestNormal b)) q + - bestD b
                             = - (P3.dot (bestNormal b) q + bestD b)).
    { intros q. unfold P3.dot, P3.neg. cbn. ring. }
    rewrite !Hneg, Ha, Hb, Hc. repeat split; ring.
  - split; [done|]. split; [exact Hmin|]. exists iter.
    split; [exact Hit|]. unfold drawnOn. done.
Qed.

Lemma fitPlaneRANSAC_inliers points dis n d inliers :
  fitPlaneRANSAC points dis = Some (n, d, inliers) ->
  inliers = collectInliers points n d /\
  (MIN_PLANE_POINTS <= length inliers)%nat /\
  exists iter,
    (iter < RANSAC_ITERATIONS)%nat /\ drawnOn points dis iter n d.
Proof.
  unfold fitPlaneRANSAC.
  destruct (length points <? 3)%nat; [discriminate|].
  intros Hfit.
  assert (Hstart : bestConsistent points dis [] (mkBest 0 origin 0 [])).
  { split; [reflexivity|]. intros H. inversion H. }
  destruct (best_inliers points dis _ _ n d inliers
              (ransacLoop_consistent points dis (seq 0 RANSAC_ITERATIONS) []
                 _ Hstart) Hfit)
    as (Hin & Hmin & iter & Hit & Hon).
  split; [exact Hin|]. split; [exact Hmin|]. exists iter.
  split; [|exact Hon]. cbn [app] in Hit. apply elem_of_seq in Hit. lia.
Qed.

Lemma at3_lookup (points : list Point3f) (i : nat) :
  (i < length points)%nat -> points !! i = Some (at3 points i).
Proof.
  intros Hi. unfold at3.
  destruct (lookup_lt_is_Some_2 points i Hi) as [q Hq].
  rewrite Hq. f_equal. symmetry. apply nth_lookup_Some, Hq.
Qed.

(** X9: the plane and the inliers a successful [fitPlaneRANSAC] of the
    plane detector hands back, when the draws are indices of [points]:
    the plane passes through three input points, drawn at distinct
    indices in one turn of the loop. *)
Theorem fitPlaneRANSAC_plane (points : list Point3f) (dis : nat -> nat)
    (n : Point3f) (d : R) (inliers : list nat) :
  (forall k, (dis k < length points)%nat) ->
  fitPlaneRANSAC points dis = Some (n, d, inliers) ->
  P3.norm n = 1 /\ 0 <= py n /\
  (exists iter p1 p2 p3,
      (iter < 100)%nat /\
      points !! dis (3 * iter)%nat = Some p1 /\
      points !! dis (3 * iter + 1)%nat = Some p2 /\
      points !! dis (3 * iter + 2)%nat = Some p3 /\
      dis (3 * iter)%nat <> dis (3 * iter + 1)%nat /\
      dis (3 * iter + 1)%nat <> dis (3 * iter + 2)%nat /\
      dis (3 * iter)%nat <> dis (3 * iter + 2)%nat /\
      P3.dot n p1 + d = 0 /\ P3.dot n p2 + d = 0 /\ P3.dot n p3 + d = 0) /\
  (forall i, i ∈ inliers <->
             (i < length points)%nat /\
             Rabs (P3.dot n (at3 points i) + d) < 2 / 100) /\
  (50 <= length inliers <= length points)%nat.
Proof.
  intros Hdraws Hfit.
  destruct (fitPlaneRANSAC_unitUp _ _ _ _ _ Hfit) as [Hup Hunit].
  destruct (fitPlaneRANSAC_inliers _ _ _ _ _ Hfit)
    as (-> & Hmin & iter & Hit & H12 & H23 & H13 & Ha & Hb & Hc).
  split; [exact Hunit|]. split; [exact Hup|]. split.
  { exists iter, (at3 points (dis (3 * iter)%nat)),
           (at3 points (dis (3 * iter + 1)%nat)),
           (at3 points (dis (3 * iter + 2)%nat)).
    split; [exact Hit|]. do 3 (split; [apply at3_lookup, Hdraws|]). done. }
  split; [intros i; apply collectInliers_elem|].
  split; [exact Hmin|apply collectInliers_length].
Qed.

Lemma fitPlaneRANSAC_plane_witness :
  P3.norm (P3.divide (mkPoint3f 0 1 0) 1) = 1 /\
  (exists iter p1 p2 p3,
      (iter < 100)%nat /\
      planePoints !! cyclicDraws 0 (3 * iter)%nat = Some p1 /\
      planePoints !! cyclicDraws 0 (3 * iter + 1)%nat = Some p2 /\
      planePoints !! cyclicDraws 0 (3 * iter + 2)%nat = Some p3 /\
      cyclicDraws 0 (3 * iter)%nat <> cyclicDraws 0 (3 * iter + 1)%nat /\
      cyclicDraws 0 (3 * iter + 1)%nat <> cyclicDraws 0 (3 * iter + 2)%nat /\
      cyclicDraws 0 (3 * iter)%nat <> cyclicDraws 0 (3 * iter + 2)%nat /\
      P3.dot (P3.divide (mkPoint3f 0 1 0) 1) p1 + - 0 = 0 /\
      P3.dot (P3.divide (mkPoint3f 0 1 0) 1) p2 + - 0 = 0 /\
      P3.dot (P3.divide (mkPoint3f 0 1 0) 1) p3 + - 0 = 0) /\
  (50 <= length (seq 0 50) <= length planePoints)%nat.
Proof.
  pose proof (fitPlaneRANSAC_plane planePoints (cyclicDraws 0) _ _ _
                (cyclicDraws_in_range 0%nat)
                (flat_fit 0%nat)) as H.
  exact (conj (proj1 H)
           (conj (proj1 (proj2 (proj2 H))) (proj2 (proj2 (proj2 (proj2 H)))))).
Defined.

(** *** The fields of the stored planes *)

Lemma bounds_ordered (F : R * R * R * R -> Point3f -> R * R * R * R)
    (pts : list Point3f) (acc : R * R * R * R) :
  (forall a p, exists x z,
      F a p = (Rmin a.1.1.1 x, Rmax a.1.1.2 x, Rmin a.1.2 z, Rmax a.2 z)) ->
  pts <> [] ->
  (fold_left F pts acc).1.1.1 <= (fold_left F pts acc).1.1.2 /\
  (fold_left F pts acc).1.2 <= (fold_left F pts acc).2.
Proof.
  intros HF Hne.
  assert (Hkeep : forall l a, a.1.1.1 <= a.1.1.2 /\ a.1.2 <= a.2 ->
                  (fold_left F l a).1.1.1 <= (fold_left F l a).1.1.2 /\
                  (fold_left F l a).1.2 <= (fold_left F l a).2).
  { induction l as [|p l IH]; intros a Ha; [exact Ha|].
    cbn [fold_left]. apply IH.
    destruct (HF a p) as (x & z & ->). cbn [fst snd].
    split.
    - etransitivity; [apply Rmin_l|]. etransitivity; [apply Ha|apply Rmax_l].
    - etransitivity; [apply Rmin_l|]. etransitivity; [apply Ha|apply Rmax_l]. }
  destruct pts as [|p pts]; [done|]. cbn [fold_left].
  apply Hkeep. destruct (HF acc p) as (x & z & ->). cbn [fst snd].
  split; (etransitivity; [apply Rmin_r|apply Rmax_r]).
Qed.

Lemma computePlaneBounds_fields pts n plane :
  pts <> [] ->
  id (computePlaneBounds pts n plane) = id plane /\
  normal (computePlaneBounds pts n plane) = normal plane /\
  isHorizontal (computePlaneBounds pts n plane) = isHorizontal plane /\
  confidence (computePlaneBounds pts n plane) = confidence plane /\
  0 <= width (computePlaneBounds pts n plane) /\
  0 <= height (computePlaneBounds pts n plane) /\
  length (corners (computePlaneBounds pts n plane)) = 4%nat.
Proof.
  intros Hne. unfold computePlaneBounds.
  destruct pts as [|q pts]; [done|]. cbv zeta.
  set (pts' := q :: pts) in *.
  match goal with
  | |- context [fold_left ?f pts' (FLT_MAX, ?a1, ?a2, ?a3)] =>
      assert (Hord := bounds_ordered f pts' (FLT_MAX, a1, a2, a3));
      destruct (fold_left f pts' (FLT_MAX, a1, a2, a3))
        as [[[minX maxX] minZ] maxZ]
  end.
  destruct Hord as [Hx Hz]; [|exact Hne|].
  { intros [[[a1 a2] a3] a4] p. eexists _, _. reflexivity. }
  cbn [fst snd] in Hx, Hz.
  cbn [set_bounds id normal isHorizontal confidence width height
       corners length].
  repeat split; try reflexivity; lra.
Qed.

Lemma planeKept_refl p : planeKept p p.
Proof. unfold planeKept. repeat split; lra. Qed.

Lemma planeKept_trans p q r : planeKept p q -> planeKept q r -> planeKept p r.
Proof.
  unfold planeKept.
  intros (-> & -> & -> & -> & ? & ? & ?) (-> & -> & -> & -> & ? & ? & ?).
  repeat split; lra.
Qed.

Lemma planesKept_refl pd : planesKept pd pd.
Proof. intros i p Hp. eauto using planeKept_refl. Qed.

Lemma planesKept_trans a b c : planesKept a b -> planesKept b c -> planesKept a c.
Proof.
  intros Hab Hbc i p Hp.
  destruct (Hab i p Hp) as (q & Hq & Hpq).
  destruct (Hbc i q Hq) as (r & Hr & Hqr).
  eauto using planeKept_trans.
Qed.

Lemma merged_fields e p :
  planeShape e -> planeShape p ->
  planeShape (merged e p) /\ planeKept e (merged e p).
Proof.
  unfold planeShape, planeKept, merged. cbn.
  intros ([He0 He1] & Hw & Hh & Hc) ([Hp0 Hp1] & Hw' & Hh' & _).
  repeat split; try done.
  - apply Rmin_glb_lt; lra.
  - apply Rmin_l.
  - etransitivity; [exact Hw|apply Rmax_l].
  - etransitivity; [exact Hh|apply Rmax_l].
  - apply Rmax_l.
  - apply Rmax_l.
  - apply Rmin_glb; lra.
Qed.

Lemma placePlane_sane pd plane :
  planesSane pd -> planeShape plane -> id plane = nextPlaneId pd ->
  let pd' := placePlane (mkPlaneDetector (planes pd) (nextPlaneId pd + 1))
                        plane in
  planesSane pd' /\ planesKept pd pd' /\
  (length (planes pd) <= length (planes pd') <= length (planes pd) + 1)%nat.
Proof.
  intros [[Hid Hnext] Hshape] Hplane Hpid. unfold placePlane, findMergeablePlane.
  cbn [planes nextPlaneId].
  destruct (findMergeablePlane_from_spec 0 (planes pd) plane)
    as [[-> _]|(k & e & -> & Hk & _ & _)].
  - change (0 <=? -1)%Z with false. cbv iota.
    split; [split; [split|]|split].
    + intros i p. cbn [planes]. intros Hi.
      apply lookup_app_Some in Hi as [Hi|[Hlen Hi]]; [eauto|].
      apply list_lookup_singleton_Some in Hi as [Hi <-].
      rewrite Hpid, Hnext. f_equal. lia.
    + cbn [planes nextPlaneId]. rewrite length_app. cbn [length]. lia.
    + cbn [planes]. apply Forall_app. split; [exact Hshape|].
      constructor; [exact Hplane|constructor].
    + intros i p Hi. exists p. cbn [planes].
      rewrite lookup_app_l by (eapply lookup_lt_Some; eauto).
      split; [exact Hi|apply planeKept_refl].
    + cbn [planes]. rewrite length_app. cbn [length]. lia.
  - assert (Hpos : (0 <=? Z.of_nat (0 + k))%Z = true) by (apply Z.leb_le; lia).
    rewrite Hpos. unfold mergePlanes. cbn [planes nextPlaneId].
    rewrite Nat2Z.id. cbn [Nat.add].
    assert (He : planeShape e).
    { rewrite Forall_forall in Hshape. apply Hshape.
      eapply list_elem_of_lookup_2; eauto. }
    destruct (merged_fields e plane He Hplane) as [Hm Hkept].
    unfold planesSane, planesIndexed, planesKept. cbn [planes nextPlaneId].
    split; [split; [split|]|split].
    + intros i p. rewrite list_lookup_alter.
      case_decide as Hik.
      * subst i. rewrite Hk. cbn. intros [= <-]. cbn. eauto.
      * eauto.
    + rewrite length_alter. lia.
    + apply Forall_alter; [exact Hshape|].
      intros x Hx _. rewrite Hk in Hx. injection Hx as <-. exact Hm.
    + intros i p Hi. rewrite list_lookup_alter.
      case_decide as Hik.
      * subst i. rewrite Hk in Hi |- *. injection Hi as <-.
        cbn. eauto.
      * eauto using planeKept_refl.
    + rewrite length_alter. lia.
Qed.

Lemma length_delete_le {A} (l : list A) i : (length (delete i l) <= length l)%nat.
Proof.
  revert i. induction l as [|x l IH]; intros [|i]; cbn; try lia.
  apply le_n_S, IH.
Qed.

Lemma eraseInliers_length inliers pts :
  (length (eraseInliers inliers pts) <= length pts)%nat.
Proof.
  unfold eraseInliers. generalize (merge_sort (flip Nat.le) inliers).
  intros l. revert pts. induction l as [|i l IH]; intros pts; [done|].
  cbn [fold_left]. etransitivity; [apply IH|apply length_delete_le].
Qed.

Lemma ratio_positive (a b : nat) :
  (0 < a)%nat -> (a <= b)%nat -> 0 < INR a / INR b <= 1.
Proof.
  intros Ha Hab.
  assert (0 < INR a) by (apply lt_0_INR; lia).
  assert (0 < INR b) by (apply lt_0_INR; lia).
  split; [apply Rdiv_lt_0_compat; assumption|].
  apply (ratio_in_unit a b); lia.
Qed.

Lemma detectPlanes_loop_sane fuel planeCount total rd pts pd :
  (length pts <= total)%nat -> planesSane pd ->
  let pd' := detectPlanes_loop fuel planeCount total rd pts pd in
  planesSane pd' /\ planesKept pd pd' /\
  (length (planes pd) <= length (planes pd') <= length (planes pd) + fuel)%nat.
Proof.
  revert planeCount pts pd.
  induction fuel as [|fuel IH]; intros planeCount pts pd Hlen Hsane.
  { cbn. split; [exact Hsane|]. split; [apply planesKept_refl|lia]. }
  cbn [detectPlanes_loop].
  assert (Hstop : planesSane pd /\ planesKept pd pd /\
                  (length (planes pd) <= length (planes pd)
                   <= length (planes pd) + S fuel)%nat).
  { split; [exact Hsane|]. split; [apply planesKept_refl|lia]. }
  destruct (length pts <? MIN_PLANE_POINTS)%nat; [exact Hstop|].
  destruct (fitPlaneRANSAC pts (rd planeCount)) as [[[n d] inliers]|] eqn:Hfit;
    [|exact Hstop].
  destruct (length inliers <? MIN_PLANE_POINTS)%nat eqn:Hmin; [exact Hstop|].
  apply Nat.ltb_ge in Hmin. unfold MIN_PLANE_POINTS in Hmin.
  destruct (fitPlaneRANSAC_inliers _ _ _ _ _ Hfit) as (Hin & _ & _).
  assert (Hle : (length inliers <= length pts)%nat).
  { rewrite Hin. apply collectInliers_length. }
  cbv zeta.
  set (plane :=
         computePlaneBounds (map (at3 pts) inliers) n
           (mkDetectedPlane (nextPlaneId pd) origin n 0 0 []
              (isPlaneHorizontal n) (INR (length inliers) / INR total))).
  assert (Hne : map (at3 pts) inliers <> []).
  { destruct inliers; [cbn in Hmin; lia|discriminate]. }
  pose proof (computePlaneBounds_fields (map (at3 pts) inliers) n
                (mkDetectedPlane (nextPlaneId pd) origin n 0 0 []
                   (isPlaneHorizontal n) (INR (length inliers) / INR total))
                Hne) as (Hid & _ & _ & Hconf & Hw & Hh & Hcs).
  fold plane in Hid, Hconf, Hw, Hh, Hcs. cbn in Hid, Hconf.
  assert (Hshape : planeShape plane).
  { unfold planeShape. rewrite Hconf.
    split; [apply ratio_positive; lia|done]. }
  destruct (placePlane_sane pd plane Hsane Hshape Hid) as (Hs1 & Hk1 & Hl1).
  cbv zeta in Hs1, Hk1, Hl1.
  set (pd2 := placePlane _ plane) in *.
  destruct (IH (S planeCount) (eraseInliers inliers pts) pd2) as (Hs2 & Hk2 & Hl2).
  { etransitivity; [apply eraseInliers_length|exact Hlen]. }
  { exact Hs1. }
  cbv zeta in Hs2, Hk2, Hl2.
  split; [exact Hs2|]. split; [eapply planesKept_trans; eauto|lia].
Qed.

Lemma detectPlanes_sane pd frame pts pose rd :
  planesSane pd ->
  planesSane (snd (detectPlanes pd frame pts pose rd)) /\
  planesKept pd (snd (detectPlanes pd frame pts pose rd)) /\
  (length (planes pd) <= length (planes (snd (detectPlanes pd frame pts pose rd)))
   <= length (planes pd) + 3)%nat.
Proof.
  intros Hsane. unfold detectPlanes.
  destruct (length pts <? MIN_PLANE_POINTS)%nat.
  { cbn. split; [exact Hsane|]. split; [apply planesKept_refl|lia]. }
  cbv zeta. cbn [snd].
  apply (detectPlanes_loop_sane 3 0 (length pts) rd pts pd); [lia|exact Hsane].
Qed.

Lemma new_planesSane : planesSane PlaneDetector.new.
Proof.
  split; [split|]; [intros i p Hi; cbn in Hi; done|reflexivity|constructor].
Qed.

Lemma detectAll_sane calls pd : planesSane pd -> planesSane (detectAll pd calls).
Proof.
  revert pd. induction calls as [|c calls IH]; intros pd Hpd; [exact Hpd|].
  cbn [detectAll fold_left]. apply IH. apply detectPlanes_sane, Hpd.
Qed.

(** X10: the stored planes are numbered by their position. *)
Theorem detectAll_numbered (calls : list DetectCall) :
  let pd := detectAll PlaneDetector.new calls in
  (forall i p, getDetectedPlanes pd !! i = Some p -> id p = Z.of_nat i) /\
  nextPlaneId pd = Z.of_nat (length (getDetectedPlanes pd)).
Proof. apply (detectAll_sane calls _ new_planesSane). Qed.

(** X11: the confidence, the size and the corners of every stored plane. *)
Theorem detectAll_shape (calls : list DetectCall) (p : DetectedPlane) :
  p ∈ getDetectedPlanes (detectAll PlaneDetector.new calls) ->
  0 < confidence p <= 1 /\ 0 <= width p /\ 0 <= height p /\
  length (corners p) = 4%nat.
Proof.
  intros Hp.
  destruct (detectAll_sane calls _ new_planesSane) as [_ Hshape].
  rewrite Forall_forall in Hshape. exact (Hshape p Hp).
Qed.

Lemma detectAll_shape_witness :
  exists p,
    p ∈ getDetectedPlanes (detectAll PlaneDetector.new [Fixtures.flatCall]) /\
    0 < confidence p <= 1 /\ 0 <= width p /\ 0 <= height p /\
    length (corners p) = 4%nat.
Proof.
  destruct flat_run as [p Hp]. exists p.
  assert (Hin : p ∈ getDetectedPlanes
                      (detectAll PlaneDetector.new [Fixtures.flatCall])).
  { unfold getDetectedPlanes. rewrite Hp. apply list_elem_of_here. }
  split; [exact Hin|].
  exact (detectAll_shape [Fixtures.flatCall] p Hin).
Defined.

(** X12: a call of [detectPlanes] keeps the stored planes and adds at most
    three. *)
Theorem detectPlanes_grows (calls : list DetectCall) (frame : Image)
    (pts : list Point3f) (pose : Mat) (rd : nat -> nat -> nat) :
  let pd := detectAll PlaneDetector.new calls in
  let r := detectPlanes pd frame pts pose rd in
  ((length pts < 50)%nat -> r = (false, pd)) /\
  ((50 <= length pts)%nat ->
   fst r = negb (bool_decide (planes (snd r) = []))) /\
  (length (planes pd) <= length (planes (snd r)) <= length (planes pd) + 3)%nat /\
  (forall i p, planes pd !! i = Some p ->
     exists p', planes (snd r) !! i = Some p' /\
       id p' = id p /\ normal p' = normal p /\
       isHorizontal p' = isHorizontal p /\ corners p' = corners p /\
       width p <= width p' /\ height p <= height p' /\
       confidence p <= confidence p').
Proof.
  intros pd r.
  destruct (detectPlanes_sane pd frame pts pose rd
              (detectAll_sane calls _ new_planesSane)) as (_ & Hkept & Hlen).
  fold r in Hkept, Hlen.
  split; [|split; [|split; [exact Hlen|exact Hkept]]].
  - intros Hshort. unfold r, detectPlanes.
    assert (Hb : (length pts <? MIN_PLANE_POINTS)%nat = true)
      by (apply Nat.ltb_lt; unfold MIN_PLANE_POINTS; lia).
    rewrite Hb. reflexivity.
  - intros Hlong. unfold r, detectPlanes.
    assert (Hb : (length pts <? MIN_PLANE_POINTS)%nat = false)
      by (apply Nat.ltb_ge; unfold MIN_PLANE_POINTS; lia).
    rewrite Hb. reflexivity.
Qed.

(** *** Hit test against the stored planes *)

Lemma hitTestStep_ok cam dir seen st plane :
  hitLoopOk cam dir seen st ->
  hitLoopOk cam dir (seen ++ [plane]) (hitTestStep cam dir st plane).
Proof.
  intros [Hmin Hfound].
  assert (Hskip :
    (forall t, planeHit cam dir plane t -> st.1 <= t) ->
    hitLoopOk cam dir (seen ++ [plane]) st).
  { intros Hno. split.
    - intros p t Hp Ht. apply elem_of_app in Hp as [Hp|Hp]; [eauto|].
      apply list_elem_of_singleton in Hp as ->. eauto.
    - destruct st.2 as [[q i]|]; [|exact Hfound].
      destruct Hfound as (p & Hp & Hrest). exists p.
      split; [apply elem_of_app; left; exact Hp|exact Hrest]. }
  unfold hitTestStep. cbv zeta.
  case_decide as Hden.
  { apply Hskip. intros t (Hd & _). done. }
  case_decide as Hneg.
  { apply Hskip. intros t (_ & -> & Hpos & _). lra. }
  destruct (bool_decide _) eqn:Hdist; cbn [andb].
  2: { apply Hskip. intros t (_ & -> & _ & Hd).
       apply bool_decide_eq_false in Hdist. done. }
  destruct (bool_decide (_ < st.1)) eqn:Hcloser.
  2: { apply Hskip. intros t (_ & -> & _ & _).
       apply bool_decide_eq_false in Hcloser. lra. }
  apply bool_decide_eq_true in Hdist, Hcloser.
  set (t0 := P3.dot (P3.sub (center plane) cam) (normal plane)
             / P3.dot dir (normal plane)) in *.
  assert (Hhit : planeHit cam dir plane t0).
  { split; [exact Hden|]. split; [reflexivity|]. split; [lra|exact Hdist]. }
  assert (Hmax : st.1 <= FLT_MAX).
  { destruct st.2 as [[q i]|]; [|lra].
    destruct Hfound as (_ & _ & _ & ? & _). lra. }
  split; cbn [fst snd].
  - intros p t Hp Ht. apply elem_of_app in Hp as [Hp|Hp].
    + specialize (Hmin p t Hp Ht). lra.
    + apply list_elem_of_singleton in Hp as ->.
      destruct Ht as (_ & -> & _). fold t0. lra.
  - exists plane. split; [apply elem_of_app; right; constructor|].
    split; [exact Hhit|]. split; [lra|done].
Qed.

Lemma hitTestLoop_ok cam dir planes0 seen st :
  hitLoopOk cam dir seen st ->
  hitLoopOk cam dir (seen ++ planes0)
            (fold_left (hitTestStep cam dir) planes0 st).
Proof.
  revert seen st.
  induction planes0 as [|p planes0 IH]; intros seen st Hok; cbn [fold_left].
  - rewrite app_nil_r. exact Hok.
  - replace (seen ++ p :: planes0) with ((seen ++ [p]) ++ planes0)
      by (rewrite <- app_assoc; reflexivity).
    apply IH, hitTestStep_ok, Hok.
Qed.

Lemma planeHit_on_plane cam dir plane t :
  planeHit cam dir plane t ->
  P3.dot (P3.sub (P3.add cam (P3.scale dir t)) (center plane)) (normal plane)
  = 0.
Proof.
  intros (Hden & -> & _). apply tiny_nonzero in Hden; [|lra].
  unfold P3.dot, P3.sub, P3.add, P3.scale in *. cbn [px py pz] in *.
  field. exact Hden.
Qed.

Lemma hitTest_cases pd sx sy K pose :
  let cam := cameraPosOf pose in
  let dir := rayDirOf sx sy K pose in
  match hitTest pd sx sy K pose with
  | Some (q, i) =>
    exists plane t,
      plane ∈ planes pd /\ id plane = i /\ planeHit cam dir plane t /\
      t < FLT_MAX /\ q = P3.add cam (P3.scale dir t) /\
      (forall plane' t', plane' ∈ planes pd -> planeHit cam dir plane' t' ->
                         t <= t')
  | None =>
    forall plane t, plane ∈ planes pd -> planeHit cam dir plane t ->
                    FLT_MAX <= t
  end.
Proof.
  intros cam dir. unfold hitTest. fold cam dir.
  destruct (planes pd) as [|p0 ps] eqn:Hps.
  { intros plane t Hp. apply elem_of_nil in Hp. done. }
  rewrite <- Hps. clear Hps p0 ps.
  pose proof (hitTestLoop_ok cam dir (planes pd) [] (FLT_MAX, None)) as Hok.
  cbn [app] in Hok.
  destruct (fold_left _ _ _) as [m found].
  destruct Hok as [Hmin Hfound].
  { split; [|reflexivity]. intros plane t Hp. apply elem_of_nil in Hp. done. }
  cbn [fst snd] in *. destruct found as [[q i]|].
  - destruct Hfound as (plane & Hp & Hhit & Hlt & -> & ->).
    exists plane, m. do 2 (split; [done|]). split; [exact Hhit|].
    split; [exact Hlt|]. split; [reflexivity|exact Hmin].
  - subst m. exact Hmin.
Qed.

(** X13: what [hitTest] of the plane detector reports. *)
Theorem hitTest_nearest_plane (pd : PlaneDetector.t) (sx sy : R)
    (K pose : Mat) :
  let cam := cameraPosOf pose in
  let dir := rayDirOf sx sy K pose in
  (planes pd = [] -> hitTest pd sx sy K pose = None) /\
  (forall q i,
      hitTest pd sx sy K pose = Some (q, i) ->
      exists plane t,
        plane ∈ planes pd /\ id plane = i /\ 0 <= t /\
        q = P3.add cam (P3.scale dir t) /\
        P3.dot (P3.sub q (center plane)) (normal plane) = 0 /\
        P3.norm (P3.sub q (center plane))
        < Rmax (width plane) (height plane) * (6 / 10) /\
        (forall plane' t', plane' ∈ planes pd ->
                           planeHit cam dir plane' t' -> t <= t')) /\
  (hitTest pd sx sy K pose = None ->
   forall plane t, plane ∈ planes pd -> planeHit cam dir plane t ->
                   FLT_MAX <= t).
Proof.
  intros cam dir.
  pose proof (hitTest_cases pd sx sy K pose) as Hc. cbv zeta in Hc.
  fold cam dir in Hc.
  split; [|split].
  - unfold hitTest. intros ->. reflexivity.
  - intros q i Heq. rewrite Heq in Hc.
    destruct Hc as (plane & t & Hp & Hid & Hhit & _ & -> & Hmin).
    exists plane, t. split; [exact Hp|]. split; [exact Hid|].
    split; [apply Hhit|]. split; [reflexivity|].
    split; [apply planeHit_on_plane, Hhit|]. split; [apply Hhit|exact Hmin].
  - intros Heq. rewrite Heq in Hc. exact Hc.
Qed.

Lemma down_cam : cameraPosOf downPose = mkPoint3f 0 1 0.
Proof. reflexivity. Qed.

Lemma down_dir :
  rayDirOf 320 240 (SLAMSystem.K SLAMSystem.new) downPose
  = mkPoint3f 0 (-1) 0.
Proof.
  unfold rayDirOf. cbv zeta.
  assert (Hraw :
    M.mul (M.rect 0 0 3 3 downPose)
          [[(320 - M.at_ (SLAMSystem.K SLAMSystem.new) 0 2)
            / M.at_ (SLAMSystem.K SLAMSystem.new) 0 0];
           [(240 - M.at_ (SLAMSystem.K SLAMSystem.new) 1 2)
            / M.at_ (SLAMSystem.K SLAMSystem.new) 1 1];
           [1]]
    = [[0]; [-1]; [0]]).
  { cbv -[IZR Rplus Rmult Rminus Ropp Rdiv]. repeat f_equal; field. }
  rewrite Hraw. cbn [M.at_ nth].
  assert (Hn : P3.norm (mkPoint3f 0 (-1) 0) = 1).
  { unfold P3.norm. cbn [px py pz].
    replace (0 * 0 + -1 * -1 + 0 * 0) with 1 by ring. apply sqrt_1. }
  rewrite Hn. unfold P3.divide. cbn [px py pz]. f_equal; field.
Qed.

Lemma floor_planeHit :
  planeHit (cameraPosOf downPose)
           (rayDirOf 320 240 (SLAMSystem.K SLAMSystem.new) downPose)
           floorPlane 1.
Proof.
  rewrite down_cam, down_dir. unfold planeHit, floorPlane.
  cbn [normal center width height].
  unfold P3.dot, P3.sub, P3.add, P3.scale, P3.norm. cbn [px py pz].
  replace (0 * 0 + -1 * 1 + 0 * 0) with (-1) by ring.
  split; [|split; [|split]].
  - replace (Rabs (-1)) with 1 by (rewrite Rabs_left; lra). lra.
  - field.
  - lra.
  - match goal with
    | |- sqrt ?e < _ => replace e with 0 by ring
    end.
    rewrite sqrt_0. rewrite Rmax_left by lra. lra.
Qed.

Lemma hitTest_nearest_plane_witness :
  exists q,
    hitTest floorDetector 320 240 (SLAMSystem.K SLAMSystem.new) downPose
    = Some (q, 0%Z).
Proof.
  pose proof (hitTest_nearest_plane floorDetector 320 240
                (SLAMSystem.K SLAMSystem.new) downPose) as (_ & Hsome & Hnone).
  destruct (hitTest floorDetector 320 240 (SLAMSystem.K SLAMSystem.new)
                    downPose) as [[q i]|].
  - destruct (Hsome q i eq_refl) as (plane & t & Hp & <- & _).
    apply list_elem_of_singleton in Hp. subst plane. exists q. reflexivity.
  - exfalso.
    pose proof (Hnone eq_refl floorPlane 1
                  ltac:(apply list_elem_of_singleton; reflexivity)
                  floor_planeHit) as Hbig.
    unfold FLT_MAX in Hbig. lra.
Defined.
End PlanesMore.

(** ** The image-target registry *)

Section TargetsMore.
Import ImageTargetTracker Fixtures.
Variable cv : OpenCV.
Local Open Scope R_scope.

Lemma StronglySorted_sublist {A} (R : relation A) (l k : list A) :
  l `sublist_of` k -> StronglySorted R k -> StronglySorted R l.
Proof.
  induction 1 as [|x l k Hs IH|x l k Hs IH]; intros Hk.
  - constructor.
  - apply StronglySorted_inv in Hk as [Hk Hx]. constructor; [auto|].
    apply Forall_forall. intros y Hy. rewrite Forall_forall in Hx.
    eauto using elem_of_sublist.
  - apply StronglySorted_inv in Hk as [Hk _]. auto.
Qed.

Lemma sorted_lt_NoDup (l : list Z) : StronglySorted Z.lt l -> NoDup l.
Proof.
  induction 1 as [|x l Hl IH Hx]; constructor; [|exact IH].
  intros Hin. rewrite Forall_forall in Hx. specialize (Hx x Hin). lia.
Qed.

Lemma targetOk_next next next' t :
  (next <= next')%Z -> targetOk cv next t -> targetOk cv next' t.
Proof. unfold targetOk. intros Hle (Hid & Hrest). split; [lia|exact Hrest]. Qed.

(** [addTarget], case by case. *)
Lemma grayOf_eq im :
  (if (channels im =? 3)%Z then cvtColor cv im COLOR_BGR2GRAY
   else if (channels im =? 4)%Z then cvtColor cv im COLOR_BGRA2GRAY
   else im) = grayOf cv im.
Proof.
  unfold grayOf.
  destruct (Z.eqb_spec (channels im) 3), (Z.eqb_spec (channels im) 4);
    repeat case_decide; done || lia.
Qed.

Lemma grayOf_size im :
  rows (grayOf cv im) = rows im /\ cols (grayOf cv im) = cols im.
Proof. unfold grayOf. repeat case_decide; done. Qed.

Lemma grayOf_empty im : Image_empty (grayOf cv im) = Image_empty im.
Proof.
  unfold Image_empty. destruct (grayOf_size im) as [-> ->]. reflexivity.
Qed.

Lemma addTarget_cases tr im nm widthM heightM :
  (Image_empty im = true /\
   addTarget cv tr im nm widthM heightM = ((-1)%Z, tr)) \/
  (Image_empty im = false /\
   (length (fst (extractFeatures cv (grayOf cv im))) < MIN_MATCHES)%nat /\
   addTarget cv tr im nm widthM heightM
   = ((-1)%Z, mkImageTargetTracker (targets tr) (detectedTargets tr)
                                    (nextTargetId tr + 1))) \/
  (Image_empty im = false /\
   (MIN_MATCHES <= length (fst (extractFeatures cv (grayOf cv im))))%nat /\
   addTarget cv tr im nm widthM heightM
   = (nextTargetId tr,
      mkImageTargetTracker
        (targets tr ++
         [mkImageTarget (nextTargetId tr) nm (grayOf cv im)
            (fst (extractFeatures cv (grayOf cv im)))
            (snd (extractFeatures cv (grayOf cv im)))
            widthM (heightOf im widthM heightM)])
        (detectedTargets tr) (nextTargetId tr + 1))).
Proof.
  unfold addTarget. destruct (Image_empty im); [left; done|right].
  cbv zeta. rewrite grayOf_eq.
  destruct (extractFeatures cv (grayOf cv im)) as [kps descs]. cbn [fst snd].
  destruct (length kps <? MIN_MATCHES)%nat eqn:Hk.
  - left. apply Nat.ltb_lt in Hk. done.
  - right. apply Nat.ltb_ge in Hk. done.
Qed.

Lemma addTarget_registry tr im nm widthM heightM :
  registryOk cv tr ->
  registryOk cv (snd (addTarget cv tr im nm widthM heightM)).
Proof.
  intros (Hnext & Hsorted & Hall).
  destruct (addTarget_cases tr im nm widthM heightM)
    as [[_ ->]|[(_ & _ & ->)|(Hne & Hk & ->)]]; cbn [snd].
  - done.
  - split; [cbn; lia|]. split; [exact Hsorted|]. cbn [targets nextTargetId].
    eapply Forall_impl; [exact Hall|]. intros t. apply targetOk_next. lia.
  - split; [cbn; lia|]. cbn [targets nextTargetId]. split.
    + rewrite map_app. apply StronglySorted_app. split; [|split].
      * intros x1 x2 Hx1 Hx2. cbn in Hx2.
        apply list_elem_of_singleton in Hx2 as ->.
        apply list_elem_of_fmap in Hx1 as (t & -> & Ht).
        rewrite Forall_forall in Hall. destruct (Hall t Ht) as [? _]. lia.
      * exact Hsorted.
      * cbn. repeat constructor.
    + apply Forall_app. split.
      * eapply Forall_impl; [exact Hall|]. intros t. apply targetOk_next. lia.
      * constructor; [|constructor]. unfold targetOk. cbn.
        split; [lia|]. split; [rewrite grayOf_empty; exact Hne|].
        split; [destruct (extractFeatures cv (grayOf cv im)); reflexivity
               |exact Hk].
Qed.

Lemma removeTarget_registry tr i :
  registryOk cv tr -> registryOk cv (removeTarget tr i).
Proof.
  intros (Hnext & Hsorted & Hall). unfold removeTarget.
  split; [exact Hnext|]. cbn [targets nextTargetId]. split.
  - eapply StronglySorted_sublist; [|exact Hsorted].
    apply fmap_sublist, sublist_filter.
  - apply Forall_forall. intros t Ht. rewrite Forall_forall in Hall.
    apply Hall. rewrite list_elem_of_filter in Ht. tauto.
Qed.

Lemma detectTargets_registry tr frame K :
  targets (snd (detectTargets cv tr frame K)) = targets tr /\
  nextTargetId (snd (detectTargets cv tr frame K)) = nextTargetId tr.
Proof.
  unfold detectTargets. cbv zeta.
  destruct (_ || _); [done|].
  destruct (extractFeatures cv frame) as [kps descs].
  destruct (_ <? _)%nat; done.
Qed.

Lemma targetStep_registry tr c :
  registryOk cv tr -> registryOk cv (targetStep cv tr c).
Proof.
  intros Hok. destruct c as [im nm w h|i| |frame K]; cbn [targetStep].
  - apply addTarget_registry, Hok.
  - apply removeTarget_registry, Hok.
  - split; [done|]. split; constructor.
  - destruct (detectTargets_registry tr frame K) as [Ht Hn].
    unfold registryOk. rewrite Ht, Hn. exact Hok.
Qed.

Lemma targetRun_registryOk calls : registryOk cv (targetRun cv calls).
Proof.
  unfold targetRun.
  assert (Hnew : registryOk cv ImageTargetTracker.new).
  { split; [done|]. split; constructor. }
  revert Hnew. generalize ImageTargetTracker.new.
  induction calls as [|c calls IH]; intros tr Htr; [exact Htr|].
  cbn [fold_left]. apply IH, targetStep_registry, Htr.
Qed.

(** X14: the registry of image targets after any calls. *)
Theorem targetRun_registry (calls : list TargetCall) :
  let tr := targetRun cv calls in
  (0 <= nextTargetId tr)%Z /\
  StronglySorted Z.lt (map id (targets tr)) /\
  NoDup (map id (targets tr)) /\
  (forall t, t ∈ targets tr ->
     (0 <= id t < nextTargetId tr)%Z /\
     Image_empty (image t) = false /\
     orb_detectAndCompute cv 1000 (image t) = (keypoints t, descriptors t) /\
     (15 <= length (keypoints t))%nat).
Proof.
  intros tr. destruct (targetRun_registryOk calls) as (Hn & Hs & Hall).
  fold tr in Hn, Hs, Hall.
  split; [exact Hn|]. split; [exact Hs|].
  split; [apply sorted_lt_NoDup, Hs|].
  intros t Ht. rewrite Forall_forall in Hall. exact (Hall t Ht).
Qed.

(** X15: what [addTarget] returns and registers: the target holds the
    image converted to gray when it has three or four channels, and the
    features of that image. *)
Theorem addTarget_outcome (calls : list TargetCall) (im : Image)
    (nm : string) (widthM heightM : R) :
  let tr := targetRun cv calls in
  let r := addTarget cv tr im nm widthM heightM in
  let gray := grayOf cv im in
  let kps := fst (orb_detectAndCompute cv 1000 gray) in
  (fst r = (-1)%Z <-> Image_empty im = true \/ (length kps < 15)%nat) /\
  (Image_empty im = true -> snd r = tr) /\
  (Image_empty im = false ->
   nextTargetId (snd r) = (nextTargetId tr + 1)%Z) /\
  (fst r = (-1)%Z -> targets (snd r) = targets tr) /\
  (fst r <> (-1)%Z ->
   fst r = nextTargetId tr /\ (fst r ∉ map id (targets tr)) /\
   exists t,
     targets (snd r) = targets tr ++ [t] /\ id t = fst r /\ name t = nm /\
     image t = gray /\ keypoints t = kps /\
     descriptors t = snd (orb_detectAndCompute cv 1000 gray) /\
     widthMeters t = widthM /\
     heightMeters t = heightOf im widthM heightM) /\
  detectedTargets (snd r) = detectedTargets tr.
Proof.
  intros tr r gray kps.
  destruct (targetRun_registryOk calls) as (Hn & _ & Hall). fold tr in Hn, Hall.
  subst r kps gray. fold (extractFeatures cv (grayOf cv im)).
  destruct (addTarget_cases tr im nm widthM heightM)
    as [[He ->]|[(He & Hk & ->)|(He & Hk & ->)]]; cbn [fst snd targets
      nextTargetId detectedTargets]; try unfold MIN_MATCHES in Hk.
  - split; [split; [auto|done]|]. split; [done|].
    split; [congruence|]. split; [done|]. split; [done|done].
  - split; [split; [auto|done]|]. split; [congruence|].
    split; [done|]. split; [done|]. split; [done|done].
  - split; [split|].
    + intros Hneg. lia.
    + intros [Hbad|Hbad]; [congruence|lia].
    + split; [congruence|]. split; [done|]. split; [intros Hneg; lia|].
      split; [|done]. intros _. split; [done|]. split.
      * intros Hin. apply list_elem_of_fmap in Hin as (t & Heq & Ht).
        rewrite Forall_forall in Hall. destruct (Hall t Ht) as [? _]. lia.
      * eexists. split; [reflexivity|]. cbn. done.
Qed.

Lemma filter_out_one (l : list ImageTarget) (i : Z) :
  NoDup (map id l) -> i ∈ map id l ->
  S (length (filter (fun t => id t <> i) l)) = length l.
Proof.
  induction l as [|t l IH]; intros Hs Hin;
    [cbn in Hin; apply elem_of_nil in Hin; done|].
  cbn [map] in Hs, Hin. apply NoDup_cons in Hs as [Hnot Hs].
  rewrite filter_cons. case_decide as Hid.
  - cbn [length]. f_equal. apply IH; [exact Hs|].
    apply elem_of_cons in Hin as [Heq|Hin]; [congruence|exact Hin].
  - subst i. cbn [length]. f_equal.
    f_equal. apply filter_all. apply Forall_forall.
    intros t' Ht' Heq. apply Hnot. rewrite <- Heq.
    apply list_elem_of_fmap. eauto.
Qed.

(** X16: [removeTarget] takes out the targets of that id and nothing
    else. *)
Theorem removeTarget_spec (calls : list TargetCall) (i : Z) :
  let tr := targetRun cv calls in
  let tr' := removeTarget tr i in
  (forall t, t ∈ targets tr' <-> t ∈ targets tr /\ id t <> i) /\
  targets tr' `sublist_of` targets tr /\
  nextTargetId tr' = nextTargetId tr /\
  detectedTargets tr' = detectedTargets tr /\
  removeTarget tr' i = tr' /\
  (i ∈ map id (targets tr) ->
   S (getTargetCount tr') = getTargetCount tr) /\
  (i ∉ map id (targets tr) -> tr' = tr).
Proof.
  intros tr tr'.
  destruct (targetRun_registryOk calls) as (_ & Hs & _). fold tr in Hs.
  apply sorted_lt_NoDup in Hs.
  unfold tr', removeTarget, getTargetCount. cbn [targets nextTargetId detectedTargets].
  assert (Hflip : forall t, t ∈ filter (fun t => id t <> i) (targets tr) <->
                            id t <> i /\ t ∈ targets tr)
    by (intros t; rewrite list_elem_of_filter; reflexivity).
  split; [intros t; rewrite Hflip; tauto|].
  split; [apply sublist_filter|]. split; [done|]. split; [done|].
  split; [|split].
  - f_equal. rewrite list_filter_filter. apply list_filter_iff. tauto.
  - apply filter_out_one, Hs.
  - intros Hnot. destruct tr as [ts ds n]. cbn [targets] in *. f_equal.
    apply filter_all. apply Forall_forall. intros t Ht Heq. apply Hnot.
    rewrite <- Heq. apply list_elem_of_fmap. eauto.
Qed.

Lemma detectOne_some kps descs K target d :
  detectOne cv kps descs K target = Some d ->
  targetId d = id target /\ dname d = name target /\ isTracking d = true.
Proof.
  unfold detectOne.
  destruct (Descriptors_empty _); [discriminate|]. cbv zeta.
  destruct (_ <? _)%nat; [discriminate|].
  destruct (findHomography cv _ _ 5) as [H mask].
  destruct (Mat_empty H); [discriminate|].
  destruct (_ <? _)%nat; [discriminate|].
  destruct (negb _); [discriminate|].
  destruct (computePose cv _ _ _ _); [|discriminate].
  intros [= <-]. done.
Qed.

Lemma omap_ids (f : ImageTarget -> option DetectedTarget) (l : list ImageTarget) :
  (forall t d, f t = Some d -> targetId d = id t) ->
  map targetId (omap f l) `sublist_of` map id l.
Proof.
  intros Hf. induction l as [|t l IH]; [constructor|].
  cbn [omap list_omap map]. destruct (f t) as [d|] eqn:E.
  - cbn [map]. rewrite (Hf t d E). apply sublist_skip, IH.
  - apply sublist_cons, IH.
Qed.

(** X17: what a call of [detectTargets] leaves behind. *)
Theorem detectTargets_outcome (tr : ImageTargetTracker.t) (frame : Image)
    (K : Mat) :
  let r := detectTargets cv tr frame K in
  targets (snd r) = targets tr /\
  nextTargetId (snd r) = nextTargetId tr /\
  (fst r = true <-> detectedTargets (snd r) <> []) /\
  map targetId (detectedTargets (snd r)) `sublist_of` map id (targets tr) /\
  Forall (fun d => isTracking d = true) (detectedTargets (snd r)) /\
  (Image_empty frame = true \/
   (length (fst (orb_detectAndCompute cv 1000 frame)) < 15)%nat ->
   r = (false, mkImageTargetTracker (targets tr) [] (nextTargetId tr))) /\
  (forall old,
      detectTargets cv (mkImageTargetTracker (targets tr) old (nextTargetId tr))
                    frame K = r).
Proof.
  intros r. subst r. fold (extractFeatures cv frame).
  unfold detectTargets. cbn [targets nextTargetId]. cbv zeta.
  destruct (targets tr) as [|t0 ts] eqn:Hts.
  { cbn [orb fst snd targets nextTargetId detectedTargets map].
    repeat split; try done; constructor. }
  rewrite <- Hts. cbn [orb].
  destruct (Image_empty frame) eqn:Hempty.
  { cbn [fst snd targets nextTargetId detectedTargets map].
    repeat split; try done; apply sublist_nil_l. }
  destruct (extractFeatures cv frame) as [kps descs]. cbn [fst].
  destruct (length kps <? MIN_MATCHES)%nat eqn:Hk.
  { cbn [fst snd targets nextTargetId detectedTargets map].
    repeat split; try done; apply sublist_nil_l. }
  apply Nat.ltb_ge in Hk. unfold MIN_MATCHES in Hk.
  cbn [fst snd targets nextTargetId detectedTargets].
  split; [done|]. split; [done|]. split; [|split; [|split; [|split]]].
  - destruct (omap _ _); cbn; split; done.
  - apply omap_ids. intros t d Hd. apply (detectOne_some _ _ _ _ _ Hd).
  - apply Forall_forall. intros d Hd.
    apply list_elem_of_omap in Hd as (t & _ & Hd).
    apply (detectOne_some _ _ _ _ _ Hd).
  - intros [Hbad|Hbad]; [congruence|lia].
  - done.
Qed.
End TargetsMore.

(** ** The tracker: the map, the keyframes and the modules *)

Section SlamMore.
Import SLAMSystem Fixtures.
Variable cv : OpenCV.
Local Open Scope Z_scope.

(** *** Triangulation keeps the map and the keyframes consistent *)

Lemma mapPointOk_next nextKf nextKf' i mp :
  nextKf <= nextKf' -> mapPointOk nextKf i mp -> mapPointOk nextKf' i mp.
Proof.
  intros Hle (H1 & H2 & H3 & a & Ha & H0 & Hlt).
  split; [done|]. split; [done|]. split; [done|].
  exists a. split; [done|]. lia.
Qed.

Lemma mapOk_next m next nextKf nextKf' :
  nextKf <= nextKf' -> mapOk m next nextKf -> mapOk m next nextKf'.
Proof.
  intros Hle [Hsize Hall]. split; [exact Hsize|].
  eapply map_Forall_impl; [exact Hall|]. cbn. intros i mp [Hi Hmp].
  split; [exact Hi|]. eapply mapPointOk_next; eauto.
Qed.

Lemma linkOk_weaken m m' kf kf' l :
  m ⊆ m' -> kf_id kf' = kf_id kf -> linkOk m kf l -> linkOk m' kf' l.
Proof.
  intros Hsub Hid [->|(mp & Hmp & Hobs)]; [left; done|right].
  exists mp. rewrite Hid. split; [|exact Hobs].
  eapply lookup_weaken; eauto.
Qed.

Lemma linksOk_weaken m m' kf :
  m ⊆ m' -> linksOk m kf -> linksOk m' kf.
Proof.
  intros Hsub [Hall Hlen]. split; [|exact Hlen].
  eapply Forall_impl; [exact Hall|]. intros l. apply linkOk_weaken; done.
Qed.

Lemma kfKept_refl kf : kfKept kf kf.
Proof. split; [done|]. split; [done|]. auto. Qed.

Lemma kfKept_trans a b c : kfKept a b -> kfKept b c -> kfKept a c.
Proof.
  intros (H1 & H2 & H3) (H1' & H2' & H3').
  split; [congruence|]. split; [congruence|].
  intros j l Hj Hl. auto.
Qed.

Lemma triKept_refl r : triKept r r.
Proof. split; [done|]. split; [apply kfKept_refl|done]. Qed.

Lemma triKept_trans a b c : triKept a b -> triKept b c -> triKept a c.
Proof.
  intros (H1 & H2 & H3) (H1' & H2' & H3').
  split; [etrans; eauto|]. split; [eapply kfKept_trans; eauto|congruence].
Qed.

Lemma triangulateStep_built P1 P2 nextKf a r m :
  triOk nextKf a r ->
  triOk nextKf a (triangulateStep cv P1 P2 r m) /\
  triKept r (triangulateStep cv P1 P2 r m).
Proof.
  intros Hok. unfold triangulateStep.
  destruct (decide (distance m > 50)%R); [split; [exact Hok|apply triKept_refl]|].
  destruct (0 <=? _) eqn:Hlinked; [split; [exact Hok|apply triKept_refl]|].
  destruct (decide (Rabs _ < _)%R); [split; [exact Hok|apply triKept_refl]|].
  destruct (decide (pz _ < 0)%R); [split; [exact Hok|apply triKept_refl]|].
  apply Z.leb_gt in Hlinked.
  destruct Hok as (Hid1 & Hid2 & Ha0 & Ha1 & [Hsize Hall] & [Hl1 Hlen1]
                   & [Hl2 Hlen2]).
  set (wp := worldPtOf _).
  set (mp := newMapPoint r wp m).
  assert (Hmpid : mp_id mp = tri_nextId r) by reflexivity.
  rewrite !Hmpid.
  assert (Hnone : tri_mapPoints r !! tri_nextId r = None).
  { destruct (tri_mapPoints r !! tri_nextId r) as [mp0|] eqn:Hl; [|reflexivity].
    apply Hall in Hl. lia. }
  assert (Hsub : tri_mapPoints r ⊆ <[tri_nextId r := mp]> (tri_mapPoints r))
    by (apply insert_subseteq; exact Hnone).
  assert (Hobs : observations mp = [a; a + 1]).
  { unfold mp, newMapPoint, addObservation, MapPoint_new.
    cbn [observations]. rewrite Hid1, Hid2. reflexivity. }
  assert (Hnew : forall kf, kf_id kf = a \/ kf_id kf = a + 1 ->
                 linkOk (<[tri_nextId r := mp]> (tri_mapPoints r)) kf
                        (tri_nextId r)).
  { intros kf Hkf. right. exists mp. rewrite lookup_insert_eq.
    split; [reflexivity|]. rewrite Hobs.
    destruct Hkf as [-> | ->]; [left|right; left]. }
  split.
  - split; [exact Hid1|]. split; [exact Hid2|]. split; [exact Ha0|].
    split; [exact Ha1|]. unfold mapOk, linksOk.
    cbn [tri_kf1 tri_kf2 tri_mapPoints tri_nextId set_mapPointIds mapPointIds
         kf_keypoints kf_id].
    split; [split|split; split].
    + rewrite map_size_insert_None by exact Hnone. lia.
    + apply map_Forall_insert_2.
      * split; [lia|]. split; [reflexivity|]. split; [reflexivity|].
        split; [reflexivity|]. exists a. split; [exact Hobs|lia].
      * eapply map_Forall_impl; [exact Hall|]. cbn. intros i mp0 [Hi Hmp0].
        split; [lia|exact Hmp0].
    + apply Forall_insert.
      * eapply Forall_impl; [exact Hl1|]. intros l.
        apply linkOk_weaken; [exact Hsub|reflexivity].
      * apply (Hnew (set_mapPointIds (tri_kf1 r) _)). left. exact Hid1.
    + rewrite length_insert. exact Hlen1.
    + apply Forall_insert.
      * eapply Forall_impl; [exact Hl2|]. intros l.
        apply linkOk_weaken; [exact Hsub|reflexivity].
      * apply (Hnew (set_mapPointIds (tri_kf2 r) _)). right. exact Hid2.
    + rewrite length_insert. exact Hlen2.
  - split; [exact Hsub|]. split; [|reflexivity].
    split; [reflexivity|]. cbn [tri_kf1 set_mapPointIds mapPointIds].
    split; [apply length_insert|].
    intros j l Hj Hl.
    destruct (decide (Z.to_nat (queryIdx m) = j)) as [<-|Hne].
    + unfold vat in Hlinked.
      rewrite (nth_lookup_Some _ _ _ _ Hj) in Hlinked. lia.
    + rewrite list_lookup_insert_ne by exact Hne. exact Hj.
Qed.

Lemma triangulateLoop_built P1 P2 nextKf a ms r :
  triOk nextKf a r ->
  triOk nextKf a (fold_left (triangulateStep cv P1 P2) ms r) /\
  triKept r (fold_left (triangulateStep cv P1 P2) ms r).
Proof.
  revert r. induction ms as [|m ms IH]; intros r Hok; cbn [fold_left].
  - split; [exact Hok|apply triKept_refl].
  - destruct (triangulateStep_built P1 P2 nextKf a r m Hok) as [Hok' Hk].
    destruct (IH _ Hok') as [Hok'' Hk'].
    split; [exact Hok''|eapply triKept_trans; eauto].
Qed.

Lemma triangulateNewPoints_built s kf1 kf2 s' kf1' kf2' nextKf a :
  triangulateNewPoints cv s kf1 kf2 = (s', kf1', kf2') ->
  triOk nextKf a (mkTri kf1 kf2 (mapPoints s) (nextMapPointId s)) ->
  triOk nextKf a (mkTri kf1' kf2' (mapPoints s') (nextMapPointId s')) /\
  triKept (mkTri kf1 kf2 (mapPoints s) (nextMapPointId s))
          (mkTri kf1' kf2' (mapPoints s') (nextMapPointId s')) /\
  keyframes s' = keyframes s /\ nextKeyFrameId s' = nextKeyFrameId s.
Proof.
  unfold triangulateNewPoints. intros [= <- <- <-] Hok.
  cbn [mapPoints nextMapPointId set_nextMapPointId set_mapPoints keyframes
       nextKeyFrameId].
  pose proof (triangulateLoop_built (projectionOf s kf1) (projectionOf s kf2)
                nextKf a
                (matchGuarded cv (kf_descriptors kf1) (kf_descriptors kf2))
                _ Hok) as [Hok' Hk].
  destruct (fold_left _ _ _) as [k1 k2 m n]. cbn [tri_kf1 tri_kf2 tri_mapPoints tri_nextId].
  done.
Qed.

(** *** A new keyframe *)

Lemma new_keyframe_links m i img p kps descs :
  linksOk m (KeyFrame_new i img p kps descs).
Proof.
  split; cbn [KeyFrame_new mapPointIds kf_keypoints].
  - apply Forall_replicate. left. reflexivity.
  - apply length_replicate.
Qed.

Lemma snoc_two_inserts {A} (ks : list A) (k : nat) (kf x y : A) :
  length ks = S k ->
  <[S k := y]> (<[k := x]> (ks ++ [kf])) = <[k := x]> ks ++ [y].
Proof.
  intros Hlen.
  rewrite (insert_app_l ks [kf] k x) by lia.
  rewrite insert_app_r_alt by (rewrite length_insert; lia).
  rewrite length_insert, Hlen, Nat.sub_diag. reflexivity.
Qed.

Lemma insertKeyFrame_built s frame s2 kf' :
  insertKeyFrame cv s frame = (s2, kf') ->
  built s ->
  built s2 /\ keyframesKept (keyframes s) (keyframes s2) /\
  mapPoints s ⊆ mapPoints s2 /\
  length (keyframes s2) = S (length (keyframes s)) /\
  keyframes s2 !! length (keyframes s) = Some kf' /\
  kfCore kf' = (nextKeyFrameId s, frame, currentPose s, prevKeypoints s,
                prevDescriptors s).
Proof.
  intros Hins [Hmap [Hnext Hkfs]]. unfold insertKeyFrame in Hins.
  set (kf := KeyFrame_new _ _ _ _ _) in Hins.
  set (s1 := set_keyframes _ _) in Hins.
  assert (Hlen1 : length (keyframes s1) = S (length (keyframes s))).
  { subst s1. cbn [keyframes set_keyframes]. rewrite length_app. cbn. lia. }
  rewrite Hlen1 in Hins.
  destruct (Nat.eq_dec (length (keyframes s)) 0%nat) as [Hz|Hpos].
  { (* the first keyframe *)
    rewrite Hz in Hins. cbn [Nat.leb] in Hins. injection Hins as <- <-.
    assert (Hnil : keyframes s = []) by (destruct (keyframes s); done).
    subst s1. unfold built.
    cbn [keyframes set_keyframes mapPoints nextMapPointId nextKeyFrameId
         set_nextKeyFrameId].
    rewrite Hnil in *. cbn [app length] in *.
    split; [split|].
    - eapply mapOk_next; [|exact Hmap]. lia.
    - split; [cbn; lia|]. intros [|i] kfi Hi; [|done].
      injection Hi as <-. split; [cbn; lia|apply new_keyframe_links].
    - split; [intros i kfi Hi; done|]. split; [reflexivity|].
      split; [reflexivity|]. split; reflexivity. }
  destruct (2 <=? S (length (keyframes s)))%nat eqn:Htwo;
    [|apply Nat.leb_gt in Htwo; lia].
  set (k := (length (keyframes s) - 1)%nat).
  assert (Hk : length (keyframes s) = S k) by (unfold k; lia).
  destruct (lookup_lt_is_Some_2 (keyframes s) k) as [prev0 Hprev0]; [lia|].
  assert (Hnth : nth (S (length (keyframes s)) - 2) (keyframes s1) kf = prev0).
  { apply nth_lookup_Some. subst s1. cbn [keyframes set_keyframes].
    replace (S (length (keyframes s)) - 2)%nat with k by lia.
    rewrite lookup_app_l by lia. exact Hprev0. }
  rewrite Hnth in Hins.
  destruct (triangulateNewPoints cv s1 prev0 kf) as [[s' prev'] kfn] eqn:Htri.
  injection Hins as <- <-.
  destruct (Hkfs k prev0 Hprev0) as [Hpid Hplinks].
  apply (triangulateNewPoints_built _ _ _ _ _ _
           (nextKeyFrameId s + 1) (Z.of_nat k)) in Htri
    as (Hok & Hkept & Hkeys & Hnkf).
  2: { split; [exact Hpid|]. split; [cbn; lia|]. split; [lia|].
       split; [lia|]. subst s1.
       cbn [mapPoints nextMapPointId set_keyframes set_nextKeyFrameId].
       split; [eapply mapOk_next; [|exact Hmap]; lia|].
       split; [exact Hplinks|apply new_keyframe_links]. }
  destruct Hok as (Hid1 & Hid2 & _ & _ & Hmap' & Hl1 & Hl2).
  destruct Hkept as (Hsub & Hkept1 & Hcore2).
  cbn [tri_kf1 tri_kf2 tri_mapPoints tri_nextId] in *.
  assert (Hs1 : mapPoints s1 = mapPoints s) by reflexivity.
  rewrite Hs1 in Hsub.
  cbn [keyframes set_keyframes mapPoints nextMapPointId nextKeyFrameId].
  rewrite Hkeys. subst s1. cbn [keyframes set_keyframes nextKeyFrameId
                                 set_nextKeyFrameId] in *.
  fold k. replace (length (keyframes s) - 0)%nat with (S k) by lia.
  rewrite (snoc_two_inserts _ _ _ _ _ Hk).
  assert (Hlenk : length (<[k := prev']> (keyframes s)) = S k)
    by (rewrite length_insert; exact Hk).
  unfold built.
  cbn [mapPoints nextMapPointId nextKeyFrameId keyframes set_keyframes].
  split; [split|].
  - rewrite Hnkf. exact Hmap'.
  - unfold keyframesOk. rewrite Hnkf, length_app, Hlenk. cbn [length].
    split; [lia|]. intros i kfi Hi.
    apply lookup_snoc_Some in Hi as [[Hlt Hi]|[Heq <-]].
    + apply list_lookup_insert_Some in Hi as [(<- & <- & _)|[Hne Hi]].
      * split; [|exact Hl1].
        destruct Hkept1 as (Hc & _). unfold kfCore in Hc.
        injection Hc as -> _ _ _ _. exact Hpid.
      * destruct (Hkfs i kfi Hi) as [Hidi Hli].
        split; [exact Hidi|]. eapply linksOk_weaken; eauto.
    + rewrite Hlenk in Heq. subst i. split; [|exact Hl2].
      unfold kfCore in Hcore2. injection Hcore2 as -> _ _ _ _. cbn. lia.
  - split; [|split; [exact Hsub|split; [|split]]].
    + intros i kfi Hi.
      assert (Hlt : (i < S k)%nat) by (rewrite <- Hk; eapply lookup_lt_Some; eauto).
      rewrite lookup_app_l by lia.
      destruct (decide (i = k)) as [->|Hne].
      * rewrite list_lookup_insert_eq by lia.
        rewrite Hprev0 in Hi. injection Hi as <-. eauto.
      * rewrite list_lookup_insert_ne by lia. eauto using kfKept_refl.
    + rewrite length_app, Hlenk. cbn. lia.
    + rewrite Hk. rewrite lookup_app_r by lia. rewrite Hlenk, Nat.sub_diag.
      reflexivity.
    + rewrite Hcore2. reflexivity.
Qed.

Lemma createKeyFrame_built s frame :
  built s ->
  built (createKeyFrame cv s frame) /\
  keyframesKept (keyframes s) (keyframes (createKeyFrame cv s frame)) /\
  mapPoints s ⊆ mapPoints (createKeyFrame cv s frame) /\
  length (keyframes (createKeyFrame cv s frame)) = S (length (keyframes s)) /\
  exists kfn,
    keyframes (createKeyFrame cv s frame) !! length (keyframes s) = Some kfn /\
    kfCore kfn = (nextKeyFrameId s, frame, currentPose s, prevKeypoints s,
                  prevDescriptors s).
Proof.
  intros Hb. unfold createKeyFrame.
  destruct (insertKeyFrame cv s frame) as [s2 kf'] eqn:Hins.
  apply insertKeyFrame_built in Hins as (H1 & H2 & H3 & H4 & H5 & H6);
    [|exact Hb].
  rewrite detectLoopClosure_state.
  destruct (10 <? _)%nat; eauto 10.
Qed.

(** *** What the steps of a frame change *)

Lemma triangulateNewPoints_rest s kf1 kf2 :
  restCore (triangulateNewPoints cv s kf1 kf2).1.1 = restCore s.
Proof. reflexivity. Qed.

Lemma insertKeyFrame_rest s frame :
  restCore (insertKeyFrame cv s frame).1 = restCore s.
Proof.
  unfold insertKeyFrame. cbv zeta.
  destruct (2 <=? _)%nat; [|reflexivity].
  match goal with
  | |- context [triangulateNewPoints cv ?a ?b ?c] =>
      pose proof (triangulateNewPoints_rest a b c) as Hr;
      destruct (triangulateNewPoints cv a b c) as [[s' prev'] kf']
  end.
  exact Hr.
Qed.

Lemma createKeyFrame_rest s frame :
  restCore (createKeyFrame cv s frame) = restCore s.
Proof.
  unfold createKeyFrame.
  pose proof (insertKeyFrame_rest s frame) as Hr.
  destruct (insertKeyFrame cv s frame) as [s2 kf'].
  rewrite detectLoopClosure_state. destruct (10 <? _)%nat; exact Hr.
Qed.

(** The pose estimation of [track] writes the pose and the tracking flag
    only, and the pose only when it leaves the flag set. *)
Lemma trackPose_shape s kps descs s1 :
  trackPose cv s kps descs = Some s1 ->
  s1 = set_tracking (tracking s1) (set_currentPose (currentPose s1) s) /\
  (tracking s1 = false -> currentPose s1 = currentPose s).
Proof.
  unfold trackPose. destruct (_ <? MIN_TRACKING_MATCHES)%nat.
  - destruct (_ <? MIN_TRACKING_MATCHES)%nat; [discriminate|].
    destruct (findEssentialMat _ _ _ _ _ _) as [E mask].
    destruct (negb (Mat_empty E)).
    + destruct (recoverPose _ _ _ _ _ _) as [[[inl R] tr] mask'].
      intros [= <-]. destruct s. split; [reflexivity|discriminate].
    + intros [= <-]. destruct s. split; reflexivity.
  - destruct (6 <=? _)%nat.
    + unfold estimatePosePnP. destruct (_ <? 6)%nat.
      * intros [= <-]. destruct s. split; reflexivity.
      * destruct (solvePnPRansac _ _ _ _ _ _ _ _) as [[rvec tvec]|].
        -- intros [= <-]. destruct s. split; [reflexivity|discriminate].
        -- intros [= <-]. destruct s. split; reflexivity.
    + intros [= <-]. destruct s. split; reflexivity.
Qed.

Lemma track_cases s frame rd :
  track cv s frame rd = (false, set_tracking false s) \/
  exists kps descs s1,
    trackPose cv s kps descs = Some s1 /\
    track cv s frame rd
    = (tracking s1,
       cachePrev frame kps descs
         (trackTargets cv (trackPlanes (trackKeyFrame cv s1 frame) frame rd)
                       frame)) /\
    (tracking s1 = false -> trackKeyFrame cv s1 frame = s1).
Proof.
  unfold track. destruct (extractFeatures cv frame) as [kps descs].
  destruct (_ <? MIN_TRACKING_MATCHES)%nat; [left; reflexivity|].
  destruct (trackPose cv s kps descs) as [s1|] eqn:Hpose; [|left; reflexivity].
  right. exists kps, descs, s1. split; [exact Hpose|]. split.
  - f_equal. cbn [tracking cachePrev].
    destruct (trackTargets_cores cv (trackPlanes (trackKeyFrame cv s1 frame) frame rd)
                                 frame) as [_ Hp1].
    destruct (trackPlanes_cores (trackKeyFrame cv s1 frame) frame rd) as [_ Hp2].
    injection Hp1 as _ ->. injection Hp2 as _ ->.
    unfold trackKeyFrame. destruct (tracking s1 && needNewKeyFrame s1); [|done].
    destruct (createKeyFrame_spec cv s1 frame) as ((_ & -> & _) & _). done.
  - intros Hoff. unfold trackKeyFrame. rewrite Hoff. reflexivity.
Qed.

Lemma initialize_cases s frame :
  (exists b, initialize cv s frame = (b, s)) \/
  (exists b kps descs,
      initialize cv s frame = (b, cachePrev frame kps descs s)) \/
  (exists kps descs Rm tr s2 kf1' kf2',
      let kf1 := KeyFrame_new (nextKeyFrameId s) (prevFrame s) (M.eye 4)
                              (prevKeypoints s) (prevDescriptors s) in
      let kf2 := KeyFrame_new (nextKeyFrameId s + 1) frame (M.poseOf Rm tr)
                              kps descs in
      triangulateNewPoints cv
        (set_keyframes (keyframes s ++ [kf1; kf2])
                       (set_nextKeyFrameId (nextKeyFrameId s + 2) s))
        kf1 kf2 = (s2, kf1', kf2') /\
      initialize cv s frame
      = (true,
         set_tracking true
           (set_initialized true
              (cachePrev frame kps descs
                 (set_currentPose (M.poseOf Rm tr)
                    (set_keyframes (keyframes s ++ [kf1'; kf2']) s2)))))).
Proof.
  unfold initialize. destruct (extractFeatures cv frame) as [kps descs].
  destruct (_ <? MIN_INIT_MATCHES)%nat; [left; eauto|].
  destruct (Image_empty (prevFrame s)); [right; left; eauto|].
  destruct (_ <? MIN_INIT_MATCHES)%nat; [right; left; eauto|].
  cbv zeta.
  destruct (_ <? MIN_INIT_MATCHES / 2)%nat; [left; eauto|].
  destruct (findEssentialMat _ _ _ _ _ _) as [E mask].
  destruct (Mat_empty E); [left; eauto|].
  destruct (recoverPose _ _ _ _ _ _) as [[[inl Rm] tr] mask'].
  destruct (inl <? 30); [left; eauto|].
  destruct (triangulateNewPoints cv _ _ _) as [[s2 kf1'] kf2'] eqn:Htri.
  right; right. exists kps, descs, Rm, tr, s2, kf1', kf2'.
  split; [exact Htri|reflexivity].
Qed.

Lemma built_same s s' : buildCore s' = buildCore s -> built s -> built s'.
Proof.
  unfold buildCore, built. intros [= -> -> -> ->]. done.
Qed.

Lemma keyframesKept_refl kfs : keyframesKept kfs kfs.
Proof. intros i kf Hi. eauto using kfKept_refl. Qed.

(** The end of [track]: plane detection, target detection and the
    caching of the frame. *)
Lemma track_tail s2 frame rd kps descs :
  let s5 := cachePrev frame kps descs
              (trackTargets cv (trackPlanes s2 frame rd) frame) in
  buildCore s5 = buildCore s2 /\ poseCore s5 = poseCore s2 /\
  frameCount s5 = frameCount s2 /\ initialized s5 = initialized s2 /\
  (planeDetector s5 = planeDetector s2 \/
   exists pts,
     planeDetector s5
     = snd (PlaneDetector.detectPlanes (planeDetector s2) frame pts
                                       (currentPose s2) rd)) /\
  (imageTargetTracker s5 = imageTargetTracker s2 \/
   imageTargetTracker s5
   = snd (ImageTargetTracker.detectTargets cv (imageTargetTracker s2) frame
                                           (K s2))).
Proof.
  unfold trackTargets, trackPlanes.
  destruct (_ && _); destruct (_ && _); cbn; repeat split; eauto.
Qed.

Lemma trackKeyFrame_cases s1 frame :
  trackKeyFrame cv s1 frame = s1 \/
  (tracking s1 = true /\ needNewKeyFrame s1 = true /\
   trackKeyFrame cv s1 frame = createKeyFrame cv s1 frame).
Proof.
  unfold trackKeyFrame. destruct (tracking s1); [|left; done].
  destruct (needNewKeyFrame s1); [right; done|left; done].
Qed.

Lemma needNewKeyFrame_interval s :
  needNewKeyFrame s = true -> keyframes s <> [] ->
  Z.rem (frameCount s) 15 = 0.
Proof.
  unfold needNewKeyFrame. intros Hneed Hne.
  destruct (last (keyframes s)) as [back|] eqn:Hlast.
  - destruct (Z.rem (frameCount s) KEYFRAME_INTERVAL =? 0) eqn:Hrem;
      [|discriminate].
    apply Z.eqb_eq in Hrem. exact Hrem.
  - apply last_None in Hlast. done.
Qed.

(** [track], field by field. *)
Lemma track_fields s frame rd :
  built s ->
  let s' := snd (track cv s frame rd) in
  built s' /\ keyframesKept (keyframes s) (keyframes s') /\
  frameCount s' = frameCount s /\ initialized s' = initialized s /\
  fst (track cv s frame rd) = tracking s' /\
  (tracking s' = false ->
   buildCore s' = buildCore s /\ currentPose s' = currentPose s) /\
  (keyframes s' = keyframes s \/
   length (keyframes s') = S (length (keyframes s)) /\
   (keyframes s <> [] -> Z.rem (frameCount s) 15 = 0)) /\
  (planeDetector s' = planeDetector s \/
   exists pts pose,
     planeDetector s'
     = snd (PlaneDetector.detectPlanes (planeDetector s) frame pts pose rd)) /\
  (imageTargetTracker s' = imageTargetTracker s \/
   imageTargetTracker s'
   = snd (ImageTargetTracker.detectTargets cv (imageTargetTracker s) frame
                                           (K s))).
Proof.
  intros Hb.
  destruct (track_cases s frame rd)
    as [->|(kps & descs & s1 & Hpose & -> & Hoff)]; cbn [fst snd].
  { split; [exact Hb|]. split; [apply keyframesKept_refl|].
    repeat split; auto. }
  apply trackPose_shape in Hpose as [Hs1 Hpose].
  assert (Hcore1 : buildCore s1 = buildCore s) by (rewrite Hs1; reflexivity).
  assert (Hfc1 : frameCount s1 = frameCount s) by (rewrite Hs1; reflexivity).
  assert (Hin1 : initialized s1 = initialized s) by (rewrite Hs1; reflexivity).
  assert (Hrest1 : restCore s1 = restCore s) by (rewrite Hs1; reflexivity).
  assert (Hb1 : built s1) by (eapply built_same; eauto).
  assert (Hk1 : keyframes s1 = keyframes s) by (rewrite Hs1; reflexivity).
  set (s2 := trackKeyFrame cv s1 frame) in *.
  destruct (track_tail s2 frame rd kps descs)
    as (Hcore5 & Hpose5 & Hfc5 & Hin5 & Hpd5 & Hit5).
  cbv zeta in Hcore5, Hpose5, Hfc5, Hin5, Hpd5, Hit5.
  set (s5 := cachePrev _ _ _ _) in *.
  assert (Hk5 : keyframes s5 = keyframes s2)
    by (unfold buildCore in Hcore5; congruence).
  assert (Ht5 : tracking s5 = tracking s2)
    by (unfold poseCore in Hpose5; congruence).
  assert (Hp5 : currentPose s5 = currentPose s2)
    by (unfold poseCore in Hpose5; congruence).
  assert (Hs2 :
    (s2 = s1) \/
    (tracking s1 = true /\ needNewKeyFrame s1 = true /\
     s2 = createKeyFrame cv s1 frame)) by apply trackKeyFrame_cases.
  assert (Hfacts2 :
    built s2 /\ keyframesKept (keyframes s1) (keyframes s2) /\
    frameCount s2 = frameCount s1 /\ initialized s2 = initialized s1 /\
    tracking s2 = tracking s1 /\ currentPose s2 = currentPose s1 /\
    restCore s2 = restCore s1 /\
    (keyframes s2 = keyframes s1 \/
     length (keyframes s2) = S (length (keyframes s1)) /\
     (keyframes s1 <> [] -> Z.rem (frameCount s1) 15 = 0))).
  { destruct Hs2 as [->|(Hon & Hneed & ->)].
    - split; [exact Hb1|]. split; [apply keyframesKept_refl|].
      repeat split; auto.
    - destruct (createKeyFrame_built s1 frame Hb1) as (H1 & H2 & _ & H4 & _).
      destruct (createKeyFrame_spec cv s1 frame)
        as ((Hp & Ht & Hi & Hf & _) & _).
      split; [exact H1|]. split; [exact H2|].
      split; [exact Hf|]. split; [exact Hi|]. split; [exact Ht|].
      split; [exact Hp|]. split; [apply createKeyFrame_rest|].
      right. split; [exact H4|].
      intros Hne. apply needNewKeyFrame_interval; assumption. }
  destruct Hfacts2 as (Hb2 & Hkept2 & Hfc2 & Hin2 & Ht2 & Hp2 & Hrest2 & Hlen2).
  split; [eapply built_same; eauto|].
  split; [rewrite Hk5, <- Hk1; exact Hkept2|].
  split; [congruence|]. split; [congruence|]. split; [congruence|].
  split; [|split; [|split]].
  - intros Hoff5. rewrite Ht5, Ht2 in Hoff5.
    specialize (Hoff Hoff5). fold s2 in Hoff.
    rewrite Hcore5, Hp5, Hoff. split; [exact Hcore1|apply Hpose, Hoff5].
  - rewrite Hk5, <- Hk1, <- Hfc1. exact Hlen2.
  - unfold restCore in Hrest1, Hrest2.
    injection Hrest1 as Hpd1 _ _ _. injection Hrest2 as Hpd2 _ _ _.
    destruct Hpd5 as [->|[pts ->]]; [left; congruence|right].
    exists pts, (currentPose s2). congruence.
  - unfold restCore in Hrest1, Hrest2.
    injection Hrest1 as _ Hit1 HK1 _. injection Hrest2 as _ Hit2 HK2 _.
    destruct Hit5 as [->| ->]; [left; congruence|right]. congruence.
Qed.

Lemma startState_built s : startState s -> built s.
Proof.
  intros (Hk & Hm & _ & Hn & Hnk & _). unfold built.
  rewrite Hk, Hm, Hn, Hnk. split.
  - split; [rewrite map_size_empty; reflexivity|apply map_Forall_empty].
  - split; [reflexivity|]. intros i kf Hi. done.
Qed.

(** [initialize], field by field, on a tracker that is not initialised. *)
Lemma initialize_fields s frame :
  startState s ->
  let s' := snd (initialize cv s frame) in
  frameCount s' = frameCount s /\ restCore s' = restCore s /\
  ((initialized s' = initialized s /\ buildCore s' = buildCore s /\
    poseCore s' = poseCore s) \/
   (initialized s' = true /\ tracking s' = true /\
    fst (initialize cv s frame) = true /\ built s' /\
    length (keyframes s') = 2%nat /\
    exists kf0, keyframes s' !! 0%nat = Some kf0 /\ kf_pose kf0 = M.eye 4)).
Proof.
  intros Hstart.
  destruct (initialize_cases s frame)
    as [[b ->]|[(b & kps & descs & ->)|
                (kps & descs & Rm & tr & s2 & kf1' & kf2' & Htri & ->)]];
    cbn [fst snd].
  { repeat split. left. repeat split. }
  { repeat split. left. repeat split. }
  cbv zeta in Htri.
  destruct Hstart as (Hk & Hm & _ & Hn & Hnk & _).
  rewrite Hk, Hnk in *. cbn [app] in *.
  pose proof (triangulateNewPoints_spec cv _ _ _ _ _ _ Htri)
    as ((_ & _ & _ & Hfc & _) & _ & _).
  pose proof (triangulateNewPoints_rest
                (set_keyframes
                   [KeyFrame_new 0 (prevFrame s) (M.eye 4) (prevKeypoints s)
                      (prevDescriptors s);
                    KeyFrame_new (0 + 1) frame (M.poseOf Rm tr) kps descs]
                   (set_nextKeyFrameId (0 + 2) s))
                (KeyFrame_new 0 (prevFrame s) (M.eye 4) (prevKeypoints s)
                   (prevDescriptors s))
                (KeyFrame_new (0 + 1) frame (M.poseOf Rm tr) kps descs))
    as Hrest.
  rewrite Htri in Hrest. cbn [fst] in Hrest.
  apply (triangulateNewPoints_built _ _ _ _ _ _ 2 0) in Htri
    as (Hok & Hkept & _ & Hnkf).
  2: { split; [reflexivity|]. split; [reflexivity|]. split; [lia|].
       split; [lia|].
       cbn [mapPoints nextMapPointId set_keyframes set_nextKeyFrameId
            tri_kf1 tri_kf2 tri_mapPoints tri_nextId].
       rewrite Hm, Hn.
       split; [split; [rewrite map_size_empty; reflexivity
                      |apply map_Forall_empty]|].
       split; apply new_keyframe_links. }
  destruct Hok as (Hid1 & Hid2 & _ & _ & Hmap' & Hl1 & Hl2).
  destruct Hkept as (_ & (Hcore1 & _) & _).
  cbn [tri_kf1 tri_kf2 tri_mapPoints tri_nextId] in *.
  cbn [nextKeyFrameId set_keyframes set_nextKeyFrameId] in Hnkf.
  cbn [frameCount set_keyframes set_nextKeyFrameId] in Hfc.
  split; [exact Hfc|]. split; [exact Hrest|]. right.
  split; [reflexivity|]. split; [reflexivity|]. split; [reflexivity|].
  split; [|split; [reflexivity|]].
  - unfold built.
    cbn [mapPoints nextMapPointId nextKeyFrameId keyframes set_tracking
         set_initialized cachePrev set_currentPose set_keyframes].
    rewrite Hnkf. split; [exact Hmap'|].
    split; [reflexivity|].
    intros [|[|i]] kf Hi; [| |done]; injection Hi as <-.
    + split; [exact Hid1|exact Hl1].
    + split; [exact Hid2|exact Hl2].
  - exists kf1'. split; [reflexivity|].
    unfold kfCore in Hcore1. injection Hcore1 as _ _ -> _ _. reflexivity.
Qed.

Lemma frameCount_step (fc : Z) :
  0 <= fc -> Z.rem (fc + 1) 15 = 0 -> (fc + 1) / 15 = fc / 15 + 1.
Proof.
  intros H0 Hrem. rewrite Z.rem_mod_nonneg in Hrem by lia.
  pose proof (Z.div_mod (fc + 1) 15 ltac:(lia)) as H1.
  pose proof (Z.div_mod fc 15 ltac:(lia)) as H2.
  pose proof (Z.mod_pos_bound fc 15 ltac:(lia)) as H3.
  lia.
Qed.

Lemma keyframesKept_first kfs kfs' :
  keyframesKept kfs kfs' ->
  (exists kf0, kfs !! 0%nat = Some kf0 /\ kf_pose kf0 = M.eye 4) ->
  exists kf0, kfs' !! 0%nat = Some kf0 /\ kf_pose kf0 = M.eye 4.
Proof.
  intros Hkept (kf0 & H0 & Hpose).
  destruct (Hkept _ _ H0) as (kf0' & H0' & Hcore & _).
  exists kf0'. split; [exact H0'|].
  unfold kfCore in Hcore. injection Hcore as _ _ -> _ _. exact Hpose.
Qed.

(** [processFrame] keeps the invariant. *)
Lemma processFrame_inv s frame rd :
  slamInv s ->
  let s' := snd (processFrame cv s frame rd) in
  slamInv s' /\ keyframesKept (keyframes s) (keyframes s') /\
  frameCount s' = frameCount s + 1 /\
  (initialized s = true -> initialized s' = true) /\
  (length (keyframes s) <= length (keyframes s') <= length (keyframes s) + 2)%nat.
Proof.
  intros (Hb & Hstart & Hinit & Hfc & Hrate). unfold processFrame.
  set (s0 := set_frameCount (frameCount s + 1) s).
  assert (Hb0 : built s0) by (eapply built_same; [|exact Hb]; reflexivity).
  change (initialized s0) with (initialized s).
  destruct (initialized s) eqn:Hi; cbn [negb].
  - destruct (Hinit eq_refl) as [Htwo Hfirst].
    destruct (track_fields s0 frame rd Hb0)
      as (Hb' & Hkept & Hfc' & Hin' & _ & _ & Hlen & _).
    cbv zeta in Hb', Hkept, Hfc', Hin', Hlen.
    set (s' := snd (track cv s0 frame rd)) in *.
    change (keyframes s0) with (keyframes s) in *.
    change (frameCount s0) with (frameCount s + 1) in *.
    change (initialized s0) with (initialized s) in *.
    rewrite Hi in Hin'.
    assert (Hlen' : (length (keyframes s) <= length (keyframes s')
                     <= length (keyframes s) + 2)%nat).
    { destruct Hlen as [->|[-> _]]; lia. }
    split; [|split; [exact Hkept|split; [exact Hfc'|split; [done|exact Hlen']]]].
    split; [exact Hb'|]. split; [congruence|].
    split; [intros _; split; [lia|eapply keyframesKept_first; eauto]|].
    split; [lia|]. rewrite Hfc'.
    destruct Hlen as [->|[-> Hrem]].
    + assert (frameCount s / 15 <= (frameCount s + 1) / 15)
        by (apply Z.div_le_mono; lia).
      lia.
    + rewrite frameCount_step; [lia|exact Hfc|].
      apply Hrem. intros Hnil. rewrite Hnil in Htwo. cbn in Htwo. lia.
  - specialize (Hstart eq_refl).
    assert (Hstart0 : startState s0) by exact Hstart.
    destruct (initialize_fields s0 frame Hstart0) as (Hfc' & _ & Hcases).
    cbv zeta in Hfc', Hcases.
    set (s' := snd (initialize cv s0 frame)) in *.
    change (frameCount s0) with (frameCount s + 1) in *.
    destruct Hstart as (Hk & Hm & Ht & Hn & Hnk & Hp).
    assert (Hdiv : 0 <= (frameCount s + 1) / 15)
      by (apply Z.div_pos; lia).
    destruct Hcases as [(Hin' & Hcore & Hpose)|(Hin' & _ & _ & Hb' & Hlen & Hfirst)].
    + change (initialized s0) with (initialized s) in Hin'.
      change (buildCore s0) with (buildCore s) in Hcore.
      change (poseCore s0) with (poseCore s) in Hcore, Hpose.
      unfold buildCore in Hcore. injection Hcore as Hm' Hn' Hk' Hnk'.
      unfold poseCore in Hpose. injection Hpose as Hp' Ht'.
      split; [|split; [rewrite Hk'; apply keyframesKept_refl
                      |split; [exact Hfc'|split; [done|rewrite Hk'; lia]]]].
      split; [eapply built_same; [|exact Hb]; unfold buildCore; congruence|].
      split; [intros _; unfold startState; repeat split; congruence|].
      split; [congruence|]. split; [lia|]. rewrite Hk', Hk, Hfc'. cbn. lia.
    + split; [|split; [rewrite Hk; intros i kf Hi'; done
                      |split; [exact Hfc'|split; [done|rewrite Hk, Hlen; cbn; lia]]]].
      split; [exact Hb'|]. split; [congruence|].
      split; [intros _; split; [lia|exact Hfirst]|].
      split; [lia|]. rewrite Hlen, Hfc'. lia.
Qed.

Lemma addImageTarget_fields s im nm w :
  let s' := snd (addImageTarget cv s im nm w) in
  s' = set_imageTargetTracker (imageTargetTracker s') s /\
  imageTargetTracker s'
  = snd (ImageTargetTracker.addTarget cv (imageTargetTracker s) im nm w 0).
Proof.
  unfold addImageTarget.
  destruct (ImageTargetTracker.addTarget cv _ im nm w 0) as [i tr].
  cbn. done.
Qed.

Lemma step_inv s c :
  slamInv s ->
  slamInv (step cv s c) /\
  keyframesKept (keyframes s) (keyframes (step cv s c)) /\
  (initialized s = true -> initialized (step cv s c) = true) /\
  (length (keyframes s) <= length (keyframes (step cv s c))
   <= length (keyframes s) + 2)%nat.
Proof.
  intros Hinv. destruct c as [frame rd|im nm w]; cbn [step].
  - destruct (processFrame_inv s frame rd Hinv) as (H1 & H2 & _ & H4 & H5).
    done.
  - destruct (addImageTarget_fields s im nm w) as [-> _].
    split; [exact Hinv|]. split; [apply keyframesKept_refl|].
    split; [done|cbn; lia].
Qed.

Lemma new_slamInv : slamInv SLAMSystem.new.
Proof.
  assert (Hstart : startState SLAMSystem.new) by (repeat split).
  split; [apply startState_built, Hstart|].
  split; [intros _; exact Hstart|]. split; [discriminate|].
  unfold SLAMSystem.new. cbn [frameCount keyframes length].
  rewrite Z.div_0_l by lia. lia.
Qed.

Lemma run_slamInv calls : slamInv (run cv calls).
Proof.
  unfold run. pose proof new_slamInv as Hnew. revert Hnew.
  generalize SLAMSystem.new.
  induction calls as [|c calls IH]; intros s Hs; [exact Hs|].
  cbn [fold_left]. apply IH. apply (step_inv s c Hs).
Qed.

Lemma run_snoc calls c : run cv (calls ++ [c]) = step cv (run cv calls) c.
Proof. unfold run. rewrite fold_left_app. reflexivity. Qed.

(** *** The properties of the tracker after any calls *)

(** X18: the tracker before and after its initialisation. *)
Theorem run_initialisation_state (calls : list Call) :
  let s := run cv calls in
  (initialized s = false ->
   keyframes s = [] /\ mapPoints s = ∅ /\ tracking s = false /\
   currentPose s = M.eye 4 /\ nextMapPointId s = 0 /\ nextKeyFrameId s = 0) /\
  (tracking s = true -> initialized s = true) /\
  (initialized s = true ->
   (2 <= length (keyframes s))%nat /\
   exists kf0, keyframes s !! 0%nat = Some kf0 /\ kf_id kf0 = 0 /\
               kf_pose kf0 = M.eye 4).
Proof.
  intros s. destruct (run_slamInv calls) as ([_ [_ Hkfs]] & Hstart & Hinit & _).
  fold s in Hkfs, Hstart, Hinit.
  split; [|split].
  - intros Hoff. destruct (Hstart Hoff) as (H1 & H2 & H3 & H4 & H5 & H6). done.
  - intros Hon. destruct (initialized s) eqn:Hi; [done|].
    destruct (Hstart eq_refl) as (_ & _ & H3 & _). congruence.
  - intros Hon. destruct (Hinit Hon) as [Htwo (kf0 & H0 & Hpose)].
    split; [exact Htwo|]. exists kf0. split; [exact H0|].
    split; [|exact Hpose]. apply (Hkfs 0%nat kf0 H0).
Qed.

(** X19: the keyframes are numbered by their position. *)
Theorem run_keyframes_numbered (calls : list Call) :
  let s := run cv calls in
  nextKeyFrameId s = getKeyFrameCount s /\
  forall i kf, keyframes s !! i = Some kf ->
               kf_id kf = Z.of_nat i /\
               length (mapPointIds kf) = length (kf_keypoints kf).
Proof.
  intros s. destruct (run_slamInv calls) as ([_ [Hnext Hkfs]] & _).
  fold s in Hnext, Hkfs. split; [exact Hnext|].
  intros i kf Hi. destruct (Hkfs i kf Hi) as [Hid [_ Hlen]]. done.
Qed.

(** X20: the map points are numbered from 0, and each was seen from two
    consecutive keyframes that the tracker still holds. *)
Theorem run_map_points (calls : list Call) :
  let s := run cv calls in
  getMapPointCount s = nextMapPointId s /\
  forall i mp, mapPoints s !! i = Some mp ->
    mp_id mp = i /\ 0 <= i < nextMapPointId s /\ isBad mp = false /\
    matchCount mp = 3 /\
    exists a kfa kfb,
      observations mp = [a; a + 1] /\
      keyframes s !! Z.to_nat a = Some kfa /\ kf_id kfa = a /\
      keyframes s !! Z.to_nat (a + 1) = Some kfb /\ kf_id kfb = a + 1.
Proof.
  intros s. destruct (run_slamInv calls) as ([[Hsize Hall] [Hnext Hkfs]] & _).
  fold s in Hsize, Hall, Hnext, Hkfs. split; [exact Hsize|].
  intros i mp Hi. destruct (Hall i mp Hi) as (Hrange & Hid & Hbad & Hcount & a & Hobs & Ha0 & Ha1).
  split; [exact Hid|]. split; [exact Hrange|]. split; [exact Hbad|].
  split; [exact Hcount|].
  destruct (lookup_lt_is_Some_2 (keyframes s) (Z.to_nat a)) as [kfa Hkfa]; [lia|].
  destruct (lookup_lt_is_Some_2 (keyframes s) (Z.to_nat (a + 1))) as [kfb Hkfb];
    [lia|].
  exists a, kfa, kfb. split; [exact Hobs|].
  split; [exact Hkfa|]. split; [destruct (Hkfs _ _ Hkfa); lia|].
  split; [exact Hkfb|]. destruct (Hkfs _ _ Hkfb); lia.
Qed.

(** X21: a link of a keyframe leads to a map point that the keyframe
    observes. *)
Theorem run_links (calls : list Call) :
  let s := run cv calls in
  Forall (fun kf =>
            Forall (fun l =>
                      l = -1 \/
                      exists mp, mapPoints s !! l = Some mp /\ mp_id mp = l /\
                                 kf_id kf ∈ observations mp)
                   (mapPointIds kf))
         (keyframes s).
Proof.
  intros s.
  destruct (run_slamInv calls) as ([[_ Hall] [_ Hkfs]] & _).
  fold s in Hall, Hkfs.
  apply Forall_forall. intros kf Hkf.
  apply list_elem_of_lookup in Hkf as [i Hi].
  destruct (Hkfs i kf Hi) as [_ [Hlinks _]].
  eapply Forall_impl; [exact Hlinks|]. cbn.
  intros l [->|(mp & Hmp & Hobs)]; [left; done|right].
  exists mp. split; [exact Hmp|]. split; [|exact Hobs].
  apply (Hall l mp Hmp).
Qed.

Lemma frameCalls_snoc calls c :
  frameCalls (calls ++ [c])
  = (frameCalls calls + match c with Frame _ _ => 1 | _ => 0 end)%nat.
Proof.
  unfold frameCalls. induction calls as [|c0 calls IH]; cbn.
  - destruct c; reflexivity.
  - rewrite IH. destruct c0; lia.
Qed.

Lemma run_frameCount calls :
  frameCount (run cv calls) = Z.of_nat (frameCalls calls).
Proof.
  induction calls as [|c calls IH] using rev_ind; [reflexivity|].
  rewrite run_snoc, frameCalls_snoc.
  destruct c as [frame rd|im nm w]; cbn [step].
  - destruct (processFrame_inv (run cv calls) frame rd (run_slamInv calls))
      as (_ & _ & -> & _). lia.
  - destruct (addImageTarget_fields (run cv calls) im nm w) as [-> _].
    cbn [frameCount set_imageTargetTracker]. lia.
Qed.

(** X22: the frame counter counts the frames, and keyframes are made at
    most once in fifteen frames after the first two. *)
Theorem run_keyframe_rate (calls : list Call) :
  let s := run cv calls in
  frameCount s = Z.of_nat (frameCalls calls) /\
  getKeyFrameCount s <= 2 + frameCount s / 15.
Proof.
  intros s. split; [apply run_frameCount|].
  destruct (run_slamInv calls) as (_ & _ & _ & _ & Hrate). exact Hrate.
Qed.

(** X23: a call never removes or rewrites a keyframe. *)
Theorem step_keeps_keyframes (calls : list Call) (c : Call) :
  let s := run cv calls in
  let s' := step cv s c in
  (length (keyframes s) <= length (keyframes s') <= length (keyframes s) + 2)%nat /\
  (initialized s = true -> initialized s' = true) /\
  forall i kf, keyframes s !! i = Some kf ->
    exists kf',
      keyframes s' !! i = Some kf' /\
      kf_id kf' = kf_id kf /\ kf_image kf' = kf_image kf /\
      kf_pose kf' = kf_pose kf /\ kf_keypoints kf' = kf_keypoints kf /\
      kf_descriptors kf' = kf_descriptors kf /\
      forall j l, mapPointIds kf !! j = Some l -> 0 <= l ->
                  mapPointIds kf' !! j = Some l.
Proof.
  intros s s'.
  destruct (step_inv s c (run_slamInv calls)) as (_ & Hkept & Hinit & Hlen).
  fold s' in Hkept, Hinit, Hlen.
  split; [exact Hlen|]. split; [exact Hinit|].
  intros i kf Hi. destruct (Hkept i kf Hi) as (kf' & Hi' & Hcore & _ & Hlinks).
  exists kf'. split; [exact Hi'|].
  unfold kfCore in Hcore. injection Hcore as -> -> -> -> ->. done.
Qed.

(** X24: a frame on which [processFrame] reports no tracking changes
    neither the pose nor the map. *)
Theorem processFrame_lost (calls : list Call) (frame : Image)
    (rd : nat -> nat -> nat) :
  let s := run cv calls in
  let r := processFrame cv s frame rd in
  initialized s = true ->
  fst r = isTracking (snd r) /\ isInitialized (snd r) = true /\
  frameCount (snd r) = frameCount s + 1 /\
  (fst r = false ->
   getCameraPose (snd r) = getCameraPose s /\
   keyframes (snd r) = keyframes s /\ mapPoints (snd r) = mapPoints s /\
   nextMapPointId (snd r) = nextMapPointId s /\
   nextKeyFrameId (snd r) = nextKeyFrameId s).
Proof.
  intros s r Hinit. subst r. unfold processFrame.
  set (s0 := set_frameCount (frameCount s + 1) s).
  change (initialized s0) with (initialized s). rewrite Hinit. cbn [negb].
  destruct (run_slamInv calls) as (Hb & _). fold s in Hb.
  assert (Hb0 : built s0) by (eapply built_same; [|exact Hb]; reflexivity).
  destruct (track_fields s0 frame rd Hb0)
    as (_ & _ & Hfc & Hin & Hret & Hoff & _).
  cbv zeta in Hfc, Hin, Hret, Hoff.
  unfold isTracking, isInitialized, getCameraPose.
  split; [exact Hret|]. split; [rewrite Hin; exact Hinit|].
  split; [exact Hfc|].
  intros Hfalse. rewrite Hret in Hfalse. destruct (Hoff Hfalse) as [Hcore Hpose].
  change (buildCore s0) with (buildCore s) in Hcore.
  change (currentPose s0) with (currentPose s) in Hpose.
  unfold buildCore in Hcore. injection Hcore as -> -> -> ->. done.
Qed.


(** *** The vision modules inside the tracker *)

Lemma registryOk_same tr tr' :
  ImageTargetTracker.targets tr' = ImageTargetTracker.targets tr ->
  ImageTargetTracker.nextTargetId tr' = ImageTargetTracker.nextTargetId tr ->
  registryOk cv tr -> registryOk cv tr'.
Proof. unfold registryOk. intros -> ->. done. Qed.

Lemma addTarget_aspect tr im nm w :
  Forall (fun t =>
            ImageTargetTracker.heightMeters t
            = (ImageTargetTracker.widthMeters t
               * IZR (rows (ImageTargetTracker.image t))
               / IZR (cols (ImageTargetTracker.image t)))%R)
         (ImageTargetTracker.targets tr) ->
  Forall (fun t =>
            ImageTargetTracker.heightMeters t
            = (ImageTargetTracker.widthMeters t
               * IZR (rows (ImageTargetTracker.image t))
               / IZR (cols (ImageTargetTracker.image t)))%R)
         (ImageTargetTracker.targets
            (snd (ImageTargetTracker.addTarget cv tr im nm w 0))).
Proof.
  intros Hall.
  destruct (addTarget_cases cv tr im nm w 0)
    as [[_ ->]|[(_ & _ & ->)|(_ & _ & ->)]]; cbn [snd ImageTargetTracker.targets];
    try exact Hall.
  apply Forall_app. split; [exact Hall|]. constructor; [|constructor].
  cbn. unfold heightOf. destruct (grayOf_size cv im) as [-> ->].
  case_decide as H0; [reflexivity|].
  exfalso. apply H0. apply Rle_refl.
Qed.

Lemma step_modules s c :
  slamInv s -> modulesOk cv s -> modulesOk cv (step cv s c).
Proof.
  intros (Hb & Hstart & _) (Hsane & Hgood & Hreg & Hasp).
  destruct c as [frame rd|im nm w]; cbn [step].
  - unfold processFrame.
    set (s0 := set_frameCount (frameCount s + 1) s).
    change (initialized s0) with (initialized s).
    destruct (initialized s) eqn:Hi; cbn [negb].
    + assert (Hb0 : built s0) by (eapply built_same; [|exact Hb]; reflexivity).
      destruct (track_fields s0 frame rd Hb0)
        as (_ & _ & _ & _ & _ & _ & _ & Hpd & Hit).
      cbv zeta in Hpd, Hit.
      set (s' := snd (track cv s0 frame rd)) in *.
      change (planeDetector s0) with (planeDetector s) in Hpd.
      change (imageTargetTracker s0) with (imageTargetTracker s) in Hit.
      change (K s0) with (K s) in Hit.
      unfold modulesOk.
      assert (Hplanes : planesSane (planeDetector s') /\
                        planesGood (planeDetector s')).
      { destruct Hpd as [->|(pts & pose & ->)]; [done|].
        split; [apply detectPlanes_sane, Hsane|apply detectPlanes_good, Hgood]. }
      destruct Hplanes as [Hs' Hg']. split; [exact Hs'|]. split; [exact Hg'|].
      destruct Hit as [->| ->]; [done|].
      destruct (detectTargets_registry cv (imageTargetTracker s) frame (K s))
        as [Ht Hn].
      split; [eapply registryOk_same; eauto|]. rewrite Ht. exact Hasp.
    + assert (Hstart0 : startState s0) by (apply Hstart; reflexivity).
      destruct (initialize_fields s0 frame Hstart0) as (_ & Hrest & _).
      cbv zeta in Hrest. change (restCore s0) with (restCore s) in Hrest.
      unfold restCore in Hrest. injection Hrest as Hpd Hit _ _.
      unfold modulesOk. rewrite Hpd, Hit. done.
  - destruct (addImageTarget_fields s im nm w) as [Hs' Hit].
    cbv zeta in Hs', Hit. unfold modulesOk. rewrite Hs'.
    cbn [planeDetector imageTargetTracker set_imageTargetTracker].
    rewrite Hit.
    split; [exact Hsane|]. split; [exact Hgood|].
    split; [apply addTarget_registry, Hreg|apply addTarget_aspect, Hasp].
Qed.

Lemma run_modulesOk calls : modulesOk cv (run cv calls).
Proof.
  induction calls as [|c calls IH] using rev_ind.
  - split; [apply new_planesSane|]. split; [constructor|].
    split; [|constructor]. split; [done|]. split; constructor.
  - rewrite run_snoc. apply step_modules; [apply run_slamInv|exact IH].
Qed.

(** X25: the planes and the image targets the tracker holds. *)
Theorem run_modules (calls : list Call) :
  let s := run cv calls in
  let tr := imageTargetTracker s in
  (forall i p, getDetectedPlanes s !! i = Some p ->
     PlaneDetector.id p = Z.of_nat i /\
     (0 <= py (PlaneDetector.normal p))%R /\
     P3.norm (PlaneDetector.normal p) = 1%R /\
     (0 < PlaneDetector.confidence p <= 1)%R /\
     (0 <= PlaneDetector.width p)%R /\ (0 <= PlaneDetector.height p)%R /\
     length (PlaneDetector.corners p) = 4%nat) /\
  NoDup (map ImageTargetTracker.id (ImageTargetTracker.targets tr)) /\
  (forall t, t ∈ ImageTargetTracker.targets tr ->
     0 <= ImageTargetTracker.id t < ImageTargetTracker.nextTargetId tr /\
     (15 <= length (ImageTargetTracker.keypoints t))%nat /\
     ImageTargetTracker.heightMeters t
     = (ImageTargetTracker.widthMeters t
        * IZR (rows (ImageTargetTracker.image t))
        / IZR (cols (ImageTargetTracker.image t)))%R).
Proof.
  intros s tr.
  destruct (run_modulesOk calls) as ([[Hid _] Hshape] & Hgood & Hreg & Hasp).
  fold s in Hid, Hshape, Hgood, Hreg, Hasp. fold tr in Hreg, Hasp.
  split; [|split].
  - intros i p Hp. unfold getDetectedPlanes, PlaneDetector.getDetectedPlanes in Hp.
    assert (Hin : p ∈ PlaneDetector.planes (planeDetector s))
      by (eapply list_elem_of_lookup_2; eauto).
    unfold planesGood in Hgood. rewrite Forall_forall in Hgood, Hshape.
    destruct (Hgood p Hin) as [Hup Hunit].
    destruct (Hshape p Hin) as (Hc & Hw & Hh & Hcs).
    split; [apply (Hid i p Hp)|]. done.
  - destruct Hreg as (_ & Hs & _). apply sorted_lt_NoDup, Hs.
  - intros t Ht. destruct Hreg as (_ & _ & Hall).
    rewrite Forall_forall in Hall, Hasp.
    destruct (Hall t Ht) as (Hrange & _ & _ & Hk).
    split; [exact Hrange|]. split; [exact Hk|apply (Hasp t Ht)].
Qed.

(** *** Matching against the map *)

Lemma inKeyOrder_elem {V} (m : gmap Z V) i v :
  (i, v) ∈ inKeyOrder m <-> m !! i = Some v.
Proof.
  unfold inKeyOrder. rewrite merge_sort_Permutation.
  apply elem_of_map_to_list.
Qed.

Lemma liveMapPoints_lookup s q i mp :
  liveMapPoints s !! q = Some (i, mp) ->
  mapPoints s !! i = Some mp /\ isBad mp = false.
Proof.
  intros Hq. apply list_elem_of_lookup_2 in Hq.
  unfold liveMapPoints in Hq. rewrite list_elem_of_filter in Hq.
  destruct Hq as [Hbad Hin]. apply inKeyOrder_elem in Hin. done.
Qed.

(** X26: the matches [matchWithMap] returns. *)
Theorem matchWithMap_matches (s : SLAMSystem.t) (descs : Descriptors) :
  let live := liveMapPoints s in
  let rows := map (fun kv => descriptor kv.2) live in
  (mapPoints s = ∅ \/ descs = [] -> matchWithMap cv s descs = []) /\
  Forall (fun m =>
            (distance m < 50)%R /\
            exists raw,
              raw ∈ bf_match cv true rows descs /\
              trainIdx m = trainIdx raw /\ distance m = distance raw /\
              (0 <= queryIdx raw < Z.of_nat (length live) ->
               exists mp,
                 mapPoints s !! queryIdx m = Some mp /\ isBad mp = false /\
                 rows !! Z.to_nat (queryIdx raw) = Some (descriptor mp)))
         (matchWithMap cv s descs).
Proof.
  intros live rows. unfold matchWithMap. fold (liveMapPoints s). fold live.
  split.
  - intros [Hm| ->].
    + rewrite bool_decide_eq_true_2 by exact Hm. reflexivity.
    + rewrite orb_true_r. reflexivity.
  - destruct (_ || _); [constructor|]. cbv zeta. fold rows.
    destruct (Descriptors_empty rows); [constructor|].
    apply Forall_forall. intros m Hm.
    apply list_elem_of_In, in_flat_map in Hm as (raw & Hraw & Hm).
    apply list_elem_of_In in Hraw.
    case_decide as Hd; [|destruct Hm].
    destruct Hm as [<-|[]]. cbn [distance trainIdx queryIdx].
    split; [exact Hd|]. exists raw. split; [exact Hraw|].
    split; [reflexivity|]. split; [reflexivity|].
    intros Hrange.
    destruct (lookup_lt_is_Some_2 live (Z.to_nat (queryIdx raw)))
      as [[i mp] Hq]; [lia|].
    destruct (liveMapPoints_lookup s _ _ _ Hq) as [Hmp Hbad].
    exists mp. unfold vat.
    rewrite (nth_lookup_Some (map fst live) (Z.to_nat (queryIdx raw)) 0 i).
    + split; [exact Hmp|]. split; [exact Hbad|].
      unfold rows. rewrite list_lookup_fmap, Hq. reflexivity.
    + rewrite list_lookup_fmap, Hq. reflexivity.
Qed.
End SlamMore.

(** ** The tracker on the fixtures, continued *)

Section SlamMoreFixtures.
Import SLAMSystem Fixtures.
Local Open Scope Z_scope.

Lemma processFrame_lost_witness :
  fst (processFrame cv0 (run cv0 twoFrames) blank noDraws)
  = isTracking (snd (processFrame cv0 (run cv0 twoFrames) blank noDraws)).
Proof.
  exact (proj1 (processFrame_lost cv0 twoFrames blank noDraws
                  (proj1 second_frame))).
Defined.
End SlamMoreFixtures.

(** ** The call that initialises the tracker *)

Section SlamStart.
Import SLAMSystem.
Local Open Scope Z_scope.
Variable cv : OpenCV.

(** The pose [[R | t; 0 0 0 1]] of a 3 x 3 matrix [R] and a 3 x 1
    matrix [t]. *)
Lemma poseOf_entries (r t : Mat) :
  M.nrows r = 3%nat -> Forall (fun row => length row = 3%nat) r ->
  M.nrows t = 3%nat -> Forall (fun row => length row = 1%nat) t ->
  M.poseOf r t
  = [[M.at_ r 0 0; M.at_ r 0 1; M.at_ r 0 2; M.at_ t 0 0];
     [M.at_ r 1 0; M.at_ r 1 1; M.at_ r 1 2; M.at_ t 1 0];
     [M.at_ r 2 0; M.at_ r 2 1; M.at_ r 2 2; M.at_ t 2 0];
     [0; 0; 0; 1]]%R.
Proof.
  assert (H3 : forall row : list R, length row = 3%nat ->
               exists x0 x1 x2, row = [x0; x1; x2]).
  { intros [|x0 [|x1 [|x2 [|]]]]; try discriminate. eauto. }
  assert (H1 : forall row : list R, length row = 1%nat ->
               exists x0, row = [x0]).
  { intros [|x0 [|]]; try discriminate. eauto. }
  unfold M.nrows. intros Hr Hrr Ht Htt.
  destruct r as [|r0 [|r1 [|r2 [|]]]]; try discriminate.
  destruct t as [|t0 [|t1 [|t2 [|]]]]; try discriminate.
  repeat match goal with
         | H : Forall _ (_ :: _) |- _ => apply Forall_cons in H as [? H]
         end.
  repeat match goal with
         | H : length ?row = 3%nat |- _ => apply H3 in H as (? & ? & ? & ->)
         | H : length ?row = 1%nat |- _ => apply H1 in H as (? & ->)
         end.
  reflexivity.
Qed.

(** X27: the call that initialises the tracker: the pose it sets is made
    of the rotation and the translation that [recoverPose] returns for
    the essential matrix of the good matches. *)
Theorem processFrame_initialises (calls : list Call) (frame : Image)
    (rd : nat -> nat -> nat) :
  let s := run cv calls in
  let r := processFrame cv s frame rd in
  let s' := snd r in
  let features := extractFeatures cv frame in
  let good :=
    goodMatchesOf (matchGuarded cv (prevDescriptors s) (snd features)) in
  let pts1 := pts1Of (prevKeypoints s) good in
  let pts2 := pts2Of (fst features) good in
  let em := findEssentialMat cv pts1 pts2 (K s) (999 / 1000)%R 1%R in
  let rp := recoverPose cv (fst em) pts1 pts2 (K s) (snd em) in
  let Rm := rp.1.1.2 in
  let tr := rp.1.2 in
  initialized s = false -> initialized s' = true ->
  fst r = true /\ tracking s' = true /\
  Image_empty (prevFrame s) = false /\
  (100 <= length (fst features))%nat /\ (50 <= length good)%nat /\
  Mat_empty (fst em) = false /\ 30 <= rp.1.1.1 /\
  (prevFrame s', prevKeypoints s', prevDescriptors s')
  = (frame, fst features, snd features) /\
  currentPose s' = M.poseOf Rm tr /\
  (M.nrows Rm = 3%nat -> Forall (fun row => length row = 3%nat) Rm ->
   M.nrows tr = 3%nat -> Forall (fun row => length row = 1%nat) tr ->
   currentPose s'
   = [[M.at_ Rm 0 0; M.at_ Rm 0 1; M.at_ Rm 0 2; M.at_ tr 0 0];
      [M.at_ Rm 1 0; M.at_ Rm 1 1; M.at_ Rm 1 2; M.at_ tr 1 0];
      [M.at_ Rm 2 0; M.at_ Rm 2 1; M.at_ Rm 2 2; M.at_ tr 2 0];
      [0; 0; 0; 1]]%R) /\
  exists kf0 kf1,
    keyframes s' = [kf0; kf1] /\
    kfCore kf0
    = (0, prevFrame s, M.eye 4, prevKeypoints s, prevDescriptors s) /\
    kfCore kf1 = (1, frame, currentPose s', fst features, snd features) /\
    map_Forall (fun _ mp => observations mp = [0; 1]) (mapPoints s').
Proof.
  intros s r s' features good pts1 pts2 em rp Rm tr Hoff Hon.
  subst r s' Rm tr rp em pts1 pts2 good features.
  destruct (run_slamInv cv calls) as (_ & Hstart & _). fold s in Hstart.
  specialize (Hstart Hoff). revert Hon. unfold processFrame.
  set (s0 := set_frameCount (frameCount s + 1) s).
  change (initialized s0) with (initialized s). rewrite Hoff. cbn [negb].
  assert (Hstart0 : startState s0) by exact Hstart.
  change (prevFrame s) with (prevFrame s0).
  change (prevKeypoints s) with (prevKeypoints s0).
  change (prevDescriptors s) with (prevDescriptors s0).
  change (K s) with (K s0).
  assert (Hoff0 : initialized s0 = false) by exact Hoff.
  clearbody s0. clear Hstart Hoff s.
  unfold initialize. destruct (extractFeatures cv frame) as [kps descs].
  cbn [fst snd].
  destruct (_ <? MIN_INIT_MATCHES)%nat eqn:Hkps; [cbn [snd]; congruence|].
  destruct (Image_empty (prevFrame s0)) eqn:Hprev; [cbn; congruence|].
  destruct (length (matchGuarded _ _ _) <? MIN_INIT_MATCHES)%nat;
    [cbn; congruence|].
  cbv zeta.
  destruct (length (goodMatchesOf _) <? MIN_INIT_MATCHES / 2)%nat eqn:Hgood;
    [cbn [snd]; congruence|].
  destruct (findEssentialMat _ _ _ _ _ _) as [E mask]. cbn [fst snd].
  destruct (Mat_empty E) eqn:HE; [cbn [snd]; congruence|].
  destruct (recoverPose _ _ _ _ _ _) as [[[inl Rm] tr] mask']. cbn [fst snd].
  destruct (inl <? 30) eqn:Hinl; [cbn [snd]; congruence|].
  destruct (triangulateNewPoints cv _ _ _) as [[s2 kf1'] kf2'] eqn:Htri.
  intros _. cbn [fst snd].
  apply Nat.ltb_ge in Hkps, Hgood. apply Z.ltb_ge in Hinl.
  change (MIN_INIT_MATCHES / 2)%nat with 50%nat in Hgood.
  unfold MIN_INIT_MATCHES in Hkps.
  destruct Hstart0 as (Hk & Hm & _ & Hn & Hnk & _).
  rewrite Hk, Hnk in *. cbn [app] in *.
  apply (triangulateNewPoints_built _ _ _ _ _ _ _ 2 0) in Htri
    as (Hok & Hkept & _ & _).
  2: { split; [reflexivity|]. split; [reflexivity|]. split; [lia|].
       split; [lia|].
       cbn [mapPoints nextMapPointId set_keyframes set_nextKeyFrameId
            tri_kf1 tri_kf2 tri_mapPoints tri_nextId].
       rewrite Hm, Hn.
       split; [split; [rewrite map_size_empty; reflexivity
                      |apply map_Forall_empty]|].
       split; apply new_keyframe_links. }
  destruct Hok as (_ & _ & _ & _ & [_ Hmap'] & _).
  destruct Hkept as (_ & (Hcore1 & _) & Hcore2).
  cbn [tri_kf1 tri_kf2 tri_mapPoints tri_nextId] in *.
  do 3 (split; [reflexivity|]). split; [exact Hkps|]. split; [exact Hgood|].
  split; [reflexivity|]. split; [exact Hinl|].
  do 2 (split; [reflexivity|]).
  cbn [currentPose set_tracking set_initialized cachePrev set_currentPose].
  split; [apply poseOf_entries|].
  exists kf1', kf2'.
  split; [reflexivity|]. split; [exact Hcore1|]. split; [exact Hcore2|].
  cbn [mapPoints set_tracking set_initialized cachePrev set_currentPose
       set_keyframes].
  intros i mp Hi. destruct (Hmap' i mp Hi) as (_ & _ & _ & _ & a & -> & Ha).
  replace a with 0 by lia. reflexivity.
Qed.
End SlamStart.

Section SlamStartFixtures.
Import SLAMSystem Fixtures.
Local Open Scope Z_scope.

Lemma processFrame_initialises_witness :
  fst (processFrame cv0 (run cv0 [Frame frameA noDraws]) frameB noDraws)
  = true.
Proof.
  exact (proj1 (processFrame_initialises cv0 [Frame frameA noDraws] frameB
                  noDraws eq_refl (proj1 second_frame))).
Defined.
End SlamStartFixtures.

(** ** The serialisation of matrices *)

Section BindingsMore.
Import Bindings Fixtures.
Local Open Scope R_scope.

Lemma flat_map_rows {A} (f : nat -> list A) (c : nat) (d : A) :
  (forall i, length (f i) = c) ->
  forall r s,
    length (flat_map f (seq s r)) = (r * c)%nat /\
    forall i j, (i < r)%nat -> (j < c)%nat ->
                nth (i * c + j) (flat_map f (seq s r)) d = nth j (f (s + i)%nat) d.
Proof.
  intros Hf. induction r as [|r IH]; intros s.
  - split; [reflexivity|]. intros i j Hi. lia.
  - cbn [seq flat_map]. destruct (IH (S s)) as [Hlen Hnth]. split.
    + rewrite length_app, Hlen, Hf. lia.
    + intros [|i] j Hi Hj.
      * rewrite app_nth1 by (rewrite Hf; lia).
        rewrite Nat.add_0_r. reflexivity.
      * rewrite app_nth2 by (rewrite Hf; lia). rewrite Hf.
        replace (S i * c + j - c)%nat with (i * c + j)%nat by lia.
        rewrite Hnth by lia. f_equal. f_equal. lia.
Qed.

(** X28: [matToArray] lays a matrix out row by row. *)
Theorem matToArray_layout (mat : Mat) (c : nat) :
  Forall (fun row => length row = c) mat -> mat <> [] ->
  length (matToArray mat) = (M.nrows mat * c)%nat /\
  forall i j, (i < M.nrows mat)%nat -> (j < c)%nat ->
              nth (i * c + j) (matToArray mat) 0 = M.at_ mat i j.
Proof.
  intros Hrows Hne. unfold matToArray.
  assert (Hc : M.ncols mat = c).
  { unfold M.ncols. destruct mat as [|row mat]; [done|].
    apply Forall_cons in Hrows as [Hrow _]. exact Hrow. }
  rewrite Hc.
  assert (Hf : forall i,
             length (map (fun j => M.at_ mat i j) (seq 0 c)) = c)
    by (intros i; rewrite length_map, length_seq; reflexivity).
  destruct (flat_map_rows
              (fun i => map (fun j => M.at_ mat i j) (seq 0 c)) c 0 Hf
              (M.nrows mat) 0%nat) as [Hlen Hnth].
  split; [exact Hlen|]. intros i j Hi Hj.
  rewrite Hnth by assumption. cbn [Nat.add].
  rewrite (nth_indep _ 0 (M.at_ mat i 0))
    by (rewrite length_map, length_seq; exact Hj).
  rewrite (map_nth (fun j => M.at_ mat i j)). rewrite seq_nth by exact Hj.
  reflexivity.
Qed.

Lemma matToArray_layout_witness :
  length (matToArray stepX) = (M.nrows stepX * 4)%nat.
Proof.
  refine (proj1 (matToArray_layout stepX 4 _ _)).
  - repeat constructor.
  - discriminate.
Defined.
End BindingsMore.

(** ** The keyframe decision *)

Section KeyframeDecision.
Import SLAMSystem.
Variable cv : OpenCV.

Lemma imap_rows {A B} (f : nat -> A -> B) (P : A -> Prop) (Q : B -> Prop)
    (l : list A) :
  (forall i x, P x -> Q (f i x)) -> Forall P l -> Forall Q (imap f l).
Proof.
  intros Hf Hl. revert f Hf. induction Hl as [|x l Hx Hl IH]; intros f Hf.
  - constructor.
  - cbn [imap]. constructor; [apply Hf, Hx|]. apply IH. intros i y. apply Hf.
Qed.

Lemma copyToRect_isPose src x y w h dst :
  isPose dst -> isPose (M.copyToRect src x y w h dst).
Proof.
  intros [Hlen Hrows]. unfold M.copyToRect.
  destruct (_ && _); [|done]. split.
  - rewrite length_imap. exact Hlen.
  - eapply imap_rows; [|exact Hrows]. intros i row Hrow. cbn beta.
    rewrite length_imap. exact Hrow.
Qed.

Lemma eye4_isPose : isPose (M.eye 4).
Proof. split; [reflexivity|]. repeat constructor. Qed.

Lemma poseOf_isPose r t : isPose (M.poseOf r t).
Proof. unfold M.poseOf. do 2 apply copyToRect_isPose. apply eye4_isPose. Qed.

Lemma mul_isPose a b : isPose a -> isPose b -> isPose (M.mul a b).
Proof.
  intros [Ha _] [Hb Hrows]. unfold M.mul. split.
  - rewrite length_map. exact Ha.
  - apply Forall_forall. intros row Hrow.
    apply list_elem_of_fmap in Hrow as (r0 & -> & _).
    rewrite length_map, length_seq. unfold M.ncols.
    destruct b as [|b0 b]; [discriminate|]. cbn [nth].
    apply Forall_cons in Hrows as [Hb0 _]. exact Hb0.
Qed.

(** [translationDistance] is the Euclidean distance of the translation
    columns of two 4 x 4 poses. *)
Lemma translationDistance_entries a b :
  isPose a -> isPose b ->
  translationDistance a b
  = sqrt ((M.at_ b 0 3 - M.at_ a 0 3) * (M.at_ b 0 3 - M.at_ a 0 3)
          + (M.at_ b 1 3 - M.at_ a 1 3) * (M.at_ b 1 3 - M.at_ a 1 3)
          + (M.at_ b 2 3 - M.at_ a 2 3) * (M.at_ b 2 3 - M.at_ a 2 3))%R.
Proof.
  assert (Hrow : forall row : list R, length row = 4%nat ->
                 exists x0 x1 x2 x3, row = [x0; x1; x2; x3]).
  { intros [|x0 [|x1 [|x2 [|x3 [|]]]]]; try discriminate. eauto. }
  intros [Ha Hra] [Hb Hrb].
  destruct a as [|a0 [|a1 [|a2 [|a3 [|]]]]]; try discriminate.
  destruct b as [|b0 [|b1 [|b2 [|b3 [|]]]]]; try discriminate.
  repeat match goal with
         | H : Forall _ (_ :: _) |- _ => apply Forall_cons in H as [? H]
         end.
  repeat match goal with
         | H : length ?row = 4%nat |- _ =>
           apply Hrow in H as (? & ? & ? & ? & ->)
         end.
  rewrite translationDistance_euclidean. reflexivity.
Qed.

Lemma trackPose_pose s kps descs s1 :
  trackPose cv s kps descs = Some s1 ->
  isPose (currentPose s) -> isPose (currentPose s1).
Proof.
  unfold trackPose. intros Htrack Hpose. revert Htrack.
  destruct (_ <? MIN_TRACKING_MATCHES)%nat.
  - destruct (_ <? MIN_TRACKING_MATCHES)%nat; [discriminate|].
    destruct (findEssentialMat _ _ _ _ _ _) as [E mask].
    destruct (negb (Mat_empty E)).
    + destruct (recoverPose _ _ _ _ _ _) as [[[inl R] tr] mask'].
      intros [= <-]. cbn [currentPose set_tracking set_currentPose].
      apply mul_isPose; [exact Hpose|apply poseOf_isPose].
    + intros [= <-]. exact Hpose.
  - destruct (6 <=? _)%nat.
    + unfold estimatePosePnP. destruct (_ <? 6)%nat.
      * intros [= <-]. exact Hpose.
      * destruct (solvePnPRansac _ _ _ _ _ _ _ _) as [[rvec tvec]|].
        -- intros [= <-]. cbn [currentPose set_tracking set_currentPose].
           apply poseOf_isPose.
        -- intros [= <-]. exact Hpose.
    + intros [= <-]. exact Hpose.
Qed.

Lemma createKeyFrame_poses s frame :
  built s -> posesOk s -> posesOk (createKeyFrame cv s frame).
Proof.
  intros Hb [Hcur Hkfs].
  destruct (createKeyFrame_spec cv s frame) as ((Hpose & _) & _).
  destruct (createKeyFrame_built cv s frame Hb)
    as (_ & Hkept & _ & Hlen & kfn & Hnew & Hcore).
  split; [rewrite Hpose; exact Hcur|].
  apply Forall_lookup. intros i kf' Hi.
  destruct (decide (i < length (keyframes s))%nat) as [Hlt|Hge].
  - destruct (lookup_lt_is_Some_2 _ _ Hlt) as [kf Hkf].
    destruct (Hkept i kf Hkf) as (kf2 & Hkf2 & Hc & _).
    rewrite Hi in Hkf2. injection Hkf2 as <-.
    rewrite Forall_lookup in Hkfs. specialize (Hkfs i kf Hkf).
    unfold kfCore in Hc. injection Hc as _ _ -> _ _. exact Hkfs.
  - apply lookup_lt_Some in Hi as Hlt. rewrite Hlen in Hlt.
    assert (i = length (keyframes s)) as -> by lia.
    rewrite Hi in Hnew. injection Hnew as <-.
    unfold kfCore in Hcore. injection Hcore as _ _ -> _ _. exact Hcur.
Qed.

Lemma track_poses s frame rd :
  built s -> posesOk s -> posesOk (snd (track cv s frame rd)).
Proof.
  intros Hb Hok.
  destruct (track_cases cv s frame rd)
    as [->|(kps & descs & s1 & Hpose & -> & _)]; cbn [snd]; [exact Hok|].
  destruct (trackPose_shape cv s kps descs s1 Hpose) as [Hs1 _].
  assert (Hok1 : posesOk s1).
  { destruct Hok as [Hcur Hkfs]. split.
    - eapply trackPose_pose; eassumption.
    - rewrite Hs1. exact Hkfs. }
  assert (Hb1 : built s1).
  { eapply built_same; [|exact Hb]. rewrite Hs1. reflexivity. }
  assert (Hok2 : posesOk (trackKeyFrame cv s1 frame)).
  { destruct (trackKeyFrame_cases cv s1 frame) as [->|(_ & _ & ->)];
      [exact Hok1|apply createKeyFrame_poses; assumption]. }
  destruct (track_tail cv (trackKeyFrame cv s1 frame) frame rd kps descs)
    as (Hbuild & Hposes & _).
  cbv zeta in Hbuild, Hposes.
  apply (f_equal (fun c => c.1.2)) in Hbuild.
  apply (f_equal fst) in Hposes.
  unfold buildCore in Hbuild. unfold poseCore in Hposes.
  cbn [fst snd] in Hbuild, Hposes.
  unfold posesOk. rewrite Hbuild, Hposes. exact Hok2.
Qed.

Lemma initialize_poses s frame :
  startState s -> posesOk s -> posesOk (snd (initialize cv s frame)).
Proof.
  intros Hstart Hok.
  destruct (initialize_cases cv s frame)
    as [[b ->]|[(b & kps & descs & ->)|
                (kps & descs & Rm & tr & s2 & kf1' & kf2' & Htri & ->)]];
    cbn [snd]; [exact Hok|exact Hok|].
  cbv zeta in Htri.
  destruct Hstart as (Hk & Hm & _ & Hn & Hnk & _).
  rewrite Hk, Hnk in *. cbn [app] in *.
  apply (triangulateNewPoints_built _ _ _ _ _ _ _ 2 0) in Htri
    as (_ & Hkept & _ & _).
  2: { split; [reflexivity|]. split; [reflexivity|]. split; [lia|].
       split; [lia|].
       cbn [mapPoints nextMapPointId set_keyframes set_nextKeyFrameId
            tri_kf1 tri_kf2 tri_mapPoints tri_nextId].
       rewrite Hm, Hn.
       split; [split; [rewrite map_size_empty; reflexivity
                      |apply map_Forall_empty]|].
       split; apply new_keyframe_links. }
  destruct Hkept as (_ & (Hcore1 & _) & Hcore2).
  cbn [tri_kf1 tri_kf2] in Hcore1, Hcore2.
  unfold kfCore in Hcore1, Hcore2. cbn in Hcore1, Hcore2.
  injection Hcore1 as _ _ Hp1 _ _. injection Hcore2 as _ _ Hp2 _ _.
  split; cbn [currentPose keyframes set_tracking set_initialized cachePrev
              set_currentPose set_keyframes].
  - apply poseOf_isPose.
  - constructor; [rewrite Hp1; apply eye4_isPose|].
    constructor; [rewrite Hp2; apply poseOf_isPose|constructor].
Qed.

Lemma step_poses s c : slamInv s -> posesOk s -> posesOk (step cv s c).
Proof.
  intros (Hb & Hstart & _) Hok. destruct c as [frame rd|im nm w]; cbn [step].
  - unfold processFrame.
    set (s0 := set_frameCount (frameCount s + 1) s).
    change (initialized s0) with (initialized s).
    destruct (initialized s) eqn:Hi; cbn [negb].
    + apply track_poses; [|exact Hok].
      eapply built_same; [|exact Hb]. reflexivity.
    + apply initialize_poses; [|exact Hok]. exact (Hstart eq_refl).
  - destruct (addImageTarget_fields cv s im nm w) as [Hs _].
    cbv zeta in Hs. rewrite Hs. exact Hok.
Qed.

Lemma run_poses calls : posesOk (run cv calls).
Proof.
  induction calls as [|c calls IH] using rev_ind.
  - split; [apply eye4_isPose|constructor].
  - rewrite run_snoc. apply step_poses; [apply run_slamInv|exact IH].
Qed.

(** C2.  For a frame processed when the tracker is initialised (after
    any sequence of calls), with [back] the last keyframe before the frame:
    a keyframe is added, and exactly one, if and only if [tracking] is true,
    the frame counter is a multiple of 15 and the Euclidean distance
    between the translation columns (the entries 0 to 2 of column 3) of
    the current pose and of [back]'s pose exceeds 0.1; otherwise the
    keyframes are what they were. *)
Theorem C2_keyframe_decision
    (calls : list Call) (frame : Image) (rd : nat -> nat -> nat) :
  let s := run cv calls in
  let s' := snd (processFrame cv s frame rd) in
  initialized s = true ->
  exists back,
    last (keyframes s) = Some back /\
    let dx := (M.at_ (currentPose s') 0 3 - M.at_ (kf_pose back) 0 3)%R in
    let dy := (M.at_ (currentPose s') 1 3 - M.at_ (kf_pose back) 1 3)%R in
    let dz := (M.at_ (currentPose s') 2 3 - M.at_ (kf_pose back) 2 3)%R in
    (length (keyframes s') = S (length (keyframes s)) <->
     tracking s' = true /\
     Z.rem (frameCount s') 15 = 0%Z /\
     (sqrt (dx * dx + dy * dy + dz * dz) > 1 / 10)%R) /\
    (length (keyframes s') <> S (length (keyframes s)) ->
     keyframes s' = keyframes s).
Proof.
  intros s s' Hinit.
  destruct (run_wellFormed cv calls) as [_ Hkf]. fold s in Hkf.
  specialize (Hkf Hinit).
  destruct (last (keyframes s)) as [back|] eqn:Hlast;
    [|apply last_None in Hlast; contradiction].
  exists back. split; [reflexivity|]. cbv zeta.
  assert (Hback : isPose (kf_pose back)).
  { destruct (run_poses calls) as [_ Hall]. fold s in Hall.
    rewrite Forall_forall in Hall. apply Hall.
    rewrite last_lookup in Hlast. eapply list_elem_of_lookup_2, Hlast. }
  assert (Hcur : isPose (currentPose s')).
  { pose proof (run_poses (calls ++ [Frame frame rd])) as [Hc _].
    rewrite run_snoc in Hc. exact Hc. }
  rewrite <- (translationDistance_entries _ _ Hback Hcur).
  clear Hback Hcur.
  subst s'. unfold processFrame.
  set (s0 := set_frameCount (frameCount s + 1) s).
  change (initialized s0) with (initialized s). rewrite Hinit. cbn [negb].
  destruct (track_spec cv s0 frame rd) as (_ & Hfc & _ & Hdec & _).
  set (s' := snd (track cv s0 frame rd)) in *.
  unfold keyframeDecision, needNewKeyFrame in Hdec.
  cbn [keyframes frameCount currentPose set_currentPose s0 set_frameCount] in Hdec.
  rewrite Hlast in Hdec. rewrite Hfc.
  cbn [keyframes frameCount s0 set_frameCount] in *.
  unfold KEYFRAME_INTERVAL, KEYFRAME_TRANSLATION in Hdec.
  destruct (tracking s') eqn:Htr; cbn [andb] in Hdec.
  - destruct (Z.rem (frameCount s + 1) 15 =? 0)%Z eqn:Hrem; cbn [negb] in Hdec.
    + apply Z.eqb_eq in Hrem.
      destruct (bool_decide _) eqn:Hd in Hdec.
      * apply bool_decide_eq_true in Hd. split.
        -- split; [intros _; repeat split; assumption | intros _; exact Hdec].
        -- intros Hne. contradiction.
      * apply bool_decide_eq_false in Hd. destruct Hdec as (Hk & _). split.
        -- rewrite Hk. split; [lia | intros (_ & _ & Hgt); contradiction].
        -- intros _. exact Hk.
    + apply Z.eqb_neq in Hrem. destruct Hdec as (Hk & _). split.
      * rewrite Hk. split; [lia | intros (_ & Hz & _); contradiction].
      * intros _. exact Hk.
  - destruct Hdec as (Hk & _). split.
    + rewrite Hk. split; [lia | intros (Hf & _); discriminate].
    + intros _. exact Hk.
Qed.
End KeyframeDecision.

(** ** The keyframe decision on the fixtures *)

Section KeyframeFixtures.
Import SLAMSystem Fixtures.

Lemma initialize_success_state cv s frame kps descs E mask inl R tr mask'
    s2 kf1' kf2' :
  extractFeatures cv frame = (kps, descs) ->
  (length kps <? MIN_INIT_MATCHES)%nat = false ->
  Image_empty (prevFrame s) = false ->
  (length (matchGuarded cv (prevDescriptors s) descs) <? MIN_INIT_MATCHES)%nat
  = false ->
  (length (goodMatchesOf (matchGuarded cv (prevDescriptors s) descs))
   <? MIN_INIT_MATCHES / 2)%nat = false ->
  findEssentialMat cv
    (pts1Of (prevKeypoints s)
            (goodMatchesOf (matchGuarded cv (prevDescriptors s) descs)))
    (pts2Of kps (goodMatchesOf (matchGuarded cv (prevDescriptors s) descs)))
    (K s) (999 / 1000)%R 1%R = (E, mask) ->
  Mat_empty E = false ->
  recoverPose cv E
    (pts1Of (prevKeypoints s)
            (goodMatchesOf (matchGuarded cv (prevDescriptors s) descs)))
    (pts2Of kps (goodMatchesOf (matchGuarded cv (prevDescriptors s) descs)))
    (K s) mask = (inl, R, tr, mask') ->
  (inl <? 30)%Z = false ->
  triangulateNewPoints cv
    (set_keyframes
       (keyframes s ++
        [KeyFrame_new (nextKeyFrameId s) (prevFrame s) (M.eye 4)
                      (prevKeypoints s) (prevDescriptors s);
         KeyFrame_new (nextKeyFrameId s + 1) frame (M.poseOf R tr) kps descs])
       (set_nextKeyFrameId (nextKeyFrameId s + 2) s))
    (KeyFrame_new (nextKeyFrameId s) (prevFrame s) (M.eye 4)
                  (prevKeypoints s) (prevDescriptors s))
    (KeyFrame_new (nextKeyFrameId s + 1) frame (M.poseOf R tr) kps descs)
  = (s2, kf1', kf2') ->
  initialize cv s frame
  = (true,
     set_tracking true
       (set_initialized true
          (cachePrev frame kps descs
             (set_currentPose (M.poseOf R tr)
                (set_keyframes (keyframes s ++ [kf1'; kf2']) s2))))).
Proof.
  intros Hx Hk Hp Hm Hg He Hne Hr Hi Htri. unfold initialize.
  rewrite Hx, Hk, Hp, Hm, Hg, He, Hne, Hr, Hi. cbv zeta. rewrite Htri.
  reflexivity.
Qed.

Lemma noDepth_step P1 P2 r m : triangulateStep cvNoDepth P1 P2 r m = r.
Proof.
  unfold triangulateStep. case_decide; [reflexivity|].
  destruct (0 <=? _)%Z; [reflexivity|]. cbv zeta.
  case_decide as Hw; [reflexivity|]. exfalso. apply Hw.
  change (M.at_ (pts4DOf cvNoDepth P1 P2 (tri_kf1 r) (tri_kf2 r) m) 3 0)
    with 0%R.
  rewrite Rabs_R0. lra.
Qed.

Lemma noDepth_loop P1 P2 ms r :
  fold_left (triangulateStep cvNoDepth P1 P2) ms r = r.
Proof.
  induction ms as [|m ms IH]; [reflexivity|].
  cbn [fold_left]. rewrite noDepth_step. exact IH.
Qed.

Lemma noDepth_triangulate s kf1 kf2 :
  triangulateNewPoints cvNoDepth s kf1 kf2
  = (set_nextMapPointId (nextMapPointId s) (set_mapPoints (mapPoints s) s),
     kf1, kf2).
Proof. unfold triangulateNewPoints. rewrite noDepth_loop. reflexivity. Qed.

Lemma noDepth_first :
  processFrame cvNoDepth SLAMSystem.new frameA noDraws
  = (true, cachePrev frameA (replicate 100 KeyPoint_dflt) (replicate 100 desc0)
             (set_frameCount 1 SLAMSystem.new)).
Proof. reflexivity. Qed.

Lemma noDepth_init : afterInit (run cvNoDepth twoFrames) 2.
Proof.
  unfold run, twoFrames. cbn [fold_left step]. rewrite noDepth_first.
  cbn [snd].
  set (s1 := cachePrev _ _ _ _). unfold processFrame.
  set (s1' := set_frameCount _ s1).
  change (initialized s1') with false. cbn [negb].
  assert (Hm : matchGuarded cvNoDepth (prevDescriptors s1') (replicate 100 desc0)
               = diagMatches 100) by reflexivity.
  assert (Hg : goodMatchesOf (diagMatches 100) = diagMatches 100)
    by (apply goodMatches_all, diagMatches_near).
  eassert (Hinit : initialize cvNoDepth s1' frameB = _).
  { eapply (initialize_success_state cvNoDepth s1' frameB
              (replicate 100 KeyPoint_dflt) (replicate 100 desc0)
              (M.eye 3)
              (map (fun _ => 1%Z)
                   (pts1Of (prevKeypoints s1') (diagMatches 100)))
              100%Z (M.eye 3) [[1]; [0]; [0]]%R
              (map (fun _ => 1%Z)
                   (pts1Of (prevKeypoints s1') (diagMatches 100)))).
    - reflexivity.
    - reflexivity.
    - reflexivity.
    - rewrite Hm, diagMatches_length. reflexivity.
    - rewrite Hm, Hg, diagMatches_length. reflexivity.
    - rewrite Hm, Hg. reflexivity.
    - reflexivity.
    - rewrite Hm, Hg. unfold cvNoDepth at 1. cbn [recoverPose].
      unfold cv0 at 1. cbn [recoverPose].
      unfold pts1Of at 1. rewrite length_map, diagMatches_length. reflexivity.
    - reflexivity.
    - apply noDepth_triangulate. }
  rewrite Hinit. cbn [snd]. unfold afterInit.
  split; [reflexivity|]. split; [reflexivity|]. split; [reflexivity|].
  split; [reflexivity|]. split; [reflexivity|]. split; [reflexivity|].
  eexists _, _. split; reflexivity.
Qed.

Lemma blank_afterInit s n :
  afterInit s n -> afterInit (step cvNoDepth s (Frame blank noDraws)) (n + 1).
Proof.
  intros (Hi & Hm & Hk & Hd & Hc & Hf & Hkfs). cbn [step]. unfold processFrame.
  change (initialized (set_frameCount (frameCount s + 1) s))
    with (initialized s).
  rewrite Hi. cbn [negb].
  change (track cvNoDepth (set_frameCount (frameCount s + 1) s) blank noDraws)
    with (false, set_tracking false (set_frameCount (frameCount s + 1) s)).
  cbn [snd]. unfold afterInit.
  cbn [initialized mapPoints prevKeypoints prevDescriptors currentPose
       frameCount keyframes set_tracking set_frameCount].
  rewrite Hf. done.
Qed.

Lemma noDepth_fourteen : afterInit (run cvNoDepth fourteenFrames) 14.
Proof.
  unfold run, fourteenFrames. rewrite fold_left_app.
  fold (run cvNoDepth twoFrames). cbn [replicate fold_left].
  change 14%Z with (2 + 1 + 1 + 1 + 1 + 1 + 1 + 1 + 1 + 1 + 1 + 1 + 1)%Z.
  do 12 apply blank_afterInit. exact noDepth_init.
Qed.

(** The pose part of [track] when the map is empty and the previous
    frame matches: the relative pose is accumulated. *)
Lemma trackPose_relative cv s kps descs E mask inl R tr mask' :
  mapPoints s = ∅ ->
  Descriptors_empty (prevDescriptors s) = false ->
  (length (bf_match cv true (prevDescriptors s) descs)
   <? MIN_TRACKING_MATCHES)%nat = false ->
  findEssentialMat cv
    (pts1Of (prevKeypoints s) (bf_match cv true (prevDescriptors s) descs))
    (pts2Of kps (bf_match cv true (prevDescriptors s) descs))
    (K s) (999 / 1000)%R 1%R = (E, mask) ->
  Mat_empty E = false ->
  recoverPose cv E
    (pts1Of (prevKeypoints s) (bf_match cv true (prevDescriptors s) descs))
    (pts2Of kps (bf_match cv true (prevDescriptors s) descs))
    (K s) mask = (inl, R, tr, mask') ->
  trackPose cv s kps descs
  = Some (set_tracking true
            (set_currentPose (M.mul (currentPose s) (M.poseOf R tr)) s)).
Proof.
  intros Hmap Hprev Hlen He Hne Hr. unfold trackPose, matchWithMap.
  rewrite Hmap. rewrite bool_decide_eq_true_2 by reflexivity.
  cbn [orb length]. change (0 <? MIN_TRACKING_MATCHES)%nat with true.
  cbv iota. rewrite Hprev. cbn [negb]. rewrite Hlen.
  cbv zeta. rewrite He, Hne. cbn [negb]. rewrite Hr.
  reflexivity.
Qed.

(** What [track] leaves of the pose estimation. *)
Lemma track_pose cv s frame rd kps descs s1 :
  extractFeatures cv frame = (kps, descs) ->
  (length kps <? MIN_TRACKING_MATCHES)%nat = false ->
  trackPose cv s kps descs = Some s1 ->
  poseCore (snd (track cv s frame rd)) = poseCore s1 /\
  frameCount (snd (track cv s frame rd)) = frameCount s.
Proof.
  intros Hx Hk Hpose.
  split; [|apply (track_spec cv s frame rd)].
  unfold track. rewrite Hx, Hk, Hpose. cbn [snd].
  destruct (track_tail cv (trackKeyFrame cv s1 frame) frame rd kps descs)
    as (_ & -> & _).
  destruct (trackKeyFrame_cases cv s1 frame) as [->|(_ & _ & ->)];
    [reflexivity|].
  destruct (createKeyFrame_spec cv s1 frame) as ((Hc & Ht & _) & _).
  unfold poseCore. rewrite Hc, Ht. reflexivity.
Qed.

Lemma stepX_twice : M.mul stepX (M.poseOf (M.eye 3) [[1]; [0]; [0]]%R) = stepX2.
Proof.
  unfold stepX2. cbv -[IZR Rplus Rmult Rminus Ropp]. repeat f_equal; ring.
Qed.

Lemma noDepth_trackPose s :
  mapPoints s = ∅ -> prevDescriptors s = replicate 100 desc0 ->
  trackPose cvNoDepth s (replicate 100 KeyPoint_dflt) (replicate 100 desc0)
  = Some (set_tracking true
            (set_currentPose
               (M.mul (currentPose s) (M.poseOf (M.eye 3) [[1]; [0]; [0]]%R))
               s)).
Proof.
  intros Hm Hd.
  apply (trackPose_relative cvNoDepth s _ _ (M.eye 3)
           (map (fun _ => 1%Z)
                (pts1Of (prevKeypoints s)
                   (bf_match cvNoDepth true (prevDescriptors s)
                             (replicate 100 desc0))))
           (Z.of_nat
              (length (pts1Of (prevKeypoints s)
                         (bf_match cvNoDepth true (prevDescriptors s)
                                   (replicate 100 desc0)))))
           (M.eye 3) [[1]; [0]; [0]]%R
           (map (fun _ => 1%Z)
                (pts1Of (prevKeypoints s)
                   (bf_match cvNoDepth true (prevDescriptors s)
                             (replicate 100 desc0))))).
  - exact Hm.
  - rewrite Hd. reflexivity.
  - rewrite Hd. reflexivity.
  - reflexivity.
  - reflexivity.
  - reflexivity.
Qed.

(** The fifteenth frame is tracked, a second step along x away. *)
Lemma noDepth_fifteenth :
  let s' := snd (processFrame cvNoDepth (run cvNoDepth fourteenFrames) frameA
                              noDraws) in
  tracking s' = true /\ frameCount s' = 15%Z /\ currentPose s' = stepX2.
Proof.
  destruct noDepth_fourteen as (Hi & Hm & Hk & Hd & Hc & Hf & _).
  generalize dependent (run cvNoDepth fourteenFrames). intros s Hi Hm Hk Hd Hc Hf.
  unfold processFrame.
  change (initialized (set_frameCount (frameCount s + 1) s))
    with (initialized s).
  rewrite Hi. cbn [negb].
  pose proof (noDepth_trackPose (set_frameCount (frameCount s + 1) s) Hm Hd)
    as Hpose.
  destruct (track_pose cvNoDepth _ frameA noDraws
              (replicate 100 KeyPoint_dflt) (replicate 100 desc0) _
              eq_refl eq_refl Hpose)
    as [Hcore Hfc].
  pose proof (f_equal fst Hcore) as Hcur. pose proof (f_equal snd Hcore) as Htr.
  unfold poseCore in Hcur, Htr. cbn [fst snd] in Hcur, Htr.
  split; [exact Htr|]. split.
  - rewrite Hfc. cbn [frameCount set_frameCount]. rewrite Hf. reflexivity.
  - rewrite Hcur. cbn [currentPose set_frameCount].
    rewrite Hc. exact stepX_twice.
Qed.

Lemma C2_keyframe_decision_witness :
  initialized (run cvNoDepth fourteenFrames) = true /\
  length (keyframes (snd (processFrame cvNoDepth (run cvNoDepth fourteenFrames)
                                       frameA noDraws)))
  = S (length (keyframes (run cvNoDepth fourteenFrames))).
Proof.
  destruct noDepth_fourteen
    as (Hi & _ & _ & _ & _ & _ & kf0 & kf1 & Hkfs & Hp1).
  split; [exact Hi|].
  destruct (C2_keyframe_decision cvNoDepth fourteenFrames frameA noDraws Hi)
    as (back & Hlast & Hiff & _).
  apply Hiff. clear Hiff.
  rewrite Hkfs in Hlast. injection Hlast as <-.
  destruct noDepth_fifteenth as (Ht & Hf & Hc).
  split; [exact Ht|]. split; [rewrite Hf; reflexivity|].
  rewrite Hc, Hp1. unfold stepX2, stepX, M.at_. cbn [nth].
  replace ((2 - 1) * (2 - 1) + (0 - 0) * (0 - 0) + (0 - 0) * (0 - 0))%R
    with 1%R by ring.
  rewrite sqrt_1. lra.
Defined.
End KeyframeFixtures.
